(** * cero: address parsing, CIDR expansion and the worker pipeline

    A shallow embedding of the Go sources of glebarez/cero
    (splitHostPort, isCIDR, expandCIDR, isDomainName, processInputItem and
    the worker pool of main) together with the parts of the Go standard
    library they call (net.ParseIP, net.ParseCIDR, net.IP.String,
    net.JoinHostPort, strings.TrimSpace and the two regular expressions).

    Conventions.  A Go string is a sequence of bytes and is modelled by
    [string] (a list of [ascii], one per byte).  Go's unsigned machine
    integers are modelled by [Z] with the wrap-around written out.  A Go
    run-time panic is modelled by [None] in an [option] result. *)

From Stdlib Require Import ZArith List Bool Ascii String Lia Arith Permutation.
Import ListNotations.

Open Scope string_scope.

(** ** Bytes and small string utilities *)

Module Bytes.

Definition code (c : ascii) : N := N_of_ascii c.

(** [a <= c] on bytes, as Go compares them. *)
Definition le (a c : ascii) : bool := N.leb (code a) (code c).

Definition between (lo hi c : ascii) : bool := le lo c && le c hi.

Definition isDigit (c : ascii) : bool := between "0" "9" c.

Definition isLower (c : ascii) : bool := between "a" "z" c.

Definition isUpper (c : ascii) : bool := between "A" "Z" c.

Definition LF : ascii := ascii_of_nat 10.

(** [s[i:]] for [i <= len(s)]. *)
Fixpoint drop (i : nat) (s : string) : string :=
  match i, s with
  | O, _ => s
  | S i', String _ s' => drop i' s'
  | S _, EmptyString => EmptyString
  end.

(** [s[:i]] for [i <= len(s)]. *)
Fixpoint take (i : nat) (s : string) : string :=
  match i, s with
  | O, _ => EmptyString
  | S i', String c s' => String c (take i' s')
  | S _, EmptyString => EmptyString
  end.

(** strings.Contains(s, c) for a one-byte needle. *)
Fixpoint containsByte (c : ascii) (s : string) : bool :=
  match s with
  | EmptyString => false
  | String d s' => Ascii.eqb d c || containsByte c s'
  end.

Fixpoint allBytes (p : ascii -> bool) (s : string) : bool :=
  match s with
  | EmptyString => true
  | String d s' => p d && allBytes p s'
  end.

Fixpoint lastByte (s : string) : option ascii :=
  match s with
  | EmptyString => None
  | String c EmptyString => Some c
  | String _ s' => lastByte s'
  end.

End Bytes.

(** ** isDomainName *)

Module Domain.
Import Bytes.

(** The local variables of the scanning loop of isDomainName. *)
Record scan := mkScan {
  last : ascii;
  nonNumeric : bool;
  partlen : nat;
  parts : nat
}.

(** One iteration of the loop body on byte [c].  [inl b] is an early
    [return b]; [inr st] is the state after [last = c]. *)
Definition scanByte (st : scan) (c : ascii) : bool + scan :=
  if isLower c || isUpper c then
    inr (mkScan c true (S (partlen st)) (parts st))
  else if isDigit c then
    inr (mkScan c (nonNumeric st) (S (partlen st)) (parts st))
  else if Ascii.eqb c "-" then
    if Ascii.eqb (last st) "." then inl false
    else inr (mkScan c true (S (partlen st)) (parts st))
  else if Ascii.eqb c "." then
    if Ascii.eqb (last st) "." || Ascii.eqb (last st) "-" then inl false
    else if (63 <? partlen st)%nat || (partlen st =? 0)%nat then inl false
    else inr (mkScan c (nonNumeric st) 0 (S (parts st)))
  else inl false.

(** [for i := ...; i < len(s); i++ { c := s[i]; ... }] with [k] the number
    of iterations left, [k = len(s) - i].  The indexing [s[i]] panics out
    of range, which is [None]. *)
Fixpoint scanFrom (k : nat) (s : string) (i : nat) (st : scan)
  : option (bool + scan) :=
  match k with
  | O => Some (inr st)
  | S k' =>
      match String.get i s with
      | None => None
      | Some c =>
          match scanByte st c with
          | inl b => Some (inl b)
          | inr st' => scanFrom k' s (S i) st'
          end
      end
  end.

Definition isDomainName (s : string) : option bool :=
  let l := String.length s in
  let tooLong :=
    if (l =? 0)%nat then Some true
    else if (254 <? l)%nat then Some true
    else if (l =? 254)%nat then
      match String.get (l - 1) s with
      | None => None
      | Some c => Some (negb (Ascii.eqb c "."))
      end
    else Some false in
  match tooLong with
  | None => None
  | Some true => Some false
  | Some false =>
      match scanFrom l s 0 (mkScan "." false 0 0) with
      | None => None
      | Some (inl b) => Some b
      | Some (inr st) =>
          if Ascii.eqb (last st) "-" || (63 <? partlen st)%nat then Some false
          else Some (nonNumeric st
                     && ((1 <? parts st)%nat
                         || ((0 <? parts st)%nat
                             && negb (Ascii.eqb (last st) "."))))
      end
  end.

(** The same loop by recursion on the bytes that are left to read. *)
Fixpoint scanString (l : string) (st : scan) : bool + scan :=
  match l with
  | EmptyString => inr st
  | String c l' =>
      match scanByte st c with
      | inl b => inl b
      | inr st' => scanString l' st'
      end
  end.

(** The bytes of a name: letters, digits, hyphen, and the dot between
    labels. *)
Definition isNameByte (c : ascii) : bool :=
  isLower c || isUpper c || isDigit c || Ascii.eqb c "-" || Ascii.eqb c ".".

Definition isDigitOrDot (c : ascii) : bool := isDigit c || Ascii.eqb c ".".

(** The test on the state that the loop leaves, and the test on the
    length before the loop, as booleans. *)
Definition finalTest (st : scan) : bool :=
  if Ascii.eqb (last st) "-" || (63 <? partlen st)%nat then false
  else nonNumeric st
       && ((1 <? parts st)%nat
           || ((0 <? parts st)%nat && negb (Ascii.eqb (last st) "."))).

Definition lengthOk (s : string) : bool :=
  let l := String.length s in
  negb (l =? 0)%nat && negb (254 <? l)%nat
  && (negb (l =? 254)%nat
      || match String.get (l - 1) s with
         | Some c => Ascii.eqb c "."
         | None => false
         end).

End Domain.


(** ** The Go standard library: package net

    The parsing and printing routines of package net that the program
    calls, after the library's sources (parseIPv4, parseIPv6, ParseIP,
    ParseCIDR, CIDRMask, IP.Mask, IPMask.Size, IP.String, JoinHostPort; the
    net package of Go 1.17 to 1.21).  An IP address or a mask is a byte
    slice, modelled by a list of [Z] in [0, 256); [nil] is [None]. *)

Module Net.
Import Bytes.

Definition IP := list Z.
Definition IPMask := list Z.

Definition IPv4len : nat := 4.
Definition IPv6len : nat := 16.

Definition byteVal (c : ascii) : Z := Z.of_N (code c).

Definition big : Z := 16777215.

(** dtoi: decimal to integer; returns the number, the count of bytes
    consumed and the success flag. *)
Fixpoint dtoiLoop (s : string) (n : Z) (i : nat) : Z * nat * bool :=
  match s with
  | String c s' =>
      if isDigit c then
        let n' := (n * 10 + (byteVal c - byteVal "0"))%Z in
        if (big <=? n')%Z then (big, i, false) else dtoiLoop s' n' (S i)
      else if (i =? 0)%nat then (0%Z, O, false) else (n, i, true)
  | EmptyString => if (i =? 0)%nat then (0%Z, O, false) else (n, i, true)
  end.

Definition dtoi (s : string) : Z * nat * bool := dtoiLoop s 0%Z O.

(** xtoi: hexadecimal to integer. *)
Definition hexVal (c : ascii) : option Z :=
  if between "0" "9" c then Some (byteVal c - byteVal "0")%Z
  else if between "a" "f" c then Some (byteVal c - byteVal "a" + 10)%Z
  else if between "A" "F" c then Some (byteVal c - byteVal "A" + 10)%Z
  else None.

Fixpoint xtoiLoop (s : string) (n : Z) (i : nat) : Z * nat * bool :=
  match s with
  | String c s' =>
      match hexVal c with
      | Some v =>
          let n' := (n * 16 + v)%Z in
          if (big <=? n')%Z then (0%Z, i, false) else xtoiLoop s' n' (S i)
      | None => if (i =? 0)%nat then (0%Z, i, false) else (n, i, true)
      end
  | EmptyString => if (i =? 0)%nat then (0%Z, i, false) else (n, i, true)
  end.

Definition xtoi (s : string) : Z * nat * bool := xtoiLoop s 0%Z O.

Definition v4InV6Prefix : list Z := [0; 0; 0; 0; 0; 0; 0; 0; 0; 0; 255; 255]%Z.

(** IPv4(a, b, c, d): the 16-byte form of an IPv4 address. *)
Definition IPv4 (a b c d : Z) : IP := (v4InV6Prefix ++ [a; b; c; d])%list.

(** The loop of parseIPv4 over the four octets; [i] is the octet index,
    [k] the number of octets left and [p] the octets read, in order. *)
Fixpoint parseIPv4Loop (k : nat) (i : nat) (s : string) (p : list Z)
  : option (string * list Z) :=
  match k with
  | O => Some (s, p)
  | S k' =>
      match s with
      | EmptyString => None
      | String c0 rest =>
          let afterDot :=
            if (0 <? i)%nat then
              if Ascii.eqb c0 "." then Some rest else None
            else Some s in
          match afterDot with
          | None => None
          | Some s1 =>
              let '(n, c, ok) := dtoi s1 in
              if negb ok || (255 <? n)%Z then None
              else
                let leadingZero :=
                  match s1 with
                  | String d _ => (1 <? c)%nat && Ascii.eqb d "0"
                  | EmptyString => false
                  end in
                if leadingZero then None
                else parseIPv4Loop k' (S i) (drop c s1) (p ++ [n])%list
          end
      end
  end.

Definition parseIPv4 (s : string) : option IP :=
  match parseIPv4Loop IPv4len 0 s [] with
  | Some (EmptyString, [a; b; c; d]) => Some (IPv4 a b c d)
  | _ => None
  end.

(** [ip[i] = v] on a slice; an index out of range leaves the list as it
    is (every call below is in range). *)
Fixpoint upd (i : nat) (v : Z) (ip : list Z) : list Z :=
  match ip, i with
  | [], _ => []
  | _ :: t, O => v :: t
  | h :: t, S i' => h :: upd i' v t
  end.

(** What one round of the main loop of parseIPv6 does. *)
Inductive v6round :=
| V6fail
| V6break (s : string) (i : nat) (ellipsis : option nat) (ip : list Z)
| V6next (s : string) (i : nat) (ellipsis : option nat) (ip : list Z).

Definition parseIPv6Round (s : string) (i : nat) (ellipsis : option nat)
    (ip : list Z) : v6round :=
  let '(n, c, ok) := xtoi s in
  if negb ok || (65535 <? n)%Z then V6fail
  else
    let dotFollows :=
      match String.get c s with
      | Some d => Ascii.eqb d "."
      | None => false
      end in
    if dotFollows then
      if (match ellipsis with None => true | Some _ => false end)
         && negb (i =? IPv6len - IPv4len)%nat then V6fail
      else if (IPv6len <? i + IPv4len)%nat then V6fail
      else
        match parseIPv4 s with
        | None => V6fail
        | Some ip4 =>
            let ip1 := upd i (nth 12 ip4 0%Z) ip in
            let ip2 := upd (i + 1) (nth 13 ip4 0%Z) ip1 in
            let ip3 := upd (i + 2) (nth 14 ip4 0%Z) ip2 in
            let ip4' := upd (i + 3) (nth 15 ip4 0%Z) ip3 in
            V6break "" (i + IPv4len) ellipsis ip4'
        end
    else
      let ip1 := upd i (Z.shiftr n 8) ip in
      let ip2 := upd (i + 1) (Z.land n 255) ip1 in
      let i' := (i + 2)%nat in
      match drop c s with
      | EmptyString => V6break "" i' ellipsis ip2
      | String c0 EmptyString => V6fail
      | String c0 (String c1 s2 as s1) =>
          if negb (Ascii.eqb c0 ":") then V6fail
          else if Ascii.eqb c1 ":" then
            match ellipsis with
            | Some _ => V6fail
            | None =>
                match s2 with
                | EmptyString => V6break "" i' (Some i') ip2
                | _ => V6next s2 i' (Some i') ip2
                end
            end
          else V6next s1 i' ellipsis ip2
      end.

(** [for i < IPv6len { ... }]; every round advances [i] by two, so
    [IPv6len / 2] rounds suffice and [k] counts them down. *)
Fixpoint parseIPv6Loop (k : nat) (s : string) (i : nat)
    (ellipsis : option nat) (ip : list Z)
  : option (string * nat * option nat * list Z) :=
  if (i <? IPv6len)%nat then
    match k with
    | O => None
    | S k' =>
        match parseIPv6Round s i ellipsis ip with
        | V6fail => None
        | V6break s' i' e' ip' => Some (s', i', e', ip')
        | V6next s' i' e' ip' => parseIPv6Loop k' s' i' e' ip'
        end
    end
  else Some (s, i, ellipsis, ip).

(** [for j := i - 1; j >= ellipsis; j-- { ip[j+n] = ip[j] }], with [k]
    iterations left, so that [j = ellipsis + k - 1]. *)
Fixpoint shiftUp (k : nat) (ellipsis n : nat) (ip : list Z) : list Z :=
  match k with
  | O => ip
  | S k' =>
      shiftUp k' ellipsis n
        (upd (ellipsis + k' + n) (nth (ellipsis + k') ip 0%Z) ip)
  end.

(** [for j := ellipsis + n - 1; j >= ellipsis; j-- { ip[j] = 0 }]. *)
Fixpoint zeroFill (k : nat) (ellipsis : nat) (ip : list Z) : list Z :=
  match k with
  | O => ip
  | S k' => zeroFill k' ellipsis (upd (ellipsis + k') 0%Z ip)
  end.

Definition parseIPv6 (s : string) : option IP :=
  let ip0 := repeat 0%Z IPv6len in
  let start :=
    match s with
    | String ":" (String ":" s') => (Some O, s')
    | _ => (None, s)
    end in
  match start with
  | (Some _, EmptyString) => Some ip0
  | (ellipsis0, s0) =>
      match parseIPv6Loop 8 s0 0 ellipsis0 ip0 with
      | None => None
      | Some (s1, i, ellipsis, ip) =>
          match s1 with
          | String _ _ => None
          | EmptyString =>
              if (i <? IPv6len)%nat then
                match ellipsis with
                | None => None
                | Some e =>
                    let n := (IPv6len - i)%nat in
                    Some (zeroFill n e (shiftUp (i - e) e n ip))
                end
              else
                match ellipsis with
                | Some _ => None
                | None => Some ip
                end
          end
      end
  end.

(** ParseIP: the first '.' or ':' of the text selects the parser. *)
Fixpoint parseIPScan (rest whole : string) : option IP :=
  match rest with
  | EmptyString => None
  | String c rest' =>
      if Ascii.eqb c "." then parseIPv4 whole
      else if Ascii.eqb c ":" then parseIPv6 whole
      else parseIPScan rest' whole
  end.

Definition ParseIP (s : string) : option IP := parseIPScan s s.

End Net.

(** ** Masks, networks and printing of package net *)

Module NetMask.
Import Bytes Net.

Record IPNet := mkIPNet { netIP : IP; netMask : IPMask }.

(** CIDRMask(ones, bits), the loop over the [l = bits / 8] mask bytes with
    [n] the one-bits still to place. *)
Fixpoint cidrMaskLoop (l : nat) (n : Z) : IPMask :=
  match l with
  | O => []
  | S l' =>
      if (8 <=? n)%Z then 255%Z :: cidrMaskLoop l' (n - 8)%Z
      else Z.lxor (Z.shiftr 255 n) 255 :: cidrMaskLoop l' 0%Z
  end.

Definition CIDRMask (ones bits : Z) : option IPMask :=
  if negb (bits =? 32)%Z && negb (bits =? 128)%Z then None
  else if (ones <? 0)%Z || (bits <? ones)%Z then None
  else Some (cidrMaskLoop (Z.to_nat (bits / 8)) ones).

Definition allFF (b : list Z) : bool := forallb (fun v => (v =? 255)%Z) b.

Definition isZeros (b : list Z) : bool := forallb (fun v => (v =? 0)%Z) b.

Definition bytesEq (a b : list Z) : bool :=
  (List.length a =? List.length b)%nat
  && forallb (fun xy => (fst xy =? snd xy)%Z) (combine a b).

Fixpoint andBytes (ip mask : list Z) : list Z :=
  match ip, mask with
  | x :: ip', m :: mask' => Z.land x m :: andBytes ip' mask'
  | _, _ => []
  end.

(** IP.Mask(mask). *)
Definition Mask (ip : IP) (mask : IPMask) : option IP :=
  let mask1 :=
    if (List.length mask =? IPv6len)%nat && (List.length ip =? IPv4len)%nat
       && allFF (firstn 12 mask)
    then skipn 12 mask else mask in
  let ip1 :=
    if (List.length mask1 =? IPv4len)%nat && (List.length ip =? IPv6len)%nat
       && bytesEq (firstn 12 ip) v4InV6Prefix
    then skipn 12 ip else ip in
  if (List.length ip1 =? List.length mask1)%nat then Some (andBytes ip1 mask1)
  else None.

(** The inner loop of simpleMaskLength: count the leading one-bits of the
    byte [v], shifting it left (as a byte). *)
Fixpoint leadingOnes (k : nat) (v : Z) (n : Z) : Z * Z :=
  match k with
  | O => (v, n)
  | S k' =>
      if negb (Z.land v 128 =? 0)%Z
      then leadingOnes k' (Z.land (Z.shiftl v 1) 255) (n + 1)%Z
      else (v, n)
  end.

Fixpoint simpleMaskLengthFrom (mask : list Z) (n : Z) : Z :=
  match mask with
  | [] => n
  | v :: rest =>
      if (v =? 255)%Z then simpleMaskLengthFrom rest (n + 8)%Z
      else
        let '(v', n') := leadingOnes 8 v n in
        if negb (v' =? 0)%Z then (-1)%Z
        else if isZeros rest then n' else (-1)%Z
  end.

Definition simpleMaskLength (mask : IPMask) : Z := simpleMaskLengthFrom mask 0%Z.

(** IPMask.Size(): the number of leading ones and the total of bits. *)
Definition Size (m : IPMask) : Z * Z :=
  let ones := simpleMaskLength m in
  if (ones =? -1)%Z then (0%Z, 0%Z) else (ones, Z.of_nat (List.length m) * 8)%Z.

(** bytealg.IndexByteString. *)
Fixpoint indexByte (s : string) (c : ascii) : option nat :=
  match s with
  | EmptyString => None
  | String d s' =>
      if Ascii.eqb d c then Some O
      else match indexByte s' c with
           | Some i => Some (S i)
           | None => None
           end
  end.

(** ParseCIDR; [None] is the *ParseError result. *)
Definition ParseCIDR (s : string) : option (IP * IPNet) :=
  match indexByte s "/" with
  | None => None
  | Some i =>
      let addr := take i s in
      let mask := drop (S i) s in
      let '(iplen, ip) :=
        match parseIPv4 addr with
        | Some ip4 => (IPv4len, Some ip4)
        | None => (IPv6len, parseIPv6 addr)
        end in
      let '(n, j, ok) := dtoi mask in
      match ip with
      | None => None
      | Some ip' =>
          if negb ok || negb (j =? String.length mask)%nat
             || (n <? 0)%Z || (8 * Z.of_nat iplen <? n)%Z
          then None
          else
            match CIDRMask n (8 * Z.of_nat iplen) with
            | None => None
            | Some m =>
                match Mask ip' m with
                | None => None
                | Some masked => Some (ip', mkIPNet masked m)
                end
            end
      end
  end.

(** *** Printing *)

Definition digitChar (v : Z) : ascii :=
  ascii_of_N (Z.to_N (v + byteVal "0")).

(** ubtoa: a byte in decimal. *)
Definition ubtoa (v : Z) : string :=
  if (v <? 10)%Z then String (digitChar v) ""
  else if (v <? 100)%Z then
    String (digitChar (v / 10)) (String (digitChar (v mod 10)) "")
  else
    String (digitChar (v / 100))
      (String (digitChar ((v / 10) mod 10)) (String (digitChar (v mod 10)) "")).

Definition hexDigit (v : Z) : ascii :=
  if (v <? 10)%Z then ascii_of_N (Z.to_N (v + byteVal "0"))
  else ascii_of_N (Z.to_N (v - 10 + byteVal "a")).

(** appendHex: [for j := 7; j >= 0; j--], [k = j + 1]. *)
Fixpoint appendHexLoop (k : nat) (i : Z) : string :=
  match k with
  | O => ""
  | S j =>
      let v := Z.shiftr i (Z.of_nat j * 4) in
      if (0 <? v)%Z
      then String (hexDigit (Z.land v 15)) (appendHexLoop j i)
      else appendHexLoop j i
  end.

Definition appendHex (i : Z) : string :=
  if (i =? 0)%Z then "0" else appendHexLoop 8 i.

Definition hexByte (v : Z) : string :=
  String (hexDigit (Z.shiftr v 4)) (String (hexDigit (Z.land v 15)) "").

Fixpoint hexString (b : list Z) : string :=
  match b with
  | [] => ""
  | v :: b' => hexByte v ++ hexString b'
  end.

(** IP.To4. *)
Definition To4 (ip : IP) : option IP :=
  if (List.length ip =? IPv4len)%nat then Some ip
  else if (List.length ip =? IPv6len)%nat && isZeros (firstn 10 ip)
          && (nth 10 ip 0 =? 255)%Z && (nth 11 ip 0 =? 255)%Z
  then Some (firstn 4 (skipn 12 ip))
  else None.

(** The zero run that starts at byte [j]: its end. *)
Fixpoint zeroRunEnd (k : nat) (p : list Z) (j : nat) : nat :=
  match k with
  | O => j
  | S k' =>
      if (j <? IPv6len)%nat && (nth j p 0 =? 0)%Z && (nth (j + 1) p 0 =? 0)%Z
      then zeroRunEnd k' p (j + 2)
      else j
  end.

(** The search for the longest run of zero groups, [e0 .. e1). *)
Fixpoint longestZeroRun (k : nat) (p : list Z) (i : nat) (e0 e1 : Z) : Z * Z :=
  match k with
  | O => (e0, e1)
  | S k' =>
      if (i <? IPv6len)%nat then
        let j := zeroRunEnd 8 p i in
        if (i <? j)%nat && (e1 - e0 <? Z.of_nat j - Z.of_nat i)%Z
        then longestZeroRun k' p (j + 2) (Z.of_nat i) (Z.of_nat j)
        else longestZeroRun k' p (i + 2) e0 e1
      else (e0, e1)
  end.

(** The printing loop of the IPv6 form. *)
Fixpoint printGroups (k : nat) (p : list Z) (i : nat) (e0 e1 : Z) : string :=
  match k with
  | O => ""
  | S k' =>
      if (i <? IPv6len)%nat then
        let group (x : nat) :=
          appendHex (Z.lor (Z.shiftl (nth x p 0%Z) 8) (nth (x + 1) p 0%Z)) in
        if (Z.of_nat i =? e0)%Z then
          let i' := Z.to_nat e1 in
          if (IPv6len <=? i')%nat then "::"
          else "::" ++ group i' ++ printGroups k' p (i' + 2) e0 e1
        else if (0 <? i)%nat then
          ":" ++ group i ++ printGroups k' p (i + 2) e0 e1
        else group i ++ printGroups k' p (i + 2) e0 e1
      else ""
  end.

Definition dotted (p4 : list Z) : string :=
  ubtoa (nth 0 p4 0%Z) ++ "." ++ ubtoa (nth 1 p4 0%Z) ++ "."
  ++ ubtoa (nth 2 p4 0%Z) ++ "." ++ ubtoa (nth 3 p4 0%Z).

(** IP.String(). *)
Definition IPString (ip : IP) : string :=
  match ip with
  | [] => "<nil>"
  | _ =>
      match To4 ip with
      | Some p4 => dotted p4
      | None =>
          if negb (List.length ip =? IPv6len)%nat then "?" ++ hexString ip
          else
            let '(e0, e1) := longestZeroRun 8 ip 0 (-1)%Z (-1)%Z in
            let '(e0, e1) :=
              if (e1 - e0 <=? 2)%Z then ((-1)%Z, (-1)%Z) else (e0, e1) in
            printGroups 8 ip 0 e0 e1
      end
  end.

(** JoinHostPort. *)
Definition JoinHostPort (host port : string) : string :=
  if containsByte ":" host then "[" ++ host ++ "]:" ++ port
  else host ++ ":" ++ port.

(** IPNet.Contains, with networkNumberAndMask. *)
Definition networkNumberAndMask (n : IPNet) : option (IP * IPMask) :=
  let ip :=
    match To4 (netIP n) with
    | Some ip4 => Some ip4
    | None => if (List.length (netIP n) =? IPv6len)%nat then Some (netIP n) else None
    end in
  match ip with
  | None => None
  | Some ip' =>
      let m := netMask n in
      if (List.length m =? IPv4len)%nat then
        if (List.length ip' =? IPv4len)%nat then Some (ip', m) else None
      else if (List.length m =? IPv6len)%nat then
        if (List.length ip' =? IPv4len)%nat then Some (ip', skipn 12 m)
        else Some (ip', m)
      else None
  end.

Definition Contains (n : IPNet) (ip : IP) : bool :=
  let ip' := match To4 ip with Some x => x | None => ip end in
  match networkNumberAndMask n with
  | None => (List.length ip' =? 0)%nat
  | Some (nn, m) =>
      (List.length ip' =? List.length nn)%nat
      && bytesEq (andBytes nn m) (andBytes ip' m)
  end.

(** *** encoding/binary, big endian *)

Definition Uint32 (b : list Z) : option Z :=
  match b with
  | b0 :: b1 :: b2 :: b3 :: _ =>
      Some (Z.lor (Z.lor (Z.lor b3 (Z.shiftl b2 8)) (Z.shiftl b1 16))
                  (Z.shiftl b0 24))
  | _ => None
  end.

Definition Uint64 (b : list Z) : option Z :=
  match b with
  | b0 :: b1 :: b2 :: b3 :: b4 :: b5 :: b6 :: b7 :: _ =>
      Some (Z.lor (Z.lor (Z.lor (Z.lor (Z.lor (Z.lor (Z.lor
              b7 (Z.shiftl b6 8)) (Z.shiftl b5 16)) (Z.shiftl b4 24))
              (Z.shiftl b3 32)) (Z.shiftl b2 40)) (Z.shiftl b1 48))
              (Z.shiftl b0 56))
  | _ => None
  end.

Definition byteAt (v : Z) (shift : Z) : Z := Z.land (Z.shiftr v shift) 255.

Definition PutUint32 (v : Z) : list Z :=
  [byteAt v 24; byteAt v 16; byteAt v 8; byteAt v 0].

Definition PutUint64 (v : Z) : list Z :=
  [byteAt v 56; byteAt v 48; byteAt v 40; byteAt v 32;
   byteAt v 24; byteAt v 16; byteAt v 8; byteAt v 0].

(** The values of a byte. *)
Definition isByte (v : Z) : Prop := (0 <= v <= 255)%Z.

(** What net.parseIPv4 checks of one octet printed by ubtoa: all digits,
    read back by dtoi to the same value, no leading zero. *)
Definition octetReadsBack (v : Z) : bool :=
  let u := ubtoa v in
  allBytes isDigit u
  && (let '(n, c, ok) := dtoi u in
      (n =? v)%Z && (c =? String.length u)%nat && ok)
  && match u with
     | String d _ => negb ((1 <? String.length u)%nat && Ascii.eqb d "0")
     | EmptyString => false
     end.

(** Equality of two results of Size, as a boolean. *)
Definition pairEqb (a b : Z * Z) : bool :=
  (fst a =? fst b)%Z && (snd a =? snd b)%Z.

End NetMask.

(** ** The Go standard library: package strings *)

Module GoStrings.
Import Bytes.

Definition ofCodes (l : list nat) : string :=
  fold_right (fun n s => String (ascii_of_nat n) s) EmptyString l.

(** The white space of unicode.IsSpace below U+0080: '\t', '\n', '\v',
    '\f', '\r' and ' '. *)
Definition isAsciiSpace (c : ascii) : bool :=
  let n := nat_of_ascii c in
  ((9 <=? n)%nat && (n <=? 13)%nat) || (n =? 32)%nat.

(** The UTF-8 encodings of the other white-space runes: U+0085, U+00A0,
    U+1680, U+2000 to U+200A, U+2028, U+2029, U+202F, U+205F, U+3000. *)
Definition wideSpaces : list string :=
  map ofCodes
    ([194; 133] :: [194; 160] :: [225; 154; 128]
     :: map (fun n => [226; 128; n]) (seq 128 11)
     ++ [[226; 128; 168]; [226; 128; 169]; [226; 128; 175];
         [226; 129; 159]; [227; 128; 128]])%list.

Fixpoint hasPrefix (p s : string) : bool :=
  match p, s with
  | EmptyString, _ => true
  | String a p', String b s' => Ascii.eqb a b && hasPrefix p' s'
  | String _ _, EmptyString => false
  end.

Fixpoint rev (s : string) : string :=
  match s with
  | EmptyString => EmptyString
  | String c s' => rev s' ++ String c EmptyString
  end.

Definition hasSuffix (p s : string) : bool := hasPrefix (rev p) (rev s).

(** The width in bytes of the white-space rune that [s] starts with, [0]
    when it starts with none. *)
Definition leadingSpace (s : string) : nat :=
  match s with
  | EmptyString => O
  | String c _ =>
      if isAsciiSpace c then 1%nat
      else
        match find (fun p => hasPrefix p s) wideSpaces with
        | Some p => String.length p
        | None => O
        end
  end.

(** The same for the rune that [s] ends with (utf8.DecodeLastRune). *)
Definition trailingSpace (s : string) : nat :=
  match lastByte s with
  | None => O
  | Some c =>
      if isAsciiSpace c then 1%nat
      else
        match find (fun p => hasSuffix p s) wideSpaces with
        | Some p => String.length p
        | None => O
        end
  end.

Fixpoint trimLeftLoop (k : nat) (s : string) : string :=
  match k with
  | O => s
  | S k' =>
      match leadingSpace s with
      | O => s
      | w => trimLeftLoop k' (drop w s)
      end
  end.

Fixpoint trimRightLoop (k : nat) (s : string) : string :=
  match k with
  | O => s
  | S k' =>
      match trailingSpace s with
      | O => s
      | w => trimRightLoop k' (take (String.length s - w) s)
      end
  end.

(** strings.TrimSpace: white-space runes are cut from both ends; at most
    [len(s)] runes can be cut. *)
Definition TrimSpace (s : string) : string :=
  let s1 := trimLeftLoop (String.length s) s in
  trimRightLoop (String.length s1) s1.

Definition TrimPrefix (s prefix : string) : string :=
  if hasPrefix prefix s then drop (String.length prefix) s else s.

Definition TrimSuffix (s suffix : string) : string :=
  if hasSuffix suffix s then take (String.length s - String.length suffix) s
  else s.

End GoStrings.

(** ** The two regular expressions of the program

    Go's regexp works on the runes of the text, [.] matches every rune but
    the line feed, [\d] is [0-9], and [^] and [$] match at the two ends of
    the text only.  A colon is never part of a longer rune, so the matches
    below can be found byte by byte. *)

Module Regexp.
Import Bytes.

(** The tail [(:(\d+))?$] at the current position: [Some port] when it
    matches, with [port] the text of group 3 (empty when the optional group
    takes no part). *)
Definition portTail (s : string) : option string :=
  match s with
  | EmptyString => Some EmptyString
  | String c d =>
      if Ascii.eqb c ":" then
        match d with
        | EmptyString => None
        | String _ _ => if allBytes isDigit d then Some d else None
        end
      else None
  end.

(** portRegexp.FindStringSubmatch for [^(.*?)(:(\d+))?$]: the lazy
    [(.*?)] is tried at its shortest first and grows one byte at a time,
    never over a line feed.  The result is (group 1, group 3); [None] is
    the nil slice of a text that does not match. *)
Fixpoint portRegexp_FindStringSubmatch (s : string) : option (string * string) :=
  match portTail s with
  | Some port => Some (EmptyString, port)
  | None =>
      match s with
      | EmptyString => None
      | String c s' =>
          if Ascii.eqb c LF then None
          else
            match portRegexp_FindStringSubmatch s' with
            | Some (host, port) => Some (String c host, port)
            | None => None
            end
      end
  end.

(** bracketRegexp.MatchString for [^\[.*\]$]. *)
Definition bracketRegexp_MatchString (s : string) : bool :=
  match s with
  | String c rest =>
      Ascii.eqb c "["
      && match lastByte rest with
         | Some d => Ascii.eqb d "]"
         | None => false
         end
      && negb (containsByte LF rest)
  | EmptyString => false
  end.

End Regexp.

(** ** The program: addresses *)

Module Cero.
Import Bytes Net NetMask GoStrings Regexp.

(** isCIDR. *)
Definition isCIDR (value : string) : bool := containsByte "/" value.

(** splitHostPort.  The indexing [portMatch[1]] of a nil slice panics:
    that is the result [None]. *)
Definition splitHostPort (addr : string) : option (string * string) :=
  match portRegexp_FindStringSubmatch addr with
  | None => None
  | Some (host, port) =>
      let isIPv6 := containsByte ":" host in
      if isIPv6 && bracketRegexp_MatchString host then
        Some (TrimSuffix (TrimPrefix host "[") "]", port)
      else if (String.length port =? 0)%nat then Some (host, port)
      else if isCIDR host then Some (host, port)
      else if isIPv6 then
        if (4 <? String.length port)%nat then Some (host, port)
        else
          (let hostPort := host ++ ":" ++ port in
           match ParseIP hostPort with
           | Some _ => Some (hostPort, EmptyString)
           | None => Some (host, port)
           end)
      else Some (host, port)
  end.

End Cero.

(** ** CIDR literals, as texts

    The words of the claims about expandCIDR: a well-formed CIDR literal is
    an IPv4 or an IPv6 address text, a slash and a decimal prefix length
    within the width of the address. *)

Module Literal.
Import Bytes Net NetMask.

Inductive kind :=
| Malformed
| V4 (p : Z)
| V6 (p : Z).

Definition classify (s : string) : kind :=
  match indexByte s "/" with
  | None => Malformed
  | Some i =>
      let addr := take i s in
      let mask := drop (S i) s in
      let '(n, j, ok) := dtoi mask in
      if ok && (j =? String.length mask)%nat then
        match parseIPv4 addr, parseIPv6 addr with
        | Some _, _ => if (n <=? 32)%Z then V4 n else Malformed
        | None, Some _ => if (n <=? 128)%Z then V6 n else Malformed
        | None, None => Malformed
        end
      else Malformed
  end.

End Literal.

(** ** The program: CIDR expansion *)

Module Expand.
Import Bytes Net NetMask GoStrings Regexp Cero.

(** The two errors of expandCIDR: the *net.ParseError of ParseCIDR and the
    error made by fmt.Errorf for an IPv6 mask that is too wide. *)
Inductive error :=
| ParseError (text : string)
| MaskRangeError (cidr : string).

(** The goroutine that expandCIDR starts, by the case of the switch on
    [mBits]; with no case taken nothing is started, and the channel is
    neither written nor closed. *)
Inductive producer :=
| Expand4 (ipnet : IPNet)
| Expand6 (ipnet : IPNet)
| ExpandNone.

Definition expandCIDR (CIDR : string) : error + producer :=
  match ParseCIDR CIDR with
  | None => inl (ParseError CIDR)
  | Some (_, ipnet) =>
      let '(mOnes, mBits) := Size (netMask ipnet) in
      if (mBits =? 128)%Z && (mOnes <? 64)%Z then inl (MaskRangeError CIDR)
      else if (mBits =? 32)%Z then inr (Expand4 ipnet)
      else if (mBits =? 128)%Z then inr (Expand6 ipnet)
      else inr ExpandNone
  end.

(** [^x] on an unsigned integer of [w] bits. *)
Definition complement (w x : Z) : Z := Z.lxor x (Z.ones w).

(** [x++] on an unsigned integer of [w] bits. *)
Definition incr (w x : Z) : Z := ((x + 1) mod 2 ^ w)%Z.

(** [for mask := 0; mask <= ^maskW; mask++ { send (ipW ^ mask) }; close]:
    the values sent in the first [fuel] evaluations of the loop condition
    from counter [mask] on, and whether the loop was left (and the channel
    closed) within them. *)
Fixpoint counterLoop (w ipW maskW : Z) (fuel : nat) (mask : Z) : list Z * bool :=
  match fuel with
  | O => ([], false)
  | S fuel' =>
      if (mask <=? complement w maskW)%Z then
        let '(sent, closed) := counterLoop w ipW maskW fuel' (incr w mask) in
        (Z.lxor ipW mask :: sent, closed)
      else ([], true)
  end.

(** The addresses, as byte slices, that the goroutine builds in its buffer
    and sends (after IP.String), in order; [None] is a panic of the
    goroutine (a slice too short for Uint32, Uint64 or [ip[8:]]). *)
Definition runBytes (p : producer) (fuel : nat) : option (list IP * bool) :=
  match p with
  | Expand4 ipnet =>
      match Uint32 (netIP ipnet), Uint32 (netMask ipnet) with
      | Some ip32, Some mask32 =>
          let '(sent, closed) := counterLoop 32 ip32 mask32 fuel 0 in
          Some (map PutUint32 sent, closed)
      | _, _ => None
      end
  | Expand6 ipnet =>
      if (List.length (netIP ipnet) <? 8)%nat
         || (List.length (netMask ipnet) <? 8)%nat then None
      else
        match Uint64 (skipn 8 (netIP ipnet)), Uint64 (skipn 8 (netMask ipnet)) with
        | Some ip64, Some mask64 =>
            let '(sent, closed) := counterLoop 64 ip64 mask64 fuel 0 in
            Some (map (fun v => firstn 8 (netIP ipnet) ++ PutUint64 v)%list sent,
                  closed)
        | _, _ => None
        end
  | ExpandNone => Some ([], false)
  end.

(** What a receiver of the channel gets: the strings, in order, and
    whether the channel was closed after them. *)
Definition run (p : producer) (fuel : nat) : option (list string * bool) :=
  match runBytes p fuel with
  | Some (sent, closed) => Some (map IPString sent, closed)
  | None => None
  end.

(** The networks of the widest masks that expandCIDR accepts, the whole
    IPv4 space and an IPv6 /64 (here the one of the zero address). *)
Definition wholeV4 : IPNet := mkIPNet [0; 0; 0; 0]%Z [0; 0; 0; 0]%Z.

Definition wholeV6 : IPNet :=
  mkIPNet (repeat 0%Z 16) (repeat 255%Z 8 ++ repeat 0%Z 8)%list.

End Expand.

(** ** The program: input items and the worker pool *)

Module Pipeline.
Import Bytes Net NetMask GoStrings Regexp Cero Expand.

(** The error of a procResult: one of expandCIDR, or whatever the TLS
    dial of grabCert reports. *)
Inductive failure :=
| ExpandError (e : error)
| DialError (text : string).

Record procResult := mkResult {
  addr : string;
  names : list string;
  err : option failure
}.

(** What processInputItem does to the two channels. *)
Inductive event :=
| SendInput (target : string)
| SendResult (r : procResult).

Inductive outcome :=
| Returns (evs : list event)
| Panics
| StillExpanding (evs : list event).

(** processInputItem; [fuel] bounds the rounds of the CIDR goroutine that
    are followed. *)
Definition processInputItem (defaultPorts : list string) (fuel : nat)
    (input : string) : outcome :=
  let input := TrimSpace input in
  if (String.length input =? 0)%nat then Returns []
  else
    match splitHostPort input with
    | None => Panics
    | Some (host, port) =>
        let ports :=
          if (String.length port =? 0)%nat then defaultPorts else [port] in
        if isCIDR host then
          match expandCIDR host with
          | inl e => Returns [SendResult (mkResult input [] (Some (ExpandError e)))]
          | inr ips =>
              match run ips fuel with
              | None => Panics
              | Some (received, closed) =>
                  let sends :=
                    flat_map
                      (fun ip => map (fun port => SendInput (JoinHostPort ip port)) ports)
                      received in
                  if closed then Returns sends else StillExpanding sends
              end
          end
        else Returns (map (fun port => SendInput (JoinHostPort host port)) ports)
    end.

(** The loop of main over the command-line arguments. *)
Fixpoint processInputs (defaultPorts : list string) (fuel : nat)
    (inputs : list string) : outcome :=
  match inputs with
  | [] => Returns []
  | input :: rest =>
      match processInputItem defaultPorts fuel input with
      | Returns evs =>
          match processInputs defaultPorts fuel rest with
          | Returns evs' => Returns (evs ++ evs')%list
          | Panics => Panics
          | StillExpanding evs' => StillExpanding (evs ++ evs')%list
          end
      | Panics => Panics
      | StillExpanding evs => StillExpanding evs
      end
  end.

(** *** The goroutines of main

    The main goroutine performs its sends in order and then closes
    chanInput; each worker receives a target, calls grabCert and sends the
    result; the closer waits for the workers and closes chanResult; the
    printer receives the results.  Both channels are unbuffered: a send
    and its receive are one step. *)

Inductive worker :=
| Idle
| Busy (target : string)
| Ready (r : procResult)
| Exited.

Inductive origin := FromWorker | FromMain.

Record state := mkState {
  todo : list event;
  inputClosed : bool;
  workers : list worker;
  resultClosed : bool;
  sent : list string;
  emitted : list (origin * procResult);
  crashed : bool
}.

Definition init (concurrency : nat) (program : list event) : state :=
  mkState program false (repeat Idle concurrency) false [] [] false.

(** The steps, named by who moves. *)
Inductive action :=
| Feed (i : nat)
| Grab (i : nat) (names : list string) (err : option failure)
| Emit (i : nat)
| MainEmit
| CloseInput
| Exit (i : nat)
| CloseResult.

Fixpoint setWorker (i : nat) (w : worker) (ws : list worker) : list worker :=
  match ws, i with
  | [], _ => []
  | _ :: t, O => w :: t
  | h :: t, S i' => h :: setWorker i' w t
  end.

Definition isExited (w : worker) : bool :=
  match w with Exited => true | _ => false end.

Definition step (a : action) (s : state) : option state :=
  if crashed s then None
  else
    match a with
    | Feed i =>
        match todo s, nth_error (workers s) i with
        | SendInput t :: rest, Some Idle =>
            if inputClosed s then None
            else Some (mkState rest (inputClosed s) (setWorker i (Busy t) (workers s))
                         (resultClosed s) (sent s ++ [t]) (emitted s) false)
        | _, _ => None
        end
    | Grab i names err =>
        match nth_error (workers s) i with
        | Some (Busy t) =>
            Some (mkState (todo s) (inputClosed s)
                    (setWorker i (Ready (mkResult t names err)) (workers s))
                    (resultClosed s) (sent s) (emitted s) false)
        | _ => None
        end
    | Emit i =>
        match nth_error (workers s) i with
        | Some (Ready r) =>
            if resultClosed s then
              Some (mkState (todo s) (inputClosed s) (workers s)
                      (resultClosed s) (sent s) (emitted s) true)
            else
              Some (mkState (todo s) (inputClosed s) (setWorker i Idle (workers s))
                      (resultClosed s) (sent s)
                      (emitted s ++ [(FromWorker, r)]) false)
        | _ => None
        end
    | MainEmit =>
        match todo s with
        | SendResult r :: rest =>
            if resultClosed s then
              Some (mkState (todo s) (inputClosed s) (workers s)
                      (resultClosed s) (sent s) (emitted s) true)
            else
              Some (mkState rest (inputClosed s) (workers s)
                      (resultClosed s) (sent s)
                      (emitted s ++ [(FromMain, r)]) false)
        | _ => None
        end
    | CloseInput =>
        match todo s with
        | [] =>
            if inputClosed s then None
            else Some (mkState [] true (workers s) (resultClosed s)
                         (sent s) (emitted s) false)
        | _ => None
        end
    | Exit i =>
        match nth_error (workers s) i with
        | Some Idle =>
            if inputClosed s then
              Some (mkState (todo s) (inputClosed s) (setWorker i Exited (workers s))
                      (resultClosed s) (sent s) (emitted s) false)
            else None
        | _ => None
        end
    | CloseResult =>
        if forallb isExited (workers s) && negb (resultClosed s) then
          Some (mkState (todo s) (inputClosed s) (workers s) true
                  (sent s) (emitted s) false)
        else None
    end.

(** A schedule is run action by action. *)
Fixpoint exec (sched : list action) (s : state) : option state :=
  match sched with
  | [] => Some s
  | a :: rest =>
      match step a s with
      | Some s' => exec rest s'
      | None => None
      end
  end.

Definition inFlight (w : worker) : list string :=
  match w with
  | Busy t => [t]
  | Ready r => [addr r]
  | _ => []
  end.

Definition workerResults (s : state) : list procResult :=
  flat_map (fun e => match fst e with FromWorker => [snd e] | FromMain => [] end)
    (emitted s).

Definition eventAddr (e : event) : string :=
  match e with
  | SendInput t => t
  | SendResult r => addr r
  end.

Definition targets (evs : list event) : list string :=
  flat_map (fun e => match e with SendInput t => [t] | SendResult _ => [] end) evs.

Definition directs (evs : list event) : list procResult :=
  flat_map (fun e => match e with SendInput _ => [] | SendResult r => [r] end) evs.

Definition mainResults (s : state) : list procResult :=
  flat_map (fun e => match fst e with FromWorker => [] | FromMain => [snd e] end)
    (emitted s).

(** What holds of every state that the program of [concurrency] workers
    and main events [program] reaches. *)
Record invariant (concurrency : nat) (program : list event) (s : state) : Prop :=
  mkInvariant {
    inv_alive : crashed s = false;
    inv_workers : List.length (workers s) = concurrency;
    inv_done : exists done,
        program = (done ++ todo s)%list
        /\ sent s = targets done /\ mainResults s = directs done;
    inv_accounted :
      Permutation (sent s)
        (map addr (workerResults s) ++ flat_map inFlight (workers s))%list;
    inv_input : inputClosed s = true -> todo s = [];
    inv_exited : existsb isExited (workers s) = true -> inputClosed s = true;
    inv_result : resultClosed s = true -> forallb isExited (workers s) = true
  }.

(** The weight of a state; every step makes it smaller. *)
Definition workerWeight (w : worker) : nat :=
  match w with
  | Exited => 0
  | Idle => 1
  | Ready _ => 2
  | Busy _ => 3
  end.

Definition weight (s : state) : nat :=
  3 * List.length (todo s)
  + list_sum (map workerWeight (workers s))
  + (if inputClosed s then 0 else 1)
  + (if resultClosed s then 0 else 1)
  + (if crashed s then 0 else 1).

(** The run of the end-to-end example: the two inputs with the default
    port 443, and a schedule of one worker that serves the five targets one
    after the other (every dial failing) and shuts the pool down. *)
Definition exampleInputs : list string := ["10.0.0.0/30"; "example.com:8443"].

Definition exampleProgram : list event :=
  [SendInput "10.0.0.0:443"; SendInput "10.0.0.1:443"; SendInput "10.0.0.2:443";
   SendInput "10.0.0.3:443"; SendInput "example.com:8443"].

Definition serveOne : list action :=
  [Feed 0; Grab 0 [] (Some (DialError "connection refused")); Emit 0].

Definition exampleSchedule : list action :=
  (serveOne ++ serveOne ++ serveOne ++ serveOne ++ serveOne
   ++ [CloseInput; Exit 0; CloseResult])%list.

End Pipeline.

(** ** The program: grabCert

    The TLS dial is not part of the model: its outcome is given, the error
    of tls.DialWithDialer or the common name and the DNS names of the
    first certificate of the peer. *)

Module Grab.
Import Bytes Domain Expand Pipeline.

Inductive dialOutcome :=
| DialFailed (e : failure)
| Connected (commonName : string) (dnsNames : list string).

(** [onlyValidDomainNames && isDomainName(name) || !onlyValidDomainNames];
    isDomainName is called only when the flag is set. *)
Definition keepName (onlyValidDomainNames : bool) (name : string) : option bool :=
  if onlyValidDomainNames then isDomainName name else Some true.

(** The loop over cert.DNSNames, appending to [names]. *)
Fixpoint appendSANs (onlyValidDomainNames : bool) (commonName : string)
    (dnsNames names : list string) : option (list string) :=
  match dnsNames with
  | [] => Some names
  | name :: rest =>
      if negb (String.eqb name commonName) then
        match keepName onlyValidDomainNames name with
        | None => None
        | Some true =>
            appendSANs onlyValidDomainNames commonName rest (names ++ [name])%list
        | Some false => appendSANs onlyValidDomainNames commonName rest names
        end
      else appendSANs onlyValidDomainNames commonName rest names
  end.

(** grabCert: the names and the error that it returns; [None] is a
    panic. *)
Definition grabCert (dial : dialOutcome) (onlyValidDomainNames : bool)
  : option (list string * option failure) :=
  match dial with
  | DialFailed e => Some ([], Some e)
  | Connected commonName dnsNames =>
      match keepName onlyValidDomainNames commonName with
      | None => None
      | Some keep =>
          let names := if keep then [commonName] else [] in
          match appendSANs onlyValidDomainNames commonName dnsNames names with
          | None => None
          | Some names' => Some (names', None)
          end
      end
  end.

End Grab.

(** * Properties *)

Section DomainFacts.
Import Bytes Domain.

Lemma get_in_range (s : string) (i : nat) :
  (i < String.length s)%nat -> exists c, String.get i s = Some c.
Proof.
  revert i; induction s as [|d s IH]; intros i Hi; simpl in *.
  - lia.
  - destruct i as [|i]; [eauto|]. apply IH. lia.
Qed.

Lemma scanFrom_total (k : nat) (s : string) :
  forall i st, (i + k = String.length s)%nat ->
    exists r, scanFrom k s i st = Some r.
Proof.
  induction k as [|k IH]; intros i st Hlen; simpl.
  - eauto.
  - destruct (get_in_range s i) as [c Hc]; [lia|].
    rewrite Hc. destruct (scanByte st c) as [b|st'].
    + eauto.
    + apply IH. lia.
Qed.

(** C8. isDomainName is a total predicate on strings: on every input it
    returns a boolean and no index it reads is out of range (the model has
    no state besides its locals); and it accepts "test.com.ru" and rejects
    "test", "test-.com" and "127.0.0.1". *)
Theorem isDomainName_total_and_examples :
  (forall s : string, exists b : bool, isDomainName s = Some b)
  /\ isDomainName "test.com.ru" = Some true
  /\ isDomainName "test" = Some false
  /\ isDomainName "test-.com" = Some false
  /\ isDomainName "127.0.0.1" = Some false.
Proof.
  split; [|repeat split; reflexivity].
  intros s. unfold isDomainName.
  set (l := String.length s).
  destruct (l =? 0)%nat eqn:E0; [eauto|].
  destruct (254 <? l)%nat eqn:E1; [eauto|].
  assert (Hscan : exists r, scanFrom l s 0 (mkScan "." false 0 0) = Some r)
    by (apply scanFrom_total; reflexivity).
  destruct Hscan as [r Hr].
  assert (Htail :
    exists b, match scanFrom l s 0 (mkScan "." false 0 0) with
              | None => None
              | Some (inl b) => Some b
              | Some (inr st) =>
                  if Ascii.eqb (last st) "-" || (63 <? partlen st)%nat
                  then Some false
                  else Some (nonNumeric st
                             && ((1 <? parts st)%nat
                                 || ((0 <? parts st)%nat
                                     && negb (Ascii.eqb (last st) "."))))
              end = Some b).
  { rewrite Hr. destruct r as [b|st]; [eauto|].
    destruct (Ascii.eqb (last st) "-" || (63 <? partlen st)%nat); eauto. }
  destruct (l =? 254)%nat eqn:E2; [|exact Htail].
  apply Nat.eqb_neq in E0.
  destruct (get_in_range s (l - 1)) as [c Hc]; [unfold l in *; lia|].
  rewrite Hc. destruct (negb (Ascii.eqb c ".")); [eauto|exact Htail].
Qed.

End DomainFacts.

(** ** splitHostPort *)

Section SplitFacts.
Import Bytes Net NetMask GoStrings Regexp Cero.

Lemma isDigit_not_LF (c : ascii) : isDigit c = true -> Ascii.eqb c LF = false.
Proof.
  intros H. destruct (Ascii.eqb c LF) eqn:E; [|reflexivity].
  apply Ascii.eqb_eq in E. subst c. discriminate H.
Qed.

Lemma isDigit_not_colon (c : ascii) : isDigit c = true -> Ascii.eqb c ":" = false.
Proof.
  intros H. destruct (Ascii.eqb c ":") eqn:E; [|reflexivity].
  apply Ascii.eqb_eq in E. subst c. discriminate H.
Qed.

Lemma digits_no_LF (d : string) :
  allBytes isDigit d = true -> containsByte LF d = false.
Proof.
  induction d as [|c d IH]; simpl; [reflexivity|].
  intros H. apply andb_true_iff in H. destruct H as [Hc Hd].
  rewrite (isDigit_not_LF c Hc). simpl. auto.
Qed.

Lemma allBytes_app (p : ascii -> bool) (a b : string) :
  allBytes p (a ++ b) = allBytes p a && allBytes p b.
Proof.
  induction a as [|c a IH]; simpl; [reflexivity|].
  rewrite IH. apply andb_assoc.
Qed.

Lemma containsByte_app (c : ascii) (a b : string) :
  containsByte c (a ++ b) = containsByte c a || containsByte c b.
Proof.
  induction a as [|d a IH]; simpl; [reflexivity|].
  rewrite IH. apply orb_assoc.
Qed.

Lemma allBytes_lastByte (p : ascii -> bool) (s : string) (d : ascii) :
  allBytes p s = true -> lastByte s = Some d -> p d = true.
Proof.
  induction s as [|c s IH]; simpl; [discriminate|].
  intros H L. apply andb_true_iff in H. destruct H as [Hc Hs].
  destruct s as [|c' s'].
  - injection L as <-. exact Hc.
  - apply IH; assumption.
Qed.

Lemma lastByte_app_one (s : string) (c : ascii) :
  lastByte (s ++ String c "") = Some c.
Proof.
  induction s as [|d s IH]; simpl; [reflexivity|].
  destruct (s ++ String c "") eqn:E; [|exact IH].
  destruct s; discriminate E.
Qed.

Lemma portTail_digits (s port : string) :
  portTail s = Some port -> allBytes isDigit port = true.
Proof.
  destruct s as [|c d]; simpl.
  - intros [= <-]. reflexivity.
  - destruct (Ascii.eqb c ":"); [|discriminate].
    destruct d as [|c' d']; [discriminate|].
    destruct (allBytes isDigit (String c' d')) eqn:E; [|discriminate].
    intros [= <-]. exact E.
Qed.

Lemma portRegexp_port_digits (s host port : string) :
  portRegexp_FindStringSubmatch s = Some (host, port) ->
  allBytes isDigit port = true.
Proof.
  revert host port. induction s as [|c s IH]; intros host port; simpl.
  - intros [= _ <-]. reflexivity.
  - destruct (Ascii.eqb c ":") eqn:Ec.
    + destruct s as [|c' s'].
      * destruct (Ascii.eqb c LF); [discriminate|].
        simpl. intros [= _ <-]. reflexivity.
      * destruct (allBytes isDigit (String c' s')) eqn:Ed.
        -- intros [= _ <-]. exact Ed.
        -- destruct (Ascii.eqb c LF); [discriminate|].
           destruct (portRegexp_FindStringSubmatch (String c' s'))
             as [[h p]|] eqn:Er; [|discriminate].
           intros [= _ <-]. eapply IH. reflexivity.
    + destruct (Ascii.eqb c LF); [discriminate|].
      destruct (portRegexp_FindStringSubmatch s) as [[h p]|] eqn:Er;
        [|discriminate].
      intros [= _ <-]. eapply IH. reflexivity.
Qed.

(** The text matches the port pattern exactly when it has no line feed. *)
Lemma portRegexp_nil_iff (s : string) :
  portRegexp_FindStringSubmatch s = None <-> containsByte LF s = true.
Proof.
  induction s as [|c s IH].
  - simpl. split; discriminate.
  - change (portRegexp_FindStringSubmatch (String c s)) with
      (match portTail (String c s) with
       | Some port => Some (EmptyString, port)
       | None =>
           if Ascii.eqb c LF then None
           else match portRegexp_FindStringSubmatch s with
                | Some (host, port) => Some (String c host, port)
                | None => None
                end
       end).
    destruct (portTail (String c s)) as [port|] eqn:Et.
    + split; [discriminate|]. intros H. exfalso.
      simpl in Et. destruct (Ascii.eqb c ":") eqn:Ec; [|discriminate].
      apply Ascii.eqb_eq in Ec. subst c.
      destruct s as [|c' s']; [discriminate|].
      destruct (allBytes isDigit (String c' s')) eqn:Ed; [|discriminate].
      apply digits_no_LF in Ed. simpl in H. simpl in Ed. rewrite Ed in H.
      discriminate H.
    + simpl containsByte. destruct (Ascii.eqb c LF) eqn:El.
      * split; reflexivity.
      * simpl. rewrite <- IH.
        destruct (portRegexp_FindStringSubmatch s) as [[h p]|];
          split; (discriminate || reflexivity).
Qed.

(** On a text without line feed splitHostPort returns a pair. *)
Lemma splitHostPort_returns (addr : string) :
  containsByte LF addr = false ->
  exists host port, splitHostPort addr = Some (host, port).
Proof.
  intros H. unfold splitHostPort.
  destruct (portRegexp_FindStringSubmatch addr) as [[h p]|] eqn:E.
  - destruct (containsByte ":" h && bracketRegexp_MatchString h); [eauto|].
    destruct (String.length p =? 0)%nat; [eauto|].
    destruct (isCIDR h); [eauto|].
    destruct (containsByte ":" h); [|eauto].
    destruct (4 <? String.length p)%nat; [eauto|].
    destruct (ParseIP (h ++ ":" ++ p)); eauto.
  - apply portRegexp_nil_iff in E. congruence.
Qed.

Lemma splitHostPort_panics_iff (addr : string) :
  splitHostPort addr = None <-> containsByte LF addr = true.
Proof.
  split.
  - intros H. destruct (containsByte LF addr) eqn:E; [reflexivity|].
    destruct (splitHostPort_returns addr E) as (h & p & Hhp). congruence.
  - intros H. unfold splitHostPort.
    apply portRegexp_nil_iff in H. rewrite H. reflexivity.
Qed.

(** C3. The two ambiguous IPv6 inputs: nine groups are split into the
    eight-group host and the port "80"; eight groups, the last one "80",
    parse as an IPv6 address and are returned whole with no port. *)
Theorem splitHostPort_ipv6_ambiguity :
  splitHostPort "1:1:1:1:1:1:1:1:80" = Some ("1:1:1:1:1:1:1:1", "80")
  /\ splitHostPort "1:1:1:1:1:1:1:80" = Some ("1:1:1:1:1:1:1:80", "")
  /\ ParseIP "1:1:1:1:1:1:1:1:80" = None
  /\ ParseIP "1:1:1:1:1:1:1:80" = Some [0; 1; 0; 1; 0; 1; 0; 1; 0; 1; 0; 1; 0; 1; 0; 128]%Z.
Proof.
  repeat split; vm_compute; reflexivity.
Qed.

(** C4, at the input on which it fails.  The empty text gives the pair of
    empty strings, but a text with a line feed does not match portRegexp:
    FindStringSubmatch returns nil and the indexing [portMatch[1]] panics. *)
Theorem splitHostPort_line_feed_panics :
  splitHostPort "" = Some ("", "")
  /\ portRegexp_FindStringSubmatch (String "a" (String LF "b")) = None
  /\ splitHostPort (String "a" (String LF "b")) = None.
Proof.
  repeat split; vm_compute; reflexivity.
Qed.

(** C10. Whatever splitHostPort returns, its port is made of ASCII digits
    only: it is empty or a non-empty run of digits. *)
Theorem splitHostPort_port_digits (addr host port : string) :
  splitHostPort addr = Some (host, port) ->
  port = "" \/ (port <> "" /\ allBytes isDigit port = true).
Proof.
  intros H.
  assert (D : allBytes isDigit port = true).
  { unfold splitHostPort in H.
    destruct (portRegexp_FindStringSubmatch addr) as [[h p]|] eqn:E;
      [|discriminate].
    apply portRegexp_port_digits in E.
    destruct (containsByte ":" h && bracketRegexp_MatchString h);
      [injection H as _ <-; exact E|].
    destruct (String.length p =? 0)%nat; [injection H as _ <-; exact E|].
    destruct (isCIDR h); [injection H as _ <-; exact E|].
    destruct (containsByte ":" h); [|injection H as _ <-; exact E].
    destruct (4 <? String.length p)%nat; [injection H as _ <-; exact E|].
    destruct (ParseIP (h ++ ":" ++ p)); injection H as _ <-;
      [reflexivity|exact E]. }
  destruct port as [|c port']; [left; reflexivity|].
  right. split; [discriminate|exact D].
Qed.

Lemma splitHostPort_port_digits_witness :
  splitHostPort "[::1]:443" = Some ("::1", "443")
  /\ ("443" = "" \/ ("443" <> "" /\ allBytes isDigit "443" = true)).
Proof.
  split; [reflexivity|].
  apply (splitHostPort_port_digits "[::1]:443" "::1" "443"). reflexivity.
Defined.

End SplitFacts.

Section BracketFacts.
Import Bytes Net NetMask GoStrings Regexp Cero.

Lemma portTail_before_colon (c : ascii) (x p : string) :
  portTail (String c (x ++ ":" ++ p)) = None.
Proof.
  simpl. destruct (Ascii.eqb c ":"); [|reflexivity].
  destruct (x ++ String ":" p) eqn:E; [reflexivity|].
  rewrite <- E. rewrite allBytes_app. simpl.
  rewrite andb_false_r. reflexivity.
Qed.

Lemma portRegexp_with_port (h p : string) :
  containsByte LF h = false -> p <> "" -> allBytes isDigit p = true ->
  portRegexp_FindStringSubmatch (h ++ ":" ++ p) = Some (h, p).
Proof.
  intros Hlf Hp Hd. induction h as [|c h IH].
  - simpl. destruct p as [|c' p']; [contradiction|].
    simpl in Hd. simpl. rewrite Hd. reflexivity.
  - simpl in Hlf. apply orb_false_iff in Hlf. destruct Hlf as [Hc Hh].
    change ((String c h ++ ":" ++ p)) with (String c (h ++ ":" ++ p)).
    change (portRegexp_FindStringSubmatch (String c (h ++ ":" ++ p))) with
      (match portTail (String c (h ++ ":" ++ p)) with
       | Some port => Some (EmptyString, port)
       | None =>
           if Ascii.eqb c LF then None
           else match portRegexp_FindStringSubmatch (h ++ ":" ++ p) with
                | Some (host, port) => Some (String c host, port)
                | None => None
                end
       end).
    rewrite portTail_before_colon, Hc, (IH Hh). reflexivity.
Qed.

Lemma lastByte_nonempty (c : ascii) (s : string) :
  exists d, lastByte (String c s) = Some d.
Proof.
  revert c. induction s as [|b s IH]; intros c.
  - exists c. reflexivity.
  - destruct (IH b) as [d Hd]. exists d. exact Hd.
Qed.

Lemma portRegexp_without_port (h : string) :
  containsByte LF h = false ->
  (forall d, lastByte h = Some d -> isDigit d = false) ->
  portRegexp_FindStringSubmatch h = Some (h, "").
Proof.
  induction h as [|c h IH]; intros Hlf Hlast.
  - reflexivity.
  - simpl in Hlf. apply orb_false_iff in Hlf. destruct Hlf as [Hc Hh].
    assert (Htail : portTail (String c h) = None).
    { simpl. destruct (Ascii.eqb c ":"); [|reflexivity].
      destruct h as [|c' h']; [reflexivity|].
      destruct (allBytes isDigit (String c' h')) eqn:Ed; [|reflexivity].
      destruct (lastByte (String c' h')) as [d|] eqn:El.
      - pose proof (allBytes_lastByte _ _ _ Ed El) as Hd.
        rewrite (Hlast d) in Hd; [discriminate|]. exact El.
      - destruct (lastByte_nonempty c' h') as [d Hd]. congruence. }
    change (portRegexp_FindStringSubmatch (String c h)) with
      (match portTail (String c h) with
       | Some port => Some (EmptyString, port)
       | None =>
           if Ascii.eqb c LF then None
           else match portRegexp_FindStringSubmatch h with
                | Some (host, port) => Some (String c host, port)
                | None => None
                end
       end).
    rewrite Htail, Hc, IH; [reflexivity|exact Hh|].
    intros d Hd. apply Hlast. destruct h; [discriminate|exact Hd].
Qed.

Lemma string_app_assoc (a b c : string) : (a ++ b) ++ c = a ++ (b ++ c).
Proof.
  induction a as [|d a IH]; simpl; [reflexivity|]. rewrite IH. reflexivity.
Qed.

Lemma rev_app_one (s : string) (c : ascii) :
  rev (s ++ String c "") = String c (rev s).
Proof.
  induction s as [|d s IH]; simpl; [reflexivity|].
  rewrite IH. reflexivity.
Qed.

Lemma length_app_one (s : string) (c : ascii) :
  String.length (s ++ String c "") = S (String.length s).
Proof.
  induction s as [|d s IH]; simpl; [reflexivity|]. rewrite IH. reflexivity.
Qed.

Lemma take_app_exact (s t : string) : take (String.length s) (s ++ t) = s.
Proof.
  induction s as [|d s IH]; simpl.
  - destruct t; reflexivity.
  - rewrite IH. reflexivity.
Qed.

Lemma unbracket (v6 : string) :
  TrimSuffix (TrimPrefix ("[" ++ v6 ++ "]") "[") "]" = v6.
Proof.
  unfold TrimPrefix. simpl.
  unfold TrimSuffix, hasSuffix. rewrite rev_app_one. simpl.
  rewrite length_app_one. simpl. rewrite Nat.sub_0_r.
  apply take_app_exact.
Qed.

Lemma bracketRegexp_bracketed (v6 : string) :
  containsByte LF v6 = false ->
  bracketRegexp_MatchString ("[" ++ v6 ++ "]") = true.
Proof.
  intros H. simpl. rewrite lastByte_app_one. simpl.
  rewrite containsByte_app, H. reflexivity.
Qed.

(** On a bracketed address without line feed splitHostPort strips the
    brackets and keeps the port, if any. *)
Lemma splitHostPort_bracketed (v6 p : string) :
  containsByte ":" v6 = true -> containsByte LF v6 = false ->
  p <> "" -> allBytes isDigit p = true ->
  splitHostPort ("[" ++ v6 ++ "]:" ++ p) = Some (v6, p)
  /\ splitHostPort ("[" ++ v6 ++ "]") = Some (v6, "").
Proof.
  intros Hcolon Hlf Hp Hd.
  assert (Hlf' : containsByte LF ("[" ++ v6 ++ "]") = false).
  { simpl. rewrite containsByte_app, Hlf. reflexivity. }
  assert (Hc' : containsByte ":" ("[" ++ v6 ++ "]") = true).
  { simpl. rewrite containsByte_app, Hcolon. reflexivity. }
  split.
  - unfold splitHostPort.
    replace ("[" ++ v6 ++ "]:" ++ p) with (("[" ++ v6 ++ "]") ++ ":" ++ p).
    2:{ simpl. f_equal. rewrite string_app_assoc. reflexivity. }
    rewrite (portRegexp_with_port _ p Hlf' Hp Hd).
    rewrite Hc', (bracketRegexp_bracketed v6 Hlf). simpl andb. cbv iota.
    rewrite unbracket. reflexivity.
  - unfold splitHostPort.
    rewrite (portRegexp_without_port _ Hlf').
    + rewrite Hc', (bracketRegexp_bracketed v6 Hlf). simpl andb. cbv iota.
      rewrite unbracket. reflexivity.
    + intros d Hlast. simpl in Hlast.
      assert (E : lastByte (String "[" (v6 ++ "]")) = Some "]"%char).
      { change (String "[" (v6 ++ "]")) with (("[" ++ v6) ++ "]").
        apply lastByte_app_one. }
      simpl in E. rewrite E in Hlast. injection Hlast as <-. reflexivity.
Qed.

(** C9, at an input on which it fails.  The bracketed text [":\n"] has a
    colon and the port "1" is all digits, but the line feed keeps
    portRegexp from matching and splitHostPort panics, for the same reason
    as on every text with a line feed. *)
Theorem splitHostPort_bracketed_line_feed_panics :
  let v6 := String ":" (String LF "") in
  containsByte ":" v6 = true
  /\ allBytes isDigit "1" = true
  /\ splitHostPort ("[" ++ v6 ++ "]:" ++ "1") = None
  /\ splitHostPort ("[" ++ v6 ++ "]") = None.
Proof.
  repeat split; vm_compute; reflexivity.
Qed.

End BracketFacts.

(** ** ParseCIDR and the masks *)

Section MaskFacts.
Import Bytes Net NetMask.

(** A boolean property checked on [0 .. hi] holds on that range. *)
Lemma forall_upto (P : Z -> bool) (hi : nat) :
  forallb (fun k => P (Z.of_nat k)) (seq 0 (S hi)) = true ->
  forall n, (0 <= n <= Z.of_nat hi)%Z -> P n = true.
Proof.
  intros H n Hn. rewrite forallb_forall in H.
  specialize (H (Z.to_nat n)). rewrite Z2Nat.id in H by lia.
  apply H. apply in_seq. lia.
Qed.

Lemma pairEqb_eq (a b : Z * Z) : pairEqb a b = true -> a = b.
Proof.
  destruct a, b. unfold pairEqb. simpl. intros H.
  apply andb_true_iff in H. destruct H as [H1 H2].
  apply Z.eqb_eq in H1, H2. congruence.
Qed.

(** IPMask.Size gives back the arguments of CIDRMask. *)
Lemma Size_cidrMask4 (n : Z) :
  (0 <= n <= 32)%Z -> Size (cidrMaskLoop 4 n) = (n, 32%Z).
Proof.
  intros Hn. apply pairEqb_eq.
  apply (forall_upto (fun n => pairEqb (Size (cidrMaskLoop 4 n)) (n, 32%Z)) 32);
    [vm_compute; reflexivity|exact Hn].
Qed.

Lemma Size_cidrMask16 (n : Z) :
  (0 <= n <= 128)%Z -> Size (cidrMaskLoop 16 n) = (n, 128%Z).
Proof.
  intros Hn. apply pairEqb_eq.
  apply (forall_upto (fun n => pairEqb (Size (cidrMaskLoop 16 n)) (n, 128%Z)) 128);
    [vm_compute; reflexivity|exact Hn].
Qed.

Lemma upd_length (i : nat) (v : Z) (ip : list Z) :
  List.length (upd i v ip) = List.length ip.
Proof.
  revert i. induction ip as [|h t IH]; intros i; destruct i; simpl;
    try reflexivity.
  rewrite IH. reflexivity.
Qed.

Lemma shiftUp_length (k e n : nat) (ip : list Z) :
  List.length (shiftUp k e n ip) = List.length ip.
Proof.
  revert ip. induction k as [|k IH]; intros ip; simpl; [reflexivity|].
  rewrite IH. apply upd_length.
Qed.

Lemma zeroFill_length (k e : nat) (ip : list Z) :
  List.length (zeroFill k e ip) = List.length ip.
Proof.
  revert ip. induction k as [|k IH]; intros ip; simpl; [reflexivity|].
  rewrite IH. apply upd_length.
Qed.

Lemma parseIPv6Round_length (s : string) (i : nat) (e : option nat) (ip : list Z) :
  match parseIPv6Round s i e ip with
  | V6fail => True
  | V6break _ _ _ ip' | V6next _ _ _ ip' => List.length ip' = List.length ip
  end.
Proof.
  unfold parseIPv6Round.
  destruct (xtoi s) as [[n c] ok].
  destruct (negb ok || (65535 <? n)%Z); [exact I|].
  destruct (match String.get c s with
            | Some d => Ascii.eqb d "."
            | None => false
            end).
  - destruct ((match e with None => true | Some _ => false end)
              && negb (i =? IPv6len - IPv4len)%nat); [exact I|].
    destruct (IPv6len <? i + IPv4len)%nat; [exact I|].
    destruct (parseIPv4 s); [|exact I].
    rewrite !upd_length. reflexivity.
  - destruct (drop c s) as [|c0 [|c1 s2]]; [| exact I |].
    + rewrite !upd_length. reflexivity.
    + destruct (negb (Ascii.eqb c0 ":")); [exact I|].
      destruct (Ascii.eqb c1 ":").
      * destruct e; [exact I|]. destruct s2; rewrite !upd_length; reflexivity.
      * rewrite !upd_length. reflexivity.
Qed.

Lemma parseIPv6Loop_length (k : nat) :
  forall s i e ip s' i' e' ip',
    parseIPv6Loop k s i e ip = Some (s', i', e', ip') ->
    List.length ip' = List.length ip.
Proof.
  induction k as [|k IH]; intros s i e ip s' i' e' ip'; simpl.
  - destruct (i <? IPv6len)%nat; [discriminate|].
    intros [= _ _ _ <-]. reflexivity.
  - destruct (i <? IPv6len)%nat.
    + pose proof (parseIPv6Round_length s i e ip) as R.
      destruct (parseIPv6Round s i e ip) as [|s1 i1 e1 ip1|s1 i1 e1 ip1].
      * discriminate.
      * intros [= _ _ _ <-]. exact R.
      * intros H. apply IH in H. congruence.
    + intros [= _ _ _ <-]. reflexivity.
Qed.

Lemma parseIPv6_length (s : string) (ip : IP) :
  parseIPv6 s = Some ip -> List.length ip = 16%nat.
Proof.
  unfold parseIPv6.
  set (start := match s with
                | String ":" (String ":" s') => (Some O, s')
                | _ => (None, s)
                end).
  destruct start as [e0 s0].
  assert (Hmain :
    match parseIPv6Loop 8 s0 0 e0 (repeat 0%Z IPv6len) with
    | Some (s1, i, ellipsis, ip0) =>
        match s1 with
        | "" =>
            if (i <? IPv6len)%nat
            then
              match ellipsis with
              | Some e =>
                  Some (zeroFill (IPv6len - i) e
                          (shiftUp (i - e) e (IPv6len - i) ip0))
              | None => None
              end
            else match ellipsis with
                 | Some _ => None
                 | None => Some ip0
                 end
        | String _ _ => None
        end
    | None => None
    end = Some ip -> List.length ip = 16%nat).
  { destruct (parseIPv6Loop 8 s0 0 e0 (repeat 0%Z IPv6len))
      as [[[[s1 i] e1] ip1]|] eqn:E; [|discriminate].
    apply parseIPv6Loop_length in E. simpl in E.
    destruct s1; [|discriminate].
    destruct (i <? IPv6len)%nat.
    - destruct e1; [|discriminate]. intros [= <-].
      rewrite zeroFill_length, shiftUp_length. exact E.
    - destruct e1; [discriminate|]. intros [= <-]. exact E. }
  destruct e0 as [e0|]; [|exact Hmain].
  destruct s0; [|exact Hmain].
  intros [= <-]. reflexivity.
Qed.

Lemma parseIPv4_shape (s : string) (ip : IP) :
  parseIPv4 s = Some ip -> exists a b c d, ip = IPv4 a b c d.
Proof.
  unfold parseIPv4.
  destruct (parseIPv4Loop IPv4len 0 s []) as [[r p]|]; [|discriminate].
  destruct r; [|discriminate].
  destruct p as [|a [|b [|c [|d [|? ?]]]]]; try discriminate.
  intros [= <-]. eauto.
Qed.

Lemma cidrMaskLoop_length (l : nat) (n : Z) :
  List.length (cidrMaskLoop l n) = l.
Proof.
  revert n. induction l as [|l IH]; intros n; simpl; [reflexivity|].
  destruct (8 <=? n)%Z; simpl; rewrite IH; reflexivity.
Qed.

Lemma andBytes_length (x m : list Z) :
  List.length x = List.length m -> List.length (andBytes x m) = List.length m.
Proof.
  revert m. induction x as [|a x IH]; intros [|b m]; simpl; try discriminate;
    [reflexivity|].
  intros [= H]. rewrite (IH m H). reflexivity.
Qed.

Lemma Mask_v4 (a b c d : Z) (m : IPMask) :
  List.length m = 4%nat ->
  Mask (IPv4 a b c d) m = Some (andBytes [a; b; c; d] m).
Proof.
  intros H. unfold Mask. rewrite H. simpl. rewrite ?H. reflexivity.
Qed.

Lemma Mask_v6 (ip : IP) (m : IPMask) :
  List.length ip = 16%nat -> List.length m = 16%nat ->
  Mask ip m = Some (andBytes ip m).
Proof.
  intros Hip Hm. unfold Mask, IPv4len, IPv6len. rewrite Hip, Hm.
  change (16 =? 4)%nat with false. change (16 =? 16)%nat with true.
  cbn [andb]. rewrite Hm. change (16 =? 4)%nat with false. cbn [andb].
  rewrite Hip. reflexivity.
Qed.

(** What ParseCIDR returns: the mask is CIDRMask of the prefix length [n]
    that the text gives after the slash, and the network address is the
    parsed address under that mask, of four or of sixteen bytes. *)
Lemma ParseCIDR_shape (s : string) (ip : IP) (ipnet : IPNet) :
  ParseCIDR s = Some (ip, ipnet) ->
  exists i n x,
    indexByte s "/" = Some i
    /\ dtoi (drop (S i) s) = (n, String.length (drop (S i) s), true)
    /\ netIP ipnet = andBytes x (netMask ipnet)
    /\ ((parseIPv4 (take i s) <> None /\ (0 <= n <= 32)%Z
         /\ List.length x = 4%nat /\ netMask ipnet = cidrMaskLoop 4 n)
        \/ (parseIPv4 (take i s) = None /\ parseIPv6 (take i s) <> None
            /\ (0 <= n <= 128)%Z
            /\ List.length x = 16%nat /\ netMask ipnet = cidrMaskLoop 16 n)).
Proof.
  unfold ParseCIDR.
  destruct (indexByte s "/") as [i|]; [|discriminate].
  destruct (dtoi (drop (S i) s)) as [[n j] ok] eqn:Ed.
  destruct (parseIPv4 (take i s)) as [ip4|] eqn:E4.
  - destruct (negb ok || negb (j =? String.length (drop (S i) s))%nat
              || (n <? 0)%Z || (8 * Z.of_nat IPv4len <? n)%Z) eqn:Ec;
      [discriminate|].
    apply orb_false_iff in Ec. destruct Ec as [Ec Hhi].
    apply orb_false_iff in Ec. destruct Ec as [Ec Hlo].
    apply orb_false_iff in Ec. destruct Ec as [Hok Hj].
    apply negb_false_iff in Hok, Hj. apply Nat.eqb_eq in Hj.
    apply Z.ltb_ge in Hhi, Hlo. subst ok j.
    change (8 * Z.of_nat IPv4len)%Z with 32%Z in *.
    unfold CIDRMask. simpl negb. cbv iota. simpl andb. cbv iota.
    destruct ((n <? 0)%Z || (32 <? n)%Z); [discriminate|].
    change (Z.to_nat (32 / 8)) with 4%nat.
    destruct (parseIPv4_shape _ _ E4) as (a & b & c & d & ->).
    pose proof (cidrMaskLoop_length 4 n) as Lm.
    remember (cidrMaskLoop 4 n) as m eqn:Em.
    rewrite Mask_v4 by exact Lm.
    intros [= <- <-]. exists i, n, [a; b; c; d]. cbn [netIP netMask].
    split; [reflexivity|]. split; [exact Ed|]. split; [reflexivity|].
    left. split; [rewrite E4; discriminate|]. split; [lia|].
    split; [reflexivity|exact Em].
  - destruct (parseIPv6 (take i s)) as [ip6|] eqn:E6; [|discriminate].
    destruct (negb ok || negb (j =? String.length (drop (S i) s))%nat
              || (n <? 0)%Z || (8 * Z.of_nat IPv6len <? n)%Z) eqn:Ec;
      [discriminate|].
    apply orb_false_iff in Ec. destruct Ec as [Ec Hhi].
    apply orb_false_iff in Ec. destruct Ec as [Ec Hlo].
    apply orb_false_iff in Ec. destruct Ec as [Hok Hj].
    apply negb_false_iff in Hok, Hj. apply Nat.eqb_eq in Hj.
    apply Z.ltb_ge in Hhi, Hlo. subst ok j.
    change (8 * Z.of_nat IPv6len)%Z with 128%Z in *.
    unfold CIDRMask. simpl negb. cbv iota. simpl andb. cbv iota.
    destruct ((n <? 0)%Z || (128 <? n)%Z); [discriminate|].
    change (Z.to_nat (128 / 8)) with 16%nat.
    pose proof (parseIPv6_length _ _ E6) as L6.
    pose proof (cidrMaskLoop_length 16 n) as Lm.
    remember (cidrMaskLoop 16 n) as m eqn:Em.
    rewrite Mask_v6 by assumption.
    intros [= <- <-]. exists i, n, ip6. cbn [netIP netMask].
    split; [reflexivity|]. split; [exact Ed|]. split; [reflexivity|].
    right. split; [exact E4|]. split; [rewrite E6; discriminate|].
    split; [lia|]. split; [exact L6|exact Em].
Qed.

End MaskFacts.

(** ** expandCIDR: errors *)

Section ExpandErrors.
Import Bytes Net NetMask Literal Expand.

Lemma isDigit_value (c : ascii) :
  isDigit c = true -> (0 <= byteVal c - byteVal "0" <= 9)%Z.
Proof.
  unfold isDigit, between, le, byteVal. intros H.
  apply andb_true_iff in H. destruct H as [H1 H2].
  apply N.leb_le in H1, H2.
  change (code "0") with 48%N in *. change (code "9") with 57%N in H2. lia.
Qed.

Lemma dtoiLoop_nonneg (s : string) :
  forall n i, (0 <= n)%Z -> (0 <= fst (fst (dtoiLoop s n i)))%Z.
Proof.
  induction s as [|c s IH]; intros n i Hn; simpl.
  - destruct (i =? 0)%nat; simpl; lia.
  - destruct (isDigit c) eqn:Ec.
    + destruct (big <=? n * 10 + (byteVal c - byteVal "0"))%Z.
      * simpl. unfold big. lia.
      * apply IH. pose proof (isDigit_value c Ec). lia.
    + destruct (i =? 0)%nat; simpl; lia.
Qed.

Lemma dtoi_nonneg (s : string) (n : Z) (j : nat) (ok : bool) :
  dtoi s = (n, j, ok) -> (0 <= n)%Z.
Proof.
  intros H. pose proof (dtoiLoop_nonneg s 0 0 (Z.le_refl 0)) as P.
  unfold dtoi in H. rewrite H in P. exact P.
Qed.

(** ParseCIDR accepts exactly the well-formed literals, and its mask has
    the prefix length of the text. *)
Lemma ParseCIDR_classify (s : string) :
  match classify s with
  | Malformed => ParseCIDR s = None
  | V4 p =>
      (0 <= p <= 32)%Z
      /\ exists ip ipnet, ParseCIDR s = Some (ip, ipnet)
                          /\ netMask ipnet = cidrMaskLoop 4 p
  | V6 p =>
      (0 <= p <= 128)%Z
      /\ exists ip ipnet, ParseCIDR s = Some (ip, ipnet)
                          /\ netMask ipnet = cidrMaskLoop 16 p
  end.
Proof.
  unfold classify, ParseCIDR.
  destruct (indexByte s "/") as [i|]; [|reflexivity].
  destruct (dtoi (drop (S i) s)) as [[n j] ok] eqn:Ed.
  pose proof (dtoi_nonneg _ _ _ _ Ed) as Hn.
  assert (Hneg : (n <? 0)%Z = false) by (apply Z.ltb_ge; exact Hn).
  destruct (parseIPv4 (take i s)) as [ip4|] eqn:E4.
  - change (8 * Z.of_nat IPv4len)%Z with 32%Z.
    destruct ok; cbn [andb negb orb]; [|reflexivity].
    destruct (j =? String.length (drop (S i) s))%nat; cbn [andb negb orb];
      [|reflexivity].
    rewrite Hneg. cbn [orb]. rewrite Z.ltb_antisym.
    destruct (n <=? 32)%Z eqn:E32; cbn [negb]; [|reflexivity].
    apply Z.leb_le in E32. split; [lia|].
    unfold CIDRMask. change (32 =? 32)%Z with true. cbn [andb negb].
    rewrite Hneg. rewrite Z.ltb_antisym, (proj2 (Z.leb_le n 32) E32).
    cbn [negb orb]. change (Z.to_nat (32 / 8)) with 4%nat.
    destruct (parseIPv4_shape _ _ E4) as (a & b & c & d & ->).
    pose proof (cidrMaskLoop_length 4 n) as Lm.
    remember (cidrMaskLoop 4 n) as m eqn:Em.
    rewrite Mask_v4 by exact Lm.
    eexists _, _. split; [reflexivity|]. cbn [netMask]. reflexivity.
  - change (8 * Z.of_nat IPv6len)%Z with 128%Z.
    destruct (parseIPv6 (take i s)) as [ip6|] eqn:E6.
    + destruct ok; cbn [andb negb orb]; [|reflexivity].
      destruct (j =? String.length (drop (S i) s))%nat; cbn [andb negb orb];
        [|reflexivity].
      rewrite Hneg. cbn [orb]. rewrite Z.ltb_antisym.
      destruct (n <=? 128)%Z eqn:E128; cbn [negb]; [|reflexivity].
      apply Z.leb_le in E128. split; [lia|].
      unfold CIDRMask. change (128 =? 32)%Z with false.
      change (128 =? 128)%Z with true. cbn [andb negb].
      rewrite Hneg. rewrite Z.ltb_antisym, (proj2 (Z.leb_le n 128) E128).
      cbn [negb orb]. change (Z.to_nat (128 / 8)) with 16%nat.
      pose proof (cidrMaskLoop_length 16 n) as Lm.
      pose proof (parseIPv6_length _ _ E6) as L6.
      remember (cidrMaskLoop 16 n) as m eqn:Em.
      rewrite Mask_v6 by assumption.
      eexists _, _. split; [reflexivity|]. cbn [netMask]. reflexivity.
    + destruct (ok && (j =? String.length (drop (S i) s))%nat); reflexivity.
Qed.

(** C2. expandCIDR fails with the parse error on every text that is not a
    well-formed CIDR literal and with the mask-range error on every IPv6
    literal whose prefix length is below 64; on every IPv4 literal (prefix
    0 to 32) and every IPv6 literal of prefix 64 to 128 it returns the
    channel, fed by the goroutine of its family. *)
Theorem expandCIDR_outcome (s : string) :
  match classify s with
  | Malformed => expandCIDR s = inl (ParseError s)
  | V4 p =>
      (0 <= p <= 32)%Z /\ exists ipnet, expandCIDR s = inr (Expand4 ipnet)
  | V6 p =>
      (0 <= p <= 128)%Z
      /\ if (p <? 64)%Z then expandCIDR s = inl (MaskRangeError s)
         else exists ipnet, expandCIDR s = inr (Expand6 ipnet)
  end.
Proof.
  pose proof (ParseCIDR_classify s) as H. unfold expandCIDR.
  destruct (classify s) as [|p|p].
  - rewrite H. reflexivity.
  - destruct H as (Hp & ip & ipnet & -> & Hm). split; [exact Hp|].
    rewrite Hm, (Size_cidrMask4 p Hp). simpl. eauto.
  - destruct H as (Hp & ip & ipnet & -> & Hm). split; [exact Hp|].
    rewrite Hm, (Size_cidrMask16 p Hp). simpl.
    destruct (p <? 64)%Z; eauto.
Qed.

End ExpandErrors.

(** ** expandCIDR: the counter loop *)

Section CounterLoop.
Import Bytes Net NetMask Literal Expand.

Lemma map_seq_shift {A : Type} (f : nat -> A) (n : nat) :
  map f (seq 1 n) = map (fun j => f (S j)) (seq 0 n).
Proof.
  rewrite <- seq_shift, map_map. reflexivity.
Qed.

Lemma complement_zero (w : Z) : (0 <= w)%Z -> complement w 0 = (2 ^ w - 1)%Z.
Proof.
  intros Hw. unfold complement. rewrite Z.lxor_0_l, Z.ones_equiv. lia.
Qed.

(** With the mask word zero the loop condition [mask <= ^0] never fails:
    the counter wraps around from [2^w - 1] to [0] and the loop goes on. *)
Lemma counterLoop_mask_zero (w ipW : Z) (fuel : nat) :
  (0 < w)%Z ->
  forall mask, (0 <= mask < 2 ^ w)%Z ->
    counterLoop w ipW 0 fuel mask
    = (map (fun j => Z.lxor ipW ((mask + Z.of_nat j) mod 2 ^ w)) (seq 0 fuel),
       false).
Proof.
  intros Hw. induction fuel as [|fuel IH]; intros mask Hm.
  - reflexivity.
  - cbn [counterLoop]. rewrite complement_zero by lia.
    replace (mask <=? 2 ^ w - 1)%Z with true by (symmetry; apply Z.leb_le; lia).
    assert (Hi : (0 <= incr w mask < 2 ^ w)%Z)
      by (unfold incr; apply Z.mod_pos_bound; lia).
    rewrite (IH _ Hi). cbn [seq map]. f_equal. f_equal.
    + rewrite Z.add_0_r, Z.mod_small by lia. reflexivity.
    + rewrite map_seq_shift. apply map_ext. intros j. f_equal.
      unfold incr. rewrite Zplus_mod_idemp_l. f_equal. lia.
Qed.

(** With [^maskW] below the largest word the loop sends the words
    [ipW ^ mask] for [mask] up to [^maskW] and then closes the channel. *)
Lemma counterLoop_bounded (w ipW maskW : Z) (fuel : nat) :
  (0 <= complement w maskW < 2 ^ w - 1)%Z ->
  forall mask, (0 <= mask <= complement w maskW + 1)%Z ->
    counterLoop w ipW maskW fuel mask
    = if (Z.of_nat fuel <=? complement w maskW + 1 - mask)%Z
      then (map (fun j => Z.lxor ipW (mask + Z.of_nat j)) (seq 0 fuel), false)
      else (map (fun j => Z.lxor ipW (mask + Z.of_nat j))
              (seq 0 (Z.to_nat (complement w maskW + 1 - mask))), true).
Proof.
  set (top := complement w maskW). intros Htop.
  induction fuel as [|fuel IH]; intros mask Hm.
  - cbn [counterLoop]. replace (Z.of_nat 0 <=? top + 1 - mask)%Z with true
      by (symmetry; apply Z.leb_le; lia). reflexivity.
  - cbn [counterLoop]. fold top.
    destruct (mask <=? top)%Z eqn:Ec.
    + apply Z.leb_le in Ec.
      assert (Hi : incr w mask = (mask + 1)%Z)
        by (unfold incr; apply Z.mod_small; lia).
      rewrite Hi, IH by lia.
      destruct (Z.of_nat fuel <=? top + 1 - (mask + 1))%Z eqn:Ef.
      * apply Z.leb_le in Ef.
        replace (Z.of_nat (S fuel) <=? top + 1 - mask)%Z with true
          by (symmetry; apply Z.leb_le; lia).
        cbn [seq map]. rewrite Z.add_0_r, map_seq_shift. f_equal. f_equal.
        apply map_ext. intros j. f_equal. lia.
      * apply Z.leb_gt in Ef.
        replace (Z.of_nat (S fuel) <=? top + 1 - mask)%Z with false
          by (symmetry; apply Z.leb_gt; lia).
        replace (Z.to_nat (top + 1 - mask))
          with (S (Z.to_nat (top + 1 - (mask + 1)))) by lia.
        cbn [seq map]. rewrite Z.add_0_r, map_seq_shift. f_equal. f_equal.
        apply map_ext. intros j. f_equal. lia.
    + apply Z.leb_gt in Ec.
      replace (Z.of_nat (S fuel) <=? top + 1 - mask)%Z with false
        by (symmetry; apply Z.leb_gt; lia).
      replace (top + 1 - mask)%Z with 0%Z by lia. reflexivity.
Qed.

Lemma nth_error_map_seq {A : Type} (f : nat -> A) (n i : nat) :
  (i < n)%nat -> nth_error (map f (seq 0 n)) i = Some (f i).
Proof.
  intros H. rewrite nth_error_map, nth_error_seq.
  apply Nat.ltb_lt in H. rewrite H. reflexivity.
Qed.

End CounterLoop.

Section WidestMasks.
Import Bytes Net NetMask Literal Expand.

Lemma run_wholeV4 (fuel : nat) :
  run (Expand4 wholeV4) fuel
  = Some (map (fun j => IPString (PutUint32 (Z.of_nat j mod 2 ^ 32)%Z))
            (seq 0 fuel), false).
Proof.
  unfold run, runBytes, wholeV4. cbn [netIP netMask Uint32].
  change (Z.lor (Z.lor (Z.lor 0 (Z.shiftl 0 8)) (Z.shiftl 0 16)) (Z.shiftl 0 24))
    with 0%Z.
  rewrite (counterLoop_mask_zero 32 0 fuel) by lia.
  rewrite !map_map. f_equal.
Qed.

Lemma run_wholeV6 (fuel : nat) :
  run (Expand6 wholeV6) fuel
  = Some (map (fun j => IPString (repeat 0%Z 8
                                  ++ PutUint64 (Z.of_nat j mod 2 ^ 64)%Z)%list)
            (seq 0 fuel), false).
Proof.
  unfold run, runBytes, wholeV6. cbn [netIP netMask].
  change (List.length (repeat 0%Z 16) <? 8)%nat with false.
  change (List.length (repeat 255%Z 8 ++ repeat 0%Z 8)%list <? 8)%nat with false.
  cbn [orb].
  change (Uint64 (skipn 8 (repeat 0%Z 16))) with (Some 0%Z).
  change (Uint64 (skipn 8 (repeat 255%Z 8 ++ repeat 0%Z 8)%list)) with (Some 0%Z).
  cbv beta iota.
  rewrite (counterLoop_mask_zero 64 0 fuel) by lia.
  change (firstn 8 (repeat 0%Z 16)) with (repeat 0%Z 8).
  rewrite !map_map. f_equal.
Qed.

(** C1, at the inputs on which it fails.  For the IPv4 prefix length 0 and
    the IPv6 prefix length 64 the mask word is zero, the loop condition
    [mask <= ^mask32] (or [^mask64]) holds for every value of the
    counter, and the goroutine never leaves the loop: whatever number of
    strings the receiver takes, it gets that many and the channel is still
    open. *)
Theorem expandCIDR_widest_masks_never_close :
  expandCIDR "0.0.0.0/0" = inr (Expand4 wholeV4)
  /\ expandCIDR "::/64" = inr (Expand6 wholeV6)
  /\ forall fuel : nat,
       (exists sent, run (Expand4 wholeV4) fuel = Some (sent, false)
                     /\ List.length sent = fuel)
       /\ (exists sent, run (Expand6 wholeV6) fuel = Some (sent, false)
                        /\ List.length sent = fuel).
Proof.
  split; [vm_compute; reflexivity|]. split; [vm_compute; reflexivity|].
  intros fuel. split.
  - eexists. split; [apply run_wholeV4|].
    rewrite length_map, length_seq. reflexivity.
  - eexists. split; [apply run_wholeV6|].
    rewrite length_map, length_seq. reflexivity.
Qed.

(** C7, at the input on which it fails.  In the expansion of "0.0.0.0/0"
    the string number 2^32 is "255.255.255.255" and the next one is
    "0.0.0.0": the counter has wrapped around and the order is broken.
    This is the defect of the loop condition of C1. *)
Theorem expandCIDR_whole_space_wraps_around :
  expandCIDR "0.0.0.0/0" = inr (Expand4 wholeV4)
  /\ exists sent,
       run (Expand4 wholeV4) (S (Z.to_nat 4294967296)) = Some (sent, false)
       /\ nth_error sent (Z.to_nat 4294967296 - 1) = Some "255.255.255.255"
       /\ nth_error sent (Z.to_nat 4294967296) = Some "0.0.0.0".
Proof.
  split; [vm_compute; reflexivity|].
  remember (Z.to_nat 4294967296) as n eqn:En.
  assert (Hn : Z.of_nat n = 4294967296%Z)
    by (rewrite En; apply Z2Nat.id; lia).
  clear En.
  eexists. split; [apply run_wholeV4|]. split.
  - rewrite nth_error_map_seq by lia.
    replace (Z.of_nat (n - 1)) with 4294967295%Z by lia.
    vm_compute. reflexivity.
  - rewrite nth_error_map_seq by lia.
    rewrite Hn. vm_compute. reflexivity.
Qed.

End WidestMasks.

(** ** processInputItem *)

Section InputItems.
Import Bytes Net NetMask GoStrings Regexp Cero Literal Expand Pipeline.

Lemma length_zero_empty (s : string) :
  (String.length s =? 0)%nat = true -> s = "".
Proof.
  destruct s; [reflexivity|discriminate].
Qed.

(** C5. When the host part of an input item has a slash and its expansion
    fails, processInputItem sends one result, and only that, on the result
    channel: it carries the input item (as the function holds it, with the
    white space around it trimmed) and the error of expandCIDR; nothing is
    sent to the workers, and the function returns, so that the loop of main
    goes on with the inputs that follow as if the item were not there. *)
Theorem processInputItem_failed_expansion
    (defaultPorts : list string) (fuel : nat) (input host port : string)
    (e : error) :
  splitHostPort (TrimSpace input) = Some (host, port) ->
  isCIDR host = true ->
  expandCIDR host = inl e ->
  let report :=
    SendResult (mkResult (TrimSpace input) [] (Some (ExpandError e))) in
  processInputItem defaultPorts fuel input = Returns [report]
  /\ forall rest : list string,
       processInputs defaultPorts fuel (input :: rest)
       = match processInputs defaultPorts fuel rest with
         | Returns evs => Returns (report :: evs)
         | Panics => Panics
         | StillExpanding evs => StillExpanding (report :: evs)
         end.
Proof.
  intros Hsplit Hcidr Hexp report.
  assert (Hitem : processInputItem defaultPorts fuel input = Returns [report]).
  { unfold processInputItem.
    destruct (String.length (TrimSpace input) =? 0)%nat eqn:E0.
    - apply length_zero_empty in E0. rewrite E0 in Hsplit.
      vm_compute in Hsplit. injection Hsplit as <- <-. discriminate Hcidr.
    - rewrite Hsplit, Hcidr, Hexp. reflexivity. }
  split; [exact Hitem|].
  intros rest. cbn [processInputs]. rewrite Hitem.
  destruct (processInputs defaultPorts fuel rest); reflexivity.
Qed.

Lemma processInputItem_failed_expansion_witness :
  processInputItem ["443"] 0 "::1/3"
  = Returns [SendResult (mkResult "::1/3" []
                           (Some (ExpandError (MaskRangeError "::1/3"))))].
Proof.
  apply (processInputItem_failed_expansion ["443"] 0 "::1/3" "::1/3" ""
           (MaskRangeError "::1/3")); vm_compute; reflexivity.
Defined.

End InputItems.

(** ** The worker pool *)

Section WorkerPool.
Import Bytes Net NetMask GoStrings Regexp Cero Literal Expand Pipeline.

Lemma setWorker_split (ws : list worker) :
  forall i w w', nth_error ws i = Some w ->
    exists l1 l2, ws = (l1 ++ w :: l2)%list
                  /\ setWorker i w' ws = (l1 ++ w' :: l2)%list.
Proof.
  induction ws as [|h t IH]; intros i w w' H.
  - destruct i; discriminate H.
  - destruct i as [|i]; simpl in H.
    + injection H as ->. exists [], t. split; reflexivity.
    + destruct (IH i w w' H) as (l1 & l2 & E1 & E2).
      exists (h :: l1), l2. simpl. rewrite E2, <- E1. split; reflexivity.
Qed.

Lemma forallb_exited_nth (ws : list worker) (i : nat) (w : worker) :
  forallb isExited ws = true -> nth_error ws i = Some w -> isExited w = true.
Proof.
  intros H Hn. rewrite forallb_forall in H. apply H.
  eapply nth_error_In. exact Hn.
Qed.

Lemma exited_inFlight (ws : list worker) :
  forallb isExited ws = true -> flat_map inFlight ws = [].
Proof.
  induction ws as [|w ws IH]; simpl; [reflexivity|].
  intros H. apply andb_true_iff in H. destruct H as [Hw Hws].
  destruct w; try discriminate. simpl. apply IH. exact Hws.
Qed.

Lemma forallb_existsb_exited (ws : list worker) :
  (1 <= List.length ws)%nat -> forallb isExited ws = true ->
  existsb isExited ws = true.
Proof.
  destruct ws as [|w ws]; simpl; [lia|].
  intros _ H. apply andb_true_iff in H. destruct H as [-> _]. reflexivity.
Qed.

Lemma targets_app (a b : list event) :
  targets (a ++ b) = (targets a ++ targets b)%list.
Proof. unfold targets. apply flat_map_app. Qed.

Lemma directs_app (a b : list event) :
  directs (a ++ b) = (directs a ++ directs b)%list.
Proof. unfold directs. apply flat_map_app. Qed.

Lemma init_invariant (n : nat) (prog : list event) :
  invariant n prog (init n prog).
Proof.
  constructor; simpl.
  - reflexivity.
  - apply repeat_length.
  - exists []. repeat split.
  - induction n as [|n IH]; simpl; [constructor|exact IH].
  - discriminate.
  - intros H. exfalso. induction n as [|n IH]; simpl in H; [discriminate|].
    exact (IH H).
  - discriminate.
Qed.

(** Replacing a worker that has not exited by one that has not exited
    keeps the "some worker has exited" test. *)
Lemma existsb_exited_replace (l1 l2 : list worker) (w w' : worker) :
  isExited w' = false ->
  existsb isExited (l1 ++ w' :: l2) = true ->
  existsb isExited (l1 ++ w :: l2) = true.
Proof.
  intros Hw'. rewrite !existsb_app. simpl. rewrite Hw'. simpl.
  intros H. apply orb_true_iff in H. destruct H as [H|H]; rewrite H;
    rewrite ?orb_true_r; reflexivity.
Qed.

Lemma step_invariant (n : nat) (prog : list event) (a : action) (s s' : state) :
  (1 <= n)%nat -> invariant n prog s -> step a s = Some s' ->
  invariant n prog s'.
Proof.
  intros Hn [Halive Hws [done (Hprog & Hsent & Hmain)] Hacc Hin Hex Hres] Hstep.
  unfold step in Hstep. rewrite Halive in Hstep.
  assert (Hclosed : resultClosed s = true -> todo s = []).
  { intros Hc. apply Hin, Hex, forallb_existsb_exited; [lia|]. apply Hres, Hc. }
  destruct a as [i|i names e|i| | |i|].
  - (* Feed *)
    destruct (todo s) as [|[t|r] rest] eqn:Etodo; try discriminate.
    destruct (nth_error (workers s) i) as [[| | |]|] eqn:Ew; try discriminate.
    destruct (inputClosed s) eqn:Eic; [discriminate|].
    injection Hstep as <-.
    destruct (setWorker_split _ i Idle (Busy t) Ew) as (l1 & l2 & E1 & E2).
    constructor; cbn [crashed workers todo sent emitted inputClosed resultClosed].
    + reflexivity.
    + rewrite E2. rewrite E1 in Hws. rewrite length_app in *. simpl in *. lia.
    + exists (done ++ [SendInput t])%list. rewrite <- app_assoc. simpl.
      split; [exact Hprog|]. rewrite targets_app, directs_app. simpl.
      rewrite app_nil_r. split; [rewrite Hsent; reflexivity|exact Hmain].
    + unfold workerResults in *. cbn [emitted]. rewrite E2.
      rewrite E1 in Hacc. rewrite flat_map_app in *. simpl in *.
      rewrite Hacc. rewrite <- !app_assoc.
      do 2 apply Permutation_app_head. symmetry.
      apply Permutation_cons_append.
    + discriminate.
    + intros H. rewrite E2 in H.
      assert (H' : existsb isExited (workers s) = true)
        by (rewrite E1; eapply existsb_exited_replace; [|exact H]; reflexivity).
      exact (Hex H').
    + intros H. specialize (Hres H).
      pose proof (forallb_exited_nth _ _ _ Hres Ew). discriminate.
  - (* Grab *)
    destruct (nth_error (workers s) i) as [[|t| |]|] eqn:Ew; try discriminate.
    injection Hstep as <-.
    destruct (setWorker_split _ i (Busy t) (Ready (mkResult t names e)) Ew)
      as (l1 & l2 & E1 & E2).
    constructor; cbn [crashed workers todo sent emitted inputClosed resultClosed].
    + reflexivity.
    + rewrite E2. rewrite E1 in Hws. rewrite length_app in *. simpl in *. lia.
    + exists done. auto.
    + unfold workerResults in *. cbn [emitted]. rewrite E2.
      rewrite E1 in Hacc. rewrite flat_map_app in *. simpl in *. exact Hacc.
    + exact Hin.
    + intros H. rewrite E2 in H. apply Hex. rewrite E1.
      eapply existsb_exited_replace; [|exact H]. reflexivity.
    + intros H. specialize (Hres H).
      pose proof (forallb_exited_nth _ _ _ Hres Ew). discriminate.
  - (* Emit *)
    destruct (nth_error (workers s) i) as [[| |r|]|] eqn:Ew; try discriminate.
    destruct (resultClosed s) eqn:Erc.
    { pose proof (forallb_exited_nth _ _ _ (Hres eq_refl) Ew). discriminate. }
    injection Hstep as <-.
    destruct (setWorker_split _ i (Ready r) Idle Ew) as (l1 & l2 & E1 & E2).
    constructor; cbn [crashed workers todo sent emitted inputClosed resultClosed].
    + reflexivity.
    + rewrite E2. rewrite E1 in Hws. rewrite length_app in *. simpl in *. lia.
    + exists done. split; [exact Hprog|]. split; [exact Hsent|].
      unfold mainResults in *. cbn [emitted]. rewrite flat_map_app. simpl.
      rewrite app_nil_r. exact Hmain.
    + unfold workerResults in *. cbn [emitted]. rewrite E2.
      rewrite E1 in Hacc. rewrite !flat_map_app in *. simpl in *.
      rewrite Hacc. rewrite map_app. simpl. rewrite <- !app_assoc.
      apply Permutation_app_head. simpl. symmetry.
      apply Permutation_middle.
    + exact Hin.
    + intros H. rewrite E2 in H. apply Hex. rewrite E1.
      eapply existsb_exited_replace; [|exact H]. reflexivity.
    + discriminate.
  - (* MainEmit *)
    destruct (todo s) as [|[t|r] rest] eqn:Etodo; try discriminate.
    destruct (resultClosed s) eqn:Erc.
    { specialize (Hclosed eq_refl). discriminate. }
    injection Hstep as <-.
    constructor; cbn [crashed workers todo sent emitted inputClosed resultClosed].
    + reflexivity.
    + exact Hws.
    + exists (done ++ [SendResult r])%list. rewrite <- app_assoc. simpl.
      split; [exact Hprog|]. rewrite targets_app, directs_app. simpl.
      rewrite app_nil_r. split; [exact Hsent|].
      unfold mainResults in *. cbn [emitted]. rewrite flat_map_app. simpl.
      rewrite Hmain. reflexivity.
    + unfold workerResults in *. cbn [emitted]. rewrite flat_map_app. simpl.
      rewrite app_nil_r. exact Hacc.
    + intros H. specialize (Hin H). discriminate.
    + exact Hex.
    + discriminate.
  - (* CloseInput *)
    destruct (todo s) as [|ev rest] eqn:Etodo; try discriminate.
    destruct (inputClosed s) eqn:Eic; [discriminate|].
    injection Hstep as <-.
    constructor; cbn [crashed workers todo sent emitted inputClosed resultClosed].
    + reflexivity.
    + exact Hws.
    + exists done. auto.
    + exact Hacc.
    + intros _. reflexivity.
    + intros _. reflexivity.
    + exact Hres.
  - (* Exit *)
    destruct (nth_error (workers s) i) as [[| | |]|] eqn:Ew; try discriminate.
    destruct (inputClosed s) eqn:Eic; [|discriminate].
    injection Hstep as <-.
    destruct (setWorker_split _ i Idle Exited Ew) as (l1 & l2 & E1 & E2).
    constructor; cbn [crashed workers todo sent emitted inputClosed resultClosed].
    + reflexivity.
    + rewrite E2. rewrite E1 in Hws. rewrite length_app in *. simpl in *. lia.
    + exists done. auto.
    + unfold workerResults in *. cbn [emitted]. rewrite E2.
      rewrite E1 in Hacc. rewrite flat_map_app in *. simpl in *. exact Hacc.
    + exact Hin.
    + reflexivity.
    + intros H. specialize (Hres H).
      pose proof (forallb_exited_nth _ _ _ Hres Ew). discriminate.
  - (* CloseResult *)
    destruct (forallb isExited (workers s) && negb (resultClosed s)) eqn:Ec;
      [|discriminate].
    apply andb_true_iff in Ec. destruct Ec as [Eall _].
    injection Hstep as <-.
    constructor; cbn [crashed workers todo sent emitted inputClosed resultClosed].
    + reflexivity.
    + exact Hws.
    + exists done. auto.
    + exact Hacc.
    + exact Hin.
    + exact Hex.
    + intros _. exact Eall.
Qed.

Lemma exec_invariant (n : nat) (prog : list event) (sched : list action) :
  (1 <= n)%nat ->
  forall s s', invariant n prog s -> exec sched s = Some s' ->
    invariant n prog s'.
Proof.
  intros Hn. induction sched as [|a sched IH]; intros s s' Hinv H; simpl in H.
  - injection H as <-. exact Hinv.
  - destruct (step a s) as [s1|] eqn:E; [|discriminate].
    eapply IH; [|exact H]. eapply step_invariant; eauto.
Qed.

Lemma emitted_split (s : state) :
  Permutation (map snd (emitted s)) (workerResults s ++ mainResults s)%list.
Proof.
  unfold workerResults, mainResults.
  induction (emitted s) as [|[o r] l IH]; simpl; [constructor|].
  destruct o; simpl.
  - constructor. exact IH.
  - apply Permutation_cons_app. exact IH.
Qed.

Lemma events_split (evs : list event) :
  Permutation (map eventAddr evs) (targets evs ++ map addr (directs evs))%list.
Proof.
  induction evs as [|[t|r] evs IH]; simpl; [constructor| |].
  - constructor. exact IH.
  - apply Permutation_cons_app. exact IH.
Qed.

End WorkerPool.

Section WorkerPoolClaim.
Import Bytes Net NetMask GoStrings Regexp Cero Literal Expand Pipeline.

(** Once chanResult is closed nothing moves any more. *)
Lemma closed_is_final (n : nat) (prog : list event) (s : state) :
  (1 <= n)%nat -> invariant n prog s -> resultClosed s = true ->
  forall a, step a s = None.
Proof.
  intros Hn [Halive Hws _ _ Hin Hex Hres] Hc a.
  pose proof (Hres Hc) as Hall.
  assert (Hic : inputClosed s = true)
    by (apply Hex, forallb_existsb_exited; [lia|exact Hall]).
  pose proof (Hin Hic) as Htodo.
  unfold step. rewrite Halive, Htodo, Hic, Hc.
  destruct a as [i|i names e|i| | |i|]; try reflexivity.
  - destruct (nth_error (workers s) i) as [w|] eqn:Ew; [|reflexivity].
    pose proof (forallb_exited_nth _ _ _ Hall Ew). destruct w; try discriminate.
    reflexivity.
  - destruct (nth_error (workers s) i) as [w|] eqn:Ew; [|reflexivity].
    pose proof (forallb_exited_nth _ _ _ Hall Ew). destruct w; try discriminate.
    reflexivity.
  - destruct (nth_error (workers s) i) as [w|] eqn:Ew; [|reflexivity].
    pose proof (forallb_exited_nth _ _ _ Hall Ew). destruct w; try discriminate.
    reflexivity.
  - rewrite andb_false_r. reflexivity.
Qed.

(** C6. With at least one worker, in every state that the pool reaches
    under any schedule: no send hits a closed channel; every target sent
    on chanInput has exactly one result emitted by a worker or is still
    held by one worker (none is lost, none is answered twice); and once
    chanResult is closed every target of the program has its one result,
    the results emitted carry exactly the addresses of the program's
    events, and no step is possible any more, so nothing is emitted after
    the close.  For the inputs "10.0.0.0/30" and "example.com:8443" with
    the default port 443 the input loop of main returns after sending the
    five targets 10.0.0.0:443 ... 10.0.0.3:443 and example.com:8443, in
    this order and nothing else, and that makes five results. *)
Theorem pool_one_result_per_target
    (n : nat) (prog : list event) (sched : list action) (s : state) :
  (1 <= n)%nat ->
  exec sched (init n prog) = Some s ->
  crashed s = false
  /\ Permutation (sent s)
       (map addr (workerResults s) ++ flat_map inFlight (workers s))%list
  /\ (resultClosed s = true ->
      sent s = targets prog
      /\ Permutation (map addr (workerResults s)) (targets prog)
      /\ Permutation (map (fun e => addr (snd e)) (emitted s))
           (map eventAddr prog)
      /\ forall a, step a s = None)
  /\ processInputs ["443"] 5 exampleInputs = Returns exampleProgram
  /\ (processInputs ["443"] 5 exampleInputs = Returns prog ->
      resultClosed s = true -> List.length (emitted s) = 5%nat).
Proof.
  intros Hn Hexec.
  pose proof (exec_invariant n prog sched Hn _ _ (init_invariant n prog) Hexec)
    as Hinv.
  pose proof Hinv as [Halive Hws [done (Hprog & Hsent & Hmain)] Hacc Hin Hex Hres].
  assert (Hfinal : resultClosed s = true ->
      sent s = targets prog
      /\ Permutation (map addr (workerResults s)) (targets prog)
      /\ Permutation (map (fun e => addr (snd e)) (emitted s))
           (map eventAddr prog)
      /\ forall a, step a s = None).
  { intros Hc. pose proof (Hres Hc) as Hall.
    assert (Hic : inputClosed s = true)
      by (apply Hex, forallb_existsb_exited; [lia|exact Hall]).
    pose proof (Hin Hic) as Htodo.
    rewrite Htodo, app_nil_r in Hprog. subst done.
    rewrite (exited_inFlight _ Hall), app_nil_r in Hacc.
    assert (Hwr : Permutation (map addr (workerResults s)) (targets prog))
      by (rewrite <- Hsent; symmetry; exact Hacc).
    split; [exact Hsent|]. split; [exact Hwr|].
    split; [|exact (closed_is_final n prog s Hn Hinv Hc)].
    rewrite <- (map_map snd addr).
    rewrite (Permutation_map addr (emitted_split s)), map_app, Hmain, Hwr.
    symmetry. apply events_split. }
  split; [exact Halive|]. split; [exact Hacc|]. split; [exact Hfinal|].
  split; [vm_compute; reflexivity|].
  intros Hex5 Hc. destruct (Hfinal Hc) as (_ & _ & Hall & _).
  apply Permutation_length in Hall. rewrite !length_map in Hall.
  rewrite Hall. vm_compute in Hex5. injection Hex5 as <-. reflexivity.
Qed.

Lemma pool_one_result_per_target_witness :
  exists s,
    exec exampleSchedule (init 1 exampleProgram) = Some s
    /\ processInputs ["443"] 5 exampleInputs = Returns exampleProgram
    /\ resultClosed s = true
    /\ crashed s = false
    /\ List.length (emitted s) = 5%nat.
Proof.
  destruct (exec exampleSchedule (init 1 exampleProgram)) as [s|] eqn:E;
    [|vm_compute in E; discriminate E].
  exists s.
  assert (Hc : resultClosed s = true)
    by (vm_compute in E; injection E as <-; reflexivity).
  destruct (pool_one_result_per_target 1 exampleProgram exampleSchedule s
              (le_n 1) E) as (Halive & _ & _ & Hloop & Hfive).
  split; [reflexivity|]. split; [exact Hloop|]. split; [exact Hc|].
  split; [exact Halive|].
  apply Hfive; [exact Hloop|exact Hc].
Defined.

End WorkerPoolClaim.

(** ** splitHostPort: further properties *)

Section SplitMore.
Import Bytes Net NetMask GoStrings Regexp Cero.

(** splitHostPort returns a pair exactly on the texts that have no line
    feed; on the others portRegexp does not match and the function
    panics. *)
Theorem splitHostPort_returns_iff (addr : string) :
  (exists host port, splitHostPort addr = Some (host, port))
  <-> containsByte LF addr = false.
Proof.
  split.
  - intros (h & p & H). destruct (containsByte LF addr) eqn:E; [|reflexivity].
    apply splitHostPort_panics_iff in E. congruence.
  - apply splitHostPort_returns.
Qed.

(** A bracketed IPv6 address: the brackets are stripped, and the port
    behind them, if there is one, is kept. *)
Theorem splitHostPort_brackets_stripped (v6 p : string) :
  containsByte ":" v6 = true -> containsByte LF v6 = false ->
  p <> "" -> allBytes isDigit p = true ->
  splitHostPort ("[" ++ v6 ++ "]:" ++ p) = Some (v6, p)
  /\ splitHostPort ("[" ++ v6 ++ "]") = Some (v6, "").
Proof.
  apply splitHostPort_bracketed.
Qed.

Lemma splitHostPort_brackets_stripped_witness :
  splitHostPort ("[" ++ "fe80::1" ++ "]:" ++ "8443") = Some ("fe80::1", "8443")
  /\ splitHostPort ("[" ++ "fe80::1" ++ "]") = Some ("fe80::1", "").
Proof.
  apply (splitHostPort_brackets_stripped "fe80::1" "8443");
    [reflexivity|reflexivity|discriminate|reflexivity].
Defined.

Lemma portTail_no_colon (s : string) :
  containsByte ":" s = false -> s <> "" -> portTail s = None.
Proof.
  destruct s as [|c s]; [contradiction|]. simpl. intros H _.
  apply orb_false_iff in H. destruct H as [-> _]. reflexivity.
Qed.

Lemma portRegexp_no_colon (s : string) :
  containsByte ":" s = false -> containsByte LF s = false ->
  portRegexp_FindStringSubmatch s = Some (s, "").
Proof.
  induction s as [|c s IH]; intros Hc Hlf; [reflexivity|].
  change (portRegexp_FindStringSubmatch (String c s)) with
    (match portTail (String c s) with
     | Some port => Some (EmptyString, port)
     | None =>
         if Ascii.eqb c LF then None
         else match portRegexp_FindStringSubmatch s with
              | Some (host, port) => Some (String c host, port)
              | None => None
              end
     end).
  rewrite (portTail_no_colon _ Hc) by discriminate.
  simpl in Hc, Hlf. apply orb_false_iff in Hc, Hlf.
  destruct Hc as [_ Hc], Hlf as [-> Hlf]. rewrite (IH Hc Hlf). reflexivity.
Qed.

(** A text with no colon (a host name, an IPv4 address, a CIDR of these)
    is returned whole, with the empty port. *)
Lemma splitHostPort_no_colon (s : string) :
  containsByte ":" s = false -> containsByte LF s = false ->
  splitHostPort s = Some (s, "").
Proof.
  intros Hc Hlf. unfold splitHostPort.
  rewrite (portRegexp_no_colon s Hc Hlf), Hc. reflexivity.
Qed.

Lemma nonempty_length (p : string) :
  p <> "" -> (String.length p =? 0)%nat = false.
Proof.
  destruct p; [contradiction|reflexivity].
Qed.

(** What processInputItem sends to the workers reads back: splitHostPort
    of JoinHostPort(host, port) is (host, port) again, whatever the host
    (an IPv6 address is bracketed by JoinHostPort and unbracketed here). *)
Theorem splitHostPort_JoinHostPort (host port : string) :
  containsByte LF host = false ->
  port <> "" -> allBytes isDigit port = true ->
  splitHostPort (JoinHostPort host port) = Some (host, port).
Proof.
  intros Hlf Hp Hd. unfold JoinHostPort.
  destruct (containsByte ":" host) eqn:Ec.
  - apply (splitHostPort_bracketed host port Ec Hlf Hp Hd).
  - unfold splitHostPort.
    rewrite (portRegexp_with_port host port Hlf Hp Hd), Ec.
    cbn [andb]. rewrite (nonempty_length port Hp).
    destruct (isCIDR host); reflexivity.
Qed.

Lemma splitHostPort_JoinHostPort_witness :
  splitHostPort (JoinHostPort "2001:db8::1" "443") = Some ("2001:db8::1", "443").
Proof.
  apply (splitHostPort_JoinHostPort "2001:db8::1" "443");
    [reflexivity|discriminate|reflexivity].
Defined.

Lemma portRegexp_splits (s host port : string) :
  portRegexp_FindStringSubmatch s = Some (host, port) ->
  s = host ++ (if (String.length port =? 0)%nat then "" else ":" ++ port).
Proof.
  revert host port. induction s as [|c s IH]; intros host port.
  - simpl. intros [= <- <-]. reflexivity.
  - change (portRegexp_FindStringSubmatch (String c s)) with
      (match portTail (String c s) with
       | Some port => Some (EmptyString, port)
       | None =>
           if Ascii.eqb c LF then None
           else match portRegexp_FindStringSubmatch s with
                | Some (host, port) => Some (String c host, port)
                | None => None
                end
       end).
    destruct (portTail (String c s)) as [p|] eqn:Et.
    + intros [= <- <-]. simpl in Et.
      destruct (Ascii.eqb c ":") eqn:Ec; [|discriminate].
      apply Ascii.eqb_eq in Ec. subst c.
      destruct s as [|c' s']; [discriminate|].
      destruct (allBytes isDigit (String c' s')); [|discriminate].
      injection Et as <-. reflexivity.
    + destruct (Ascii.eqb c LF); [discriminate|].
      destruct (portRegexp_FindStringSubmatch s) as [[h p]|] eqn:Er;
        [|discriminate].
      intros [= <- <-]. simpl. f_equal. apply IH. reflexivity.
Qed.

Lemma string_app_nil_r (s : string) : s ++ "" = s.
Proof.
  induction s as [|c s IH]; simpl; [reflexivity|]. rewrite IH. reflexivity.
Qed.

Lemma lastByte_split (s : string) (c : ascii) :
  lastByte s = Some c -> exists m, s = m ++ String c "".
Proof.
  induction s as [|d s IH]; [discriminate|].
  destruct s as [|d' s'].
  - simpl. intros [= <-]. exists "". reflexivity.
  - intros H. destruct (IH H) as [m Hm]. exists (String d m).
    simpl. rewrite <- Hm. reflexivity.
Qed.

(** splitHostPort loses nothing of the text: the host and the port it
    returns are the parts of the input around the last colon, or the whole
    input with no port, apart from the brackets it strips. *)
Theorem splitHostPort_parts (addr host port : string) :
  splitHostPort addr = Some (host, port) ->
  let tail := if (String.length port =? 0)%nat then "" else ":" ++ port in
  addr = host ++ tail \/ addr = "[" ++ host ++ "]" ++ tail.
Proof.
  unfold splitHostPort.
  destruct (portRegexp_FindStringSubmatch addr) as [[h p]|] eqn:E;
    [|discriminate].
  apply portRegexp_splits in E.
  destruct (containsByte ":" h && bracketRegexp_MatchString h) eqn:Eb.
  - intros [= <- <-]. right.
    apply andb_true_iff in Eb. destruct Eb as [_ Eb].
    unfold bracketRegexp_MatchString in Eb.
    destruct h as [|c rest]; [discriminate|].
    apply andb_true_iff in Eb. destruct Eb as [Eb _].
    apply andb_true_iff in Eb. destruct Eb as [E1 E2].
    apply Ascii.eqb_eq in E1. subst c.
    destruct (lastByte rest) as [d|] eqn:El; [|discriminate].
    apply Ascii.eqb_eq in E2. subst d.
    destruct (lastByte_split _ _ El) as [m ->].
    change (String "[" (m ++ "]")) with ("[" ++ m ++ "]").
    rewrite unbracket. rewrite E. simpl. f_equal.
    rewrite !string_app_assoc. reflexivity.
  - destruct (String.length p =? 0)%nat eqn:Ep.
    { intros [= <- <-]. left. rewrite Ep. exact E. }
    destruct (isCIDR h).
    { intros [= <- <-]. left. rewrite Ep. exact E. }
    destruct (containsByte ":" h).
    2:{ intros [= <- <-]. left. rewrite Ep. exact E. }
    destruct (4 <? String.length p)%nat.
    { intros [= <- <-]. left. rewrite Ep. exact E. }
    destruct (ParseIP (h ++ ":" ++ p)).
    + intros [= <- <-]. left. simpl. rewrite E.
      symmetry. apply string_app_nil_r.
    + intros [= <- <-]. left. rewrite Ep. exact E.
Qed.

Lemma splitHostPort_parts_witness :
  "[::1]:443" = "::1" ++ ":443" \/ "[::1]:443" = "[" ++ "::1" ++ "]" ++ ":443".
Proof.
  apply (splitHostPort_parts "[::1]:443" "::1" "443"). reflexivity.
Defined.

End SplitMore.

(** ** The worker pool: termination and progress *)

Section PoolLiveness.
Import Bytes Net NetMask GoStrings Regexp Cero Literal Expand Pipeline.

Lemma weight_setWorker (ws : list worker) (i : nat) (w w' : worker) :
  nth_error ws i = Some w ->
  (list_sum (map workerWeight (setWorker i w' ws)) + workerWeight w
   = list_sum (map workerWeight ws) + workerWeight w')%nat.
Proof.
  intros H. destruct (setWorker_split ws i w w' H) as (l1 & l2 & E1 & E2).
  rewrite E2. rewrite E1. rewrite !map_app, !list_sum_app. simpl. lia.
Qed.

(** Every step of the pool makes the weight of the state smaller. *)
Lemma step_decreases_weight (a : action) (s s' : state) :
  step a s = Some s' -> (weight s' < weight s)%nat.
Proof.
  unfold step. destruct (crashed s) eqn:Ecr; [discriminate|].
  unfold weight. rewrite Ecr.
  destruct a as [i|i names e|i| | |i|].
  - destruct (todo s) as [|[t|r] rest] eqn:Etodo; try discriminate.
    destruct (nth_error (workers s) i) as [[| | |]|] eqn:Ew; try discriminate.
    destruct (inputClosed s) eqn:Eic; [discriminate|].
    intros [= <-]. cbn [todo workers inputClosed resultClosed crashed].
    pose proof (weight_setWorker _ i Idle (Busy t) Ew) as W. simpl in W.
    simpl List.length. destruct (resultClosed s); lia.
  - destruct (nth_error (workers s) i) as [[|t| |]|] eqn:Ew; try discriminate.
    intros [= <-]. cbn [todo workers inputClosed resultClosed crashed].
    pose proof (weight_setWorker _ i (Busy t) (Ready (mkResult t names e)) Ew)
      as W. simpl in W.
    destruct (inputClosed s), (resultClosed s); lia.
  - destruct (nth_error (workers s) i) as [[| |r|]|] eqn:Ew; try discriminate.
    destruct (resultClosed s) eqn:Erc.
    + intros [= <-]. cbn [todo workers inputClosed resultClosed crashed].
      destruct (inputClosed s); lia.
    + intros [= <-]. cbn [todo workers inputClosed resultClosed crashed].
      pose proof (weight_setWorker _ i (Ready r) Idle Ew) as W. simpl in W.
      destruct (inputClosed s); lia.
  - destruct (todo s) as [|[t|r] rest] eqn:Etodo; try discriminate.
    destruct (resultClosed s) eqn:Erc.
    + intros [= <-]. cbn [todo workers inputClosed resultClosed crashed].
      simpl List.length. destruct (inputClosed s); lia.
    + intros [= <-]. cbn [todo workers inputClosed resultClosed crashed].
      simpl List.length. destruct (inputClosed s); lia.
  - destruct (todo s) as [|ev rest] eqn:Etodo; try discriminate.
    destruct (inputClosed s) eqn:Eic; [discriminate|].
    intros [= <-]. cbn [todo workers inputClosed resultClosed crashed].
    destruct (resultClosed s); simpl; lia.
  - destruct (nth_error (workers s) i) as [[| | |]|] eqn:Ew; try discriminate.
    destruct (inputClosed s) eqn:Eic; [|discriminate].
    intros [= <-]. cbn [todo workers inputClosed resultClosed crashed].
    pose proof (weight_setWorker _ i Idle Exited Ew) as W. simpl in W.
    destruct (resultClosed s); lia.
  - destruct (forallb isExited (workers s) && negb (resultClosed s)) eqn:Ec;
      [|discriminate].
    apply andb_true_iff in Ec. destruct Ec as [_ Ec].
    apply negb_true_iff in Ec.
    intros [= <-]. cbn [todo workers inputClosed resultClosed crashed].
    rewrite Ec. destruct (inputClosed s); lia.
Qed.

Lemma exec_bounded (sched : list action) :
  forall s s', exec sched s = Some s' ->
    (List.length sched + weight s' <= weight s)%nat.
Proof.
  induction sched as [|a sched IH]; intros s s' H; simpl in H.
  - injection H as <-. simpl. lia.
  - destruct (step a s) as [s1|] eqn:E; [|discriminate].
    apply step_decreases_weight in E. apply IH in H. simpl. lia.
Qed.

Lemma weight_init (n : nat) (prog : list event) :
  weight (init n prog) = (3 * List.length prog + n + 3)%nat.
Proof.
  unfold weight, init. cbn [todo workers inputClosed resultClosed crashed].
  replace (list_sum (map workerWeight (repeat Idle n))) with n; [lia|].
  induction n as [|n IH]; simpl; [reflexivity|]. rewrite <- IH. reflexivity.
Qed.

(** A run of the pool on a program of [k] events with [n] workers has at
    most [3 k + n + 3] steps. *)
Theorem exec_length_bound
    (n : nat) (prog : list event) (sched : list action) (s : state) :
  exec sched (init n prog) = Some s ->
  (List.length sched <= 3 * List.length prog + n + 3)%nat.
Proof.
  intros H. apply exec_bounded in H. rewrite weight_init in H. lia.
Qed.

Lemma exec_length_bound_witness :
  (List.length exampleSchedule <= 3 * List.length exampleProgram + 1 + 3)%nat.
Proof.
  destruct (exec exampleSchedule (init 1 exampleProgram)) as [s|] eqn:E;
    [|vm_compute in E; discriminate E].
  exact (exec_length_bound 1 exampleProgram exampleSchedule s E).
Defined.

(** With at least one worker the pool is never stuck before chanResult is
    closed: in every state that keeps the invariant some goroutine can
    move. *)
Lemma pool_can_step (n : nat) (prog : list event) (s : state) :
  (1 <= n)%nat ->
  invariant n prog s ->
  resultClosed s = false ->
  exists a s', step a s = Some s'.
Proof.
  intros Hn [Halive Hws _ _ Hin Hex _] Hopen.
  unfold step. rewrite Halive.
  (* a worker that can move on its own *)
  assert (Hmoving : forall i w, nth_error (workers s) i = Some w ->
            (exists t, w = Busy t) \/ (exists r, w = Ready r) ->
            exists a s', (match a with
                          | Grab j names e =>
                              match nth_error (workers s) j with
                              | Some (Busy t) =>
                                  Some (mkState (todo s) (inputClosed s)
                                          (setWorker j (Ready (mkResult t names e)) (workers s))
                                          (resultClosed s) (sent s) (emitted s) false)
                              | _ => None
                              end
                          | Emit j =>
                              match nth_error (workers s) j with
                              | Some (Ready r) =>
                                  if resultClosed s then
                                    Some (mkState (todo s) (inputClosed s) (workers s)
                                            (resultClosed s) (sent s) (emitted s) true)
                                  else
                                    Some (mkState (todo s) (inputClosed s)
                                            (setWorker j Idle (workers s))
                                            (resultClosed s) (sent s)
                                            (emitted s ++ [(FromWorker, r)]) false)
                              | _ => None
                              end
                          | _ => None
                          end) = Some s').
  { intros i w Hw [[t ->]|[r ->]].
    - exists (Grab i [] None). rewrite Hw. eauto.
    - exists (Emit i). rewrite Hw, Hopen. eauto. }
  destruct (workers s) as [|w0 ws] eqn:Eworkers; [simpl in Hws; lia|].
  destruct (forallb isExited (w0 :: ws)) eqn:Eall.
  - exists CloseResult. rewrite ?Eall, ?Hopen. simpl. eauto.
  - (* some worker has not exited *)
    assert (Hsome : exists i w, nth_error (w0 :: ws) i = Some w
                                /\ isExited w = false).
    { clear -Eall. revert Eall. generalize (w0 :: ws). intros l.
      induction l as [|w l IH]; simpl; [discriminate|].
      destruct (isExited w) eqn:Ew.
      - simpl. intros H. destruct (IH H) as (i & w' & Hi & Hw').
        exists (S i), w'. split; assumption.
      - intros _. exists 0%nat, w. split; [reflexivity|exact Ew]. }
    destruct Hsome as (i & w & Hi & Hw).
    destruct w as [|t|r|]; try discriminate.
    + (* an idle worker: it is fed, or it exits, or main moves *)
      destruct (todo s) as [|[t|r] rest] eqn:Etodo.
      * destruct (inputClosed s) eqn:Eic.
        -- exists (Exit i). rewrite Hi. eauto.
        -- exists CloseInput. eauto.
      * exists (Feed i). rewrite Hi.
        destruct (inputClosed s) eqn:Eic; [|eauto].
        specialize (Hin eq_refl). discriminate.
      * exists MainEmit. rewrite Hopen. eauto.
    + destruct (Hmoving i (Busy t) Hi) as (a & s' & Ha); [left; eauto|].
      exists a, s'. destruct a; try discriminate; exact Ha.
    + destruct (Hmoving i (Ready r) Hi) as (a & s' & Ha); [right; eauto|].
      exists a, s'. destruct a; try discriminate; exact Ha.
Qed.

Lemma exec_app (a b : list action) :
  forall s, exec (a ++ b) s
            = match exec a s with
              | Some s1 => exec b s1
              | None => None
              end.
Proof.
  induction a as [|x a IH]; intros s; simpl; [reflexivity|].
  destruct (step x s); [apply IH|reflexivity].
Qed.

Lemma runs_to_close (n : nat) (prog : list event) (w : nat) :
  (1 <= n)%nat ->
  forall s, (weight s <= w)%nat -> invariant n prog s ->
    exists rest s',
      exec rest s = Some s' /\ resultClosed s' = true /\ crashed s' = false.
Proof.
  intros Hn. induction w as [|w IH]; intros s Hw Hinv.
  - exfalso. pose proof (inv_alive _ _ _ Hinv) as Ha.
    unfold weight in Hw. rewrite Ha in Hw. lia.
  - destruct (resultClosed s) eqn:Ec.
    + exists [], s. split; [reflexivity|]. split; [exact Ec|].
      exact (inv_alive _ _ _ Hinv).
    + destruct (pool_can_step n prog s Hn Hinv Ec) as (a & s1 & Hstep).
      pose proof (step_decreases_weight _ _ _ Hstep) as Hlt.
      pose proof (step_invariant n prog a s s1 Hn Hinv Hstep) as Hinv1.
      destruct (IH s1) as (rest & s' & Hrest & Hc & Ha); [lia|exact Hinv1|].
      exists (a :: rest), s'. simpl. rewrite Hstep. auto.
Qed.

(** The pipeline shuts down: with at least one worker, every run of the
    pool, whatever the schedule so far, can be continued to a state in
    which chanResult is closed, without any send on a closed channel; as
    no run is longer than [3 k + n + 3] steps, it cannot be put off for
    ever either. *)
Theorem pool_runs_to_close
    (n : nat) (prog : list event) (sched : list action) (s : state) :
  (1 <= n)%nat ->
  exec sched (init n prog) = Some s ->
  exists rest s',
    exec (sched ++ rest) (init n prog) = Some s'
    /\ resultClosed s' = true /\ crashed s' = false
    /\ (List.length (sched ++ rest) <= 3 * List.length prog + n + 3)%nat.
Proof.
  intros Hn Hexec.
  pose proof (exec_invariant n prog sched Hn _ _ (init_invariant n prog) Hexec)
    as Hinv.
  destruct (runs_to_close n prog (weight s) Hn s (le_n _) Hinv)
    as (rest & s' & Hrest & Hc & Ha).
  exists rest, s'.
  assert (Hall : exec (sched ++ rest) (init n prog) = Some s')
    by (rewrite exec_app, Hexec; exact Hrest).
  split; [exact Hall|]. split; [exact Hc|]. split; [exact Ha|].
  apply exec_bounded in Hall. rewrite weight_init in Hall. lia.
Qed.

Lemma pool_runs_to_close_witness :
  exists rest s',
    exec ([] ++ rest) (init 1 exampleProgram) = Some s'
    /\ resultClosed s' = true /\ crashed s' = false
    /\ (List.length ([] ++ rest) <= 3 * List.length exampleProgram + 1 + 3)%nat.
Proof.
  apply (pool_runs_to_close 1 exampleProgram [] (init 1 exampleProgram));
    [lia|reflexivity].
Defined.

(** With no worker at all nothing is ever received from chanInput: no
    target is sent, whatever the schedule. *)
Theorem no_worker_no_target (prog : list event) (sched : list action) (s : state) :
  exec sched (init 0 prog) = Some s -> sent s = [] /\ workers s = [].
Proof.
  assert (G : forall s0, sent s0 = [] /\ workers s0 = [] ->
              forall s1, exec sched s0 = Some s1 ->
                sent s1 = [] /\ workers s1 = []).
  { induction sched as [|a sched IH]; intros s0 [Hs Hw] s1 H; simpl in H.
    - injection H as <-. split; assumption.
    - destruct (step a s0) as [s2|] eqn:E; [|discriminate].
      apply (IH s2); [|exact H].
      unfold step in E. destruct (crashed s0); [discriminate|].
      rewrite Hw in E.
      destruct a as [i|i names e|i| | |i|];
        try (destruct i; simpl in E;
             destruct (todo s0) as [|[?|?] ?]; discriminate).
      + destruct (todo s0) as [|[t|r] rest]; try discriminate.
        destruct (resultClosed s0); injection E as <-; simpl; auto.
      + destruct (todo s0); try discriminate.
        destruct (inputClosed s0); [discriminate|].
        injection E as <-. simpl. auto.
      + simpl in E. destruct (negb (resultClosed s0)); [|discriminate].
        injection E as <-. simpl. auto. }
  intros H. apply (G (init 0 prog)); [split; reflexivity|exact H].
Qed.

Lemma no_worker_no_target_witness :
  sent (mkState exampleProgram false [] true [] [] false) = []
  /\ workers (mkState exampleProgram false [] true [] [] false) = [].
Proof.
  apply (no_worker_no_target exampleProgram [CloseResult]). reflexivity.
Defined.

End PoolLiveness.

(** ** isDomainName: what it accepts *)

Section DomainMore.
Import Bytes Domain.

Lemma get_drop (s : string) :
  forall i c, String.get i s = Some c -> drop i s = String c (drop (S i) s).
Proof.
  induction s as [|d s IH]; intros i c H; [destruct i; discriminate|].
  destruct i as [|i]; simpl in *.
  - injection H as ->. destruct s; reflexivity.
  - apply IH. exact H.
Qed.

Lemma drop_all (s : string) : drop (String.length s) s = "".
Proof.
  induction s as [|d s IH]; [reflexivity|exact IH].
Qed.

Lemma scanFrom_scanString (k : nat) (s : string) :
  forall i st, (i + k = String.length s)%nat ->
    scanFrom k s i st = Some (scanString (drop i s) st).
Proof.
  induction k as [|k IH]; intros i st H.
  - rewrite Nat.add_0_r in H. subst i. rewrite drop_all. reflexivity.
  - destruct (get_in_range s i) as [c Hc]; [lia|].
    cbn [scanFrom]. rewrite Hc, (get_drop _ _ _ Hc). cbn [scanString].
    destruct (scanByte st c) as [b|st']; [reflexivity|].
    apply IH. lia.
Qed.

(** isDomainName as one boolean: the length test and the scan. *)
Lemma isDomainName_eq (s : string) :
  isDomainName s
  = Some (lengthOk s
          && match scanString s (mkScan "." false 0 0) with
             | inl b => b
             | inr st => finalTest st
             end).
Proof.
  unfold isDomainName, lengthOk.
  rewrite (scanFrom_scanString (String.length s) s 0) by reflexivity.
  change (drop 0 s) with s.
  destruct (String.length s =? 0)%nat eqn:E0; [reflexivity|].
  destruct (254 <? String.length s)%nat eqn:E1; [reflexivity|].
  cbn [negb andb].
  assert (Hscan :
    match scanString s (mkScan "." false 0 0) with
    | inl b => Some b
    | inr st =>
        if Ascii.eqb (last st) "-" || (63 <? partlen st)%nat then Some false
        else Some (nonNumeric st
                   && ((1 <? parts st)%nat
                       || ((0 <? parts st)%nat
                           && negb (Ascii.eqb (last st) "."))))
    end
    = Some match scanString s (mkScan "." false 0 0) with
           | inl b => b
           | inr st => finalTest st
           end).
  { destruct (scanString s (mkScan "." false 0 0)) as [b|st]; [reflexivity|].
    unfold finalTest.
    destruct (Ascii.eqb (last st) "-" || (63 <? partlen st)%nat); reflexivity. }
  destruct (String.length s =? 254)%nat eqn:E2; cbn [negb orb]; [|exact Hscan].
  apply Nat.eqb_neq in E0.
  destruct (get_in_range s (String.length s - 1)) as [c Hc]; [lia|].
  rewrite Hc. destruct (Ascii.eqb c "."); cbn [negb andb]; [exact Hscan|].
  reflexivity.
Qed.

(** Every early return of the loop is [return false]. *)
Lemma scanByte_early (st : scan) (c : ascii) (b : bool) :
  scanByte st c = inl b -> b = false.
Proof.
  unfold scanByte.
  repeat match goal with
         | |- (if ?x then _ else _) = _ -> _ => destruct x
         end; intros H; try discriminate; injection H as <-; reflexivity.
Qed.

Lemma scanString_early (l : string) :
  forall st b, scanString l st = inl b -> b = false.
Proof.
  induction l as [|c l IH]; intros st b; simpl; [discriminate|].
  destruct (scanByte st c) as [b'|st'] eqn:E.
  - intros [= <-]. exact (scanByte_early _ _ _ E).
  - apply IH.
Qed.

Lemma isDigit_not_letter (c : ascii) :
  isDigit c = true -> isLower c || isUpper c = false.
Proof.
  unfold isDigit, isLower, isUpper, between, le. intros H.
  apply andb_true_iff in H. destruct H as [H1 H2]. apply N.leb_le in H1, H2.
  change (code "0") with 48%N in H1. change (code "9") with 57%N in H2.
  change (code "a") with 97%N. change (code "A") with 65%N.
  change (code "z") with 122%N. change (code "Z") with 90%N.
  replace (97 <=? code c)%N with false by (symmetry; apply N.leb_gt; lia).
  replace (65 <=? code c)%N with false by (symmetry; apply N.leb_gt; lia).
  reflexivity.
Qed.

Lemma scanByte_inr (st st1 : scan) (c : ascii) :
  scanByte st c = inr st1 ->
  last st1 = c
  /\ isNameByte c = true
  /\ (Ascii.eqb c "." = false -> parts st1 = parts st)
  /\ (isDigitOrDot c = true -> nonNumeric st1 = nonNumeric st)
  /\ (Ascii.eqb c "." = true \/ (0 < partlen st1)%nat).
Proof.
  unfold scanByte, isNameByte, isDigitOrDot.
  destruct (isLower c || isUpper c) eqn:El.
  - intros [= <-]. cbn [last parts nonNumeric partlen].
    split; [reflexivity|]. split; [reflexivity|]. split; [reflexivity|].
    split; [|right; lia].
    intros H. apply orb_true_iff in H. destruct H as [H|H].
    + rewrite (isDigit_not_letter c H) in El. discriminate.
    + apply Ascii.eqb_eq in H. subst c. discriminate El.
  - destruct (isDigit c) eqn:Ed.
    + intros [= <-]. cbn [last parts nonNumeric partlen].
      split; [reflexivity|]. split; [reflexivity|]. split; [reflexivity|].
      split; [reflexivity|right; lia].
    + destruct (Ascii.eqb c "-") eqn:Eh.
      * destruct (Ascii.eqb (last st) "."); [discriminate|].
        intros [= <-]. cbn [last parts nonNumeric partlen].
        split; [reflexivity|]. split; [reflexivity|]. split; [reflexivity|].
        split; [|right; lia].
        cbn [orb]. intros H. apply Ascii.eqb_eq in Eh, H. congruence.
      * destruct (Ascii.eqb c ".") eqn:Edot; [|discriminate].
        destruct (Ascii.eqb (last st) "." || Ascii.eqb (last st) "-");
          [discriminate|].
        destruct ((63 <? partlen st)%nat || (partlen st =? 0)%nat);
          [discriminate|].
        intros [= <-]. cbn [last parts nonNumeric partlen].
        split; [reflexivity|]. split; [reflexivity|].
        split; [discriminate|]. split; [reflexivity|left; reflexivity].
Qed.

Lemma scanString_inr (l : string) :
  forall st st', scanString l st = inr st' ->
    allBytes isNameByte l = true
    /\ (containsByte "." l = false -> parts st' = parts st)
    /\ (allBytes isDigitOrDot l = true -> nonNumeric st' = nonNumeric st)
    /\ (forall c, lastByte l = Some c -> last st' = c)
    /\ ((Ascii.eqb (last st) "." = true \/ (0 < partlen st)%nat) ->
        (Ascii.eqb (last st') "." = true \/ (0 < partlen st')%nat)).
Proof.
  induction l as [|c l IH]; intros st st' H.
  - simpl in H. injection H as <-. repeat split; auto. discriminate.
  - cbn [scanString] in H.
    destruct (scanByte st c) as [b|st1] eqn:E; [discriminate|].
    destruct (scanByte_inr _ _ _ E) as (Hlast & Hname & Hparts & Hnum & Hk).
    destruct (IH _ _ H) as (IHname & IHparts & IHnum & IHlast & IHk).
    repeat split.
    + simpl. rewrite Hname, IHname. reflexivity.
    + simpl. intros Hd. apply orb_false_iff in Hd. destruct Hd as [Hd1 Hd2].
      rewrite (IHparts Hd2). apply Hparts. exact Hd1.
    + simpl. intros Hd. apply andb_true_iff in Hd. destruct Hd as [Hd1 Hd2].
      rewrite (IHnum Hd2). apply Hnum. exact Hd1.
    + intros d Hd. destruct l as [|c' l'].
      * simpl in H. injection H as <-. simpl in Hd. injection Hd as <-.
        exact Hlast.
      * apply IHlast. exact Hd.
    + intros _. apply IHk. destruct Hk as [Hk|Hk].
      * left. rewrite Hlast. exact Hk.
      * right. exact Hk.
Qed.

(** A name that isDomainName accepts has between 1 and 254 bytes, all of
    them letters, digits, hyphens or dots; it has a dot (two labels at
    least) and a byte that is neither digit nor dot (it is no dotted
    number such as an IPv4 address). *)
Theorem isDomainName_accepts_only (s : string) :
  isDomainName s = Some true ->
  (1 <= String.length s <= 254)%nat
  /\ allBytes isNameByte s = true
  /\ containsByte "." s = true
  /\ allBytes isDigitOrDot s = false.
Proof.
  rewrite isDomainName_eq. intros [= H].
  apply andb_true_iff in H. destruct H as [Hlen Hscan].
  split.
  { unfold lengthOk in Hlen.
    apply andb_true_iff in Hlen. destruct Hlen as [Hlen _].
    apply andb_true_iff in Hlen. destruct Hlen as [H0 H1].
    apply negb_true_iff in H0, H1.
    apply Nat.eqb_neq in H0. apply Nat.ltb_ge in H1. lia. }
  destruct (scanString s (mkScan "." false 0 0)) as [b|st] eqn:E.
  { subst b. apply scanString_early in E. discriminate. }
  destruct (scanString_inr _ _ _ E) as (Hname & Hparts & Hnum & _ & _).
  unfold finalTest in Hscan.
  destruct (Ascii.eqb (last st) "-" || (63 <? partlen st)%nat); [discriminate|].
  apply andb_true_iff in Hscan. destruct Hscan as [Hnn Hp].
  split; [exact Hname|]. split.
  - destruct (containsByte "." s) eqn:Ed; [reflexivity|].
    rewrite (Hparts eq_refl) in Hp. discriminate Hp.
  - destruct (allBytes isDigitOrDot s) eqn:Ed; [|reflexivity].
    rewrite (Hnum eq_refl) in Hnn. discriminate Hnn.
Qed.

Lemma isDomainName_accepts_only_witness :
  (1 <= String.length "test-1.com" <= 254)%nat
  /\ allBytes isNameByte "test-1.com" = true
  /\ containsByte "." "test-1.com" = true
  /\ allBytes isDigitOrDot "test-1.com" = false.
Proof.
  apply (isDomainName_accepts_only "test-1.com"). reflexivity.
Defined.

End DomainMore.

Section TrailingDot.
Import Bytes Domain.

Lemma scanString_app (a b : string) :
  forall st,
    scanString (a ++ b) st
    = match scanString a st with
      | inl x => inl x
      | inr st1 => scanString b st1
      end.
Proof.
  induction a as [|c a IH]; intros st; simpl; [reflexivity|].
  destruct (scanByte st c); [reflexivity|apply IH].
Qed.

Lemma get_app_at_length (s t : string) (c : ascii) :
  String.get (String.length s) (s ++ String c t) = Some c.
Proof.
  induction s as [|d s IH]; [reflexivity|exact IH].
Qed.

(** The root dot: a name that isDomainName accepts, that does not end in
    a dot already and has room for one more byte, is accepted with the dot
    of the root appended. *)
Theorem isDomainName_trailing_dot (s : string) :
  isDomainName s = Some true ->
  lastByte s <> Some "."%char ->
  (String.length s < 254)%nat ->
  isDomainName (s ++ ".") = Some true.
Proof.
  intros Hacc Hlast Hlen.
  rewrite isDomainName_eq in Hacc. injection Hacc as Hacc.
  apply andb_true_iff in Hacc. destruct Hacc as [Hok Hscan].
  destruct (scanString s (mkScan "." false 0 0)) as [b|st] eqn:E.
  { subst b. apply scanString_early in E. discriminate. }
  destruct (scanString_inr _ _ _ E) as (_ & _ & _ & HlastSt & Hk).
  assert (Hnotdot : Ascii.eqb (last st) "." = false).
  { destruct s as [|c0 s0]; [discriminate Hok|].
    destruct (lastByte_nonempty c0 s0) as [d Hd].
    rewrite (HlastSt d Hd).
    destruct (Ascii.eqb d ".") eqn:Ed; [|reflexivity].
    apply Ascii.eqb_eq in Ed. subst d. contradiction. }
  assert (Hpart : (0 < partlen st)%nat).
  { destruct Hk as [Hk|Hk]; [left; reflexivity| |exact Hk]. congruence. }
  unfold finalTest in Hscan.
  destruct (Ascii.eqb (last st) "-") eqn:Ehy; [discriminate|].
  destruct (63 <? partlen st)%nat eqn:E63; [discriminate|].
  cbn [orb] in Hscan. rewrite Hnotdot in Hscan.
  apply andb_true_iff in Hscan. destruct Hscan as [Hnn Hparts].
  assert (Hp : (1 <= parts st)%nat).
  { destruct (1 <? parts st)%nat eqn:E1.
    - apply Nat.ltb_lt in E1. lia.
    - cbn [orb] in Hparts. apply andb_true_iff in Hparts.
      destruct Hparts as [Hparts _]. apply Nat.ltb_lt in Hparts. lia. }
  rewrite isDomainName_eq. f_equal. apply andb_true_iff. split.
  - unfold lengthOk. rewrite length_app_one.
    replace (S (String.length s) - 1)%nat with (String.length s) by lia.
    rewrite get_app_at_length, Ascii.eqb_refl, orb_true_r.
    replace (254 <? S (String.length s))%nat with false
      by (symmetry; apply Nat.ltb_ge; lia).
    reflexivity.
  - rewrite scanString_app, E. cbn [scanString].
    unfold scanByte. change (isLower "." || isUpper ".") with false.
    change (isDigit ".") with false. change (Ascii.eqb "." "-") with false.
    change (Ascii.eqb "." ".") with true. cbv iota.
    rewrite Hnotdot, Ehy, E63. cbn [orb].
    replace (partlen st =? 0)%nat with false
      by (symmetry; apply Nat.eqb_neq; lia).
    unfold finalTest. cbn [last partlen nonNumeric parts].
    change (Ascii.eqb "." "-") with false. change (63 <? 0)%nat with false.
    cbn [orb]. rewrite Hnn.
    replace (1 <? S (parts st))%nat with true
      by (symmetry; apply Nat.ltb_lt; lia).
    reflexivity.
Qed.

Lemma isDomainName_trailing_dot_witness :
  isDomainName ("test.com" ++ ".") = Some true.
Proof.
  apply (isDomainName_trailing_dot "test.com");
    [reflexivity|discriminate|simpl; lia].
Defined.

End TrailingDot.

(** ** grabCert: the names it returns *)

Section GrabFacts.
Import Bytes Domain Expand Pipeline Grab.

Lemma keepName_total (flag : bool) (name : string) :
  exists b, keepName flag name = Some b
            /\ (flag = true -> b = true -> isDomainName name = Some true).
Proof.
  unfold keepName. destruct flag.
  - eexists. split; [apply isDomainName_eq|].
    intros _ Hb. rewrite isDomainName_eq, Hb. reflexivity.
  - exists true. split; [reflexivity|discriminate].
Qed.

Lemma appendSANs_spec (flag : bool) (cn : string) (dns : list string) :
  forall names,
    exists extra,
      appendSANs flag cn dns names = Some (names ++ extra)%list
      /\ (forall n, In n extra ->
            In n dns /\ n <> cn
            /\ (flag = true -> isDomainName n = Some true)).
Proof.
  induction dns as [|name rest IH]; intros names.
  - exists []. rewrite app_nil_r. split; [reflexivity|]. intros n [].
  - cbn [appendSANs]. destruct (String.eqb name cn) eqn:Eq; cbn [negb].
    + destruct (IH names) as (extra & He & Hin). exists extra.
      split; [exact He|]. intros n Hn. destruct (Hin n Hn) as (H1 & H2 & H3).
      split; [right; exact H1|]. split; assumption.
    + destruct (keepName_total flag name) as (b & Hb & Hvalid). rewrite Hb.
      destruct b.
      * destruct (IH (names ++ [name])%list) as (extra & He & Hin).
        exists (name :: extra). rewrite He, <- app_assoc.
        split; [reflexivity|]. intros n [<-|Hn].
        -- split; [left; reflexivity|]. split.
           ++ intros ->. rewrite String.eqb_refl in Eq. discriminate.
           ++ intros Hf. apply Hvalid; [exact Hf|reflexivity].
        -- destruct (Hin n Hn) as (H1 & H2 & H3).
           split; [right; exact H1|]. split; assumption.
      * destruct (IH names) as (extra & He & Hin). exists extra.
        split; [exact He|]. intros n Hn. destruct (Hin n Hn) as (H1 & H2 & H3).
        split; [right; exact H1|]. split; assumption.
Qed.

(** grabCert does not panic.  After a failed dial it returns no name and
    the error of the dial.  After a handshake it returns no error, and
    its names are the common name, first and once at most, and DNS names
    of the certificate other than the common name; with the flag
    onlyValidDomainNames every name it returns is one that isDomainName
    accepts. *)
Theorem grabCert_names (dial : dialOutcome) (flag : bool) :
  exists names err,
    grabCert dial flag = Some (names, err)
    /\ match dial with
       | DialFailed e => names = [] /\ err = Some e
       | Connected cn dns =>
           err = None
           /\ (forall n, In n names -> n = cn \/ In n dns)
           /\ (count_occ string_dec names cn <= 1)%nat
           /\ (flag = true ->
               forall n, In n names -> isDomainName n = Some true)
       end.
Proof.
  destruct dial as [e|cn dns]; cbn [grabCert].
  - exists [], (Some e). repeat split.
  - destruct (keepName_total flag cn) as (keep & Hk & Hvalid). rewrite Hk.
    destruct (appendSANs_spec flag cn dns (if keep then [cn] else []))
      as (extra & He & Hin).
    rewrite He. eexists _, _. split; [reflexivity|].
    split; [reflexivity|].
    assert (Hextra : count_occ string_dec extra cn = 0%nat).
    { apply count_occ_not_In. intros Hc. destruct (Hin cn Hc) as (_ & Hne & _).
      apply Hne. reflexivity. }
    split; [|split].
    + intros n Hn. apply in_app_or in Hn. destruct Hn as [Hn|Hn].
      * destruct keep; [|contradiction]. destruct Hn as [<-|[]]. left. reflexivity.
      * right. apply (Hin n Hn).
    + rewrite count_occ_app, Hextra. destruct keep; simpl; [|lia].
      destruct (string_dec cn cn); lia.
    + intros Hf n Hn. apply in_app_or in Hn. destruct Hn as [Hn|Hn].
      * destruct keep; [|contradiction]. destruct Hn as [<-|[]].
        apply Hvalid; [exact Hf|reflexivity].
      * apply (Hin n Hn). exact Hf.
Qed.

End GrabFacts.

(** ** expandCIDR: the addresses of a block *)

Section BlockBits.
Import Bytes Net NetMask Literal Expand.

Local Open Scope Z_scope.

(** [a] has no bit outside [c]: [Z.ldiff a c = 0]. *)
Lemma ldiff_land_mask (x m : Z) : Z.ldiff (Z.land x m) m = 0.
Proof.
  apply Z.bits_inj'. intros n _.
  rewrite Z.ldiff_spec, Z.land_spec, Z.bits_0.
  destruct (Z.testbit x n), (Z.testbit m n); reflexivity.
Qed.

Lemma ldiff_shiftl (a c s : Z) :
  Z.ldiff a c = 0 -> Z.ldiff (Z.shiftl a s) (Z.shiftl c s) = 0.
Proof.
  intros H. rewrite <- Z.shiftl_ldiff, H. apply Z.shiftl_0_l.
Qed.

Lemma ldiff_lor (a b c d : Z) :
  Z.ldiff a c = 0 -> Z.ldiff b d = 0 -> Z.ldiff (Z.lor a b) (Z.lor c d) = 0.
Proof.
  intros Ha Hb. apply Z.bits_inj'. intros n _.
  assert (Ha' := f_equal (fun z => Z.testbit z n) Ha).
  assert (Hb' := f_equal (fun z => Z.testbit z n) Hb).
  cbv beta in Ha', Hb'. rewrite Z.ldiff_spec, Z.bits_0 in Ha', Hb'.
  rewrite Z.ldiff_spec, !Z.lor_spec, Z.bits_0.
  destruct (Z.testbit a n), (Z.testbit b n), (Z.testbit c n), (Z.testbit d n);
    simpl in *; congruence.
Qed.

Lemma subset_low_zero (a m k : Z) :
  Z.ldiff a m = 0 -> Z.land m (Z.ones k) = 0 -> Z.land a (Z.ones k) = 0.
Proof.
  intros Ha Hm. apply Z.bits_inj'. intros n _.
  assert (Ha' := f_equal (fun z => Z.testbit z n) Ha).
  assert (Hm' := f_equal (fun z => Z.testbit z n) Hm).
  cbv beta in Ha', Hm'.
  rewrite Z.ldiff_spec, Z.bits_0 in Ha'. rewrite Z.land_spec, Z.bits_0 in Hm'.
  rewrite Z.land_spec, Z.bits_0.
  destruct (Z.testbit a n), (Z.testbit m n), (Z.testbit (Z.ones k) n);
    simpl in *; congruence.
Qed.

Lemma subset_bounds (a m : Z) : 0 <= m -> Z.ldiff a m = 0 -> 0 <= a <= m.
Proof.
  intros Hm H. apply Z.ldiff_le; assumption.
Qed.

Lemma subset_land (a m : Z) : Z.ldiff a m = 0 -> Z.land a m = a.
Proof.
  intros Ha. apply Z.bits_inj'. intros n _.
  assert (Ha' := f_equal (fun z => Z.testbit z n) Ha). cbv beta in Ha'.
  rewrite Z.ldiff_spec, Z.bits_0 in Ha'. rewrite Z.land_spec.
  destruct (Z.testbit a n), (Z.testbit m n); simpl in *; congruence.
Qed.

(** Under a network word whose low [k] bits are zero, xor with a counter
    below [2^k] is addition. *)
Lemma lxor_low (a k j : Z) :
  0 <= k -> Z.land a (Z.ones k) = 0 -> 0 <= j < 2 ^ k ->
  Z.lxor a j = a + j.
Proof.
  intros Hk Ha Hj. symmetry. apply Z.add_nocarry_lxor.
  replace j with (Z.land j (Z.ones k))
    by (rewrite Z.land_ones by lia; apply Z.mod_small; lia).
  rewrite (Z.land_comm j), Z.land_assoc, Ha. apply Z.land_0_l.
Qed.

Lemma land_low_counter (m k j : Z) :
  0 <= k -> Z.land m (Z.ones k) = 0 -> 0 <= j < 2 ^ k -> Z.land j m = 0.
Proof.
  intros Hk Hm Hj.
  replace j with (Z.land j (Z.ones k))
    by (rewrite Z.land_ones by lia; apply Z.mod_small; lia).
  rewrite <- Z.land_assoc, (Z.land_comm (Z.ones k)), Hm. apply Z.land_0_r.
Qed.

(** The masked network word of four bytes lies within the mask word. *)
Lemma Uint32_masked (x m : list Z) (M : Z) :
  List.length x = 4%nat -> Uint32 m = Some M ->
  exists A, Uint32 (andBytes x m) = Some A /\ Z.ldiff A M = 0.
Proof.
  intros Hx Hm.
  destruct x as [|x0 [|x1 [|x2 [|x3 [|? ?]]]]]; try discriminate.
  destruct m as [|m0 [|m1 [|m2 [|m3 m']]]]; try discriminate.
  unfold Uint32 in Hm. apply (f_equal (fun o => match o with Some v => v | None => 0 end)) in Hm.
  cbv beta iota in Hm. subst M.
  cbn [andBytes]. unfold Uint32. eexists. split; [reflexivity|].
  repeat (simple apply ldiff_lor;
          [|simple apply ldiff_shiftl; simple apply ldiff_land_mask]).
  simple apply ldiff_land_mask.
Qed.

Lemma Uint64_masked (x m : list Z) (M : Z) :
  List.length x = 8%nat -> Uint64 m = Some M ->
  exists A, Uint64 (andBytes x m) = Some A /\ Z.ldiff A M = 0.
Proof.
  intros Hx Hm.
  destruct x as [|x0 [|x1 [|x2 [|x3 [|x4 [|x5 [|x6 [|x7 [|? ?]]]]]]]]];
    try discriminate.
  destruct m as [|m0 [|m1 [|m2 [|m3 [|m4 [|m5 [|m6 [|m7 m']]]]]]]];
    try discriminate.
  unfold Uint64 in Hm. apply (f_equal (fun o => match o with Some v => v | None => 0 end)) in Hm.
  cbv beta iota in Hm. subst M.
  cbn [andBytes]. unfold Uint64. eexists. split; [reflexivity|].
  repeat (simple apply ldiff_lor;
          [|simple apply ldiff_shiftl; simple apply ldiff_land_mask]).
  simple apply ldiff_land_mask.
Qed.

(** The words of the masks of CIDRMask. *)
Lemma maskWord32 (p : Z) :
  0 <= p <= 32 ->
  Uint32 (cidrMaskLoop 4 p) = Some (2 ^ 32 - 2 ^ (32 - p))
  /\ complement 32 (2 ^ 32 - 2 ^ (32 - p)) = 2 ^ (32 - p) - 1
  /\ Z.land (2 ^ 32 - 2 ^ (32 - p)) (Z.ones (32 - p)) = 0.
Proof.
  intros Hp.
  pose (P := fun p =>
               match Uint32 (cidrMaskLoop 4 p) with
               | Some M =>
                   (M =? 2 ^ 32 - 2 ^ (32 - p))
                   && (complement 32 M =? 2 ^ (32 - p) - 1)
                   && (Z.land M (Z.ones (32 - p)) =? 0)
               | None => false
               end).
  assert (H : P p = true)
    by (apply (forall_upto P 32); [vm_compute; reflexivity|exact Hp]).
  unfold P in H. clear P.
  destruct (Uint32 (cidrMaskLoop 4 p)) as [M|]; [|discriminate].
  apply andb_true_iff in H. destruct H as [H H3].
  apply andb_true_iff in H. destruct H as [H1 H2].
  apply Z.eqb_eq in H1, H2, H3. subst M. auto.
Qed.

Lemma maskWord64 (p : Z) :
  64 <= p <= 128 ->
  Uint64 (skipn 8 (cidrMaskLoop 16 p)) = Some (2 ^ 64 - 2 ^ (128 - p))
  /\ complement 64 (2 ^ 64 - 2 ^ (128 - p)) = 2 ^ (128 - p) - 1
  /\ Z.land (2 ^ 64 - 2 ^ (128 - p)) (Z.ones (128 - p)) = 0.
Proof.
  intros Hp.
  pose (P := fun q =>
               match Uint64 (skipn 8 (cidrMaskLoop 16 (64 + q))) with
               | Some M =>
                   (M =? 2 ^ 64 - 2 ^ (128 - (64 + q)))
                   && (complement 64 M =? 2 ^ (128 - (64 + q)) - 1)
                   && (Z.land M (Z.ones (128 - (64 + q))) =? 0)
               | None => false
               end).
  assert (H : P (p - 64) = true)
    by (apply (forall_upto P 64); [vm_compute; reflexivity|lia]).
  unfold P in H. clear P. replace (64 + (p - 64)) with p in H by lia.
  destruct (Uint64 (skipn 8 (cidrMaskLoop 16 p))) as [M|]; [|discriminate].
  apply andb_true_iff in H. destruct H as [H H3].
  apply andb_true_iff in H. destruct H as [H1 H2].
  apply Z.eqb_eq in H1, H2, H3. subst M. auto.
Qed.

End BlockBits.

Section BlockV4.
Import Bytes Net NetMask Literal Expand.

Local Open Scope Z_scope.

Lemma expandCIDR_classify_v4 (s : string) (p : Z) :
  classify s = V4 p ->
  0 <= p <= 32
  /\ exists ip ipnet x,
       ParseCIDR s = Some (ip, ipnet)
       /\ expandCIDR s = inr (Expand4 ipnet)
       /\ netMask ipnet = cidrMaskLoop 4 p
       /\ List.length x = 4%nat
       /\ netIP ipnet = andBytes x (netMask ipnet).
Proof.
  intros Hc. pose proof (ParseCIDR_classify s) as H. rewrite Hc in H.
  destruct H as (Hp & ip & ipnet & Hparse & Hm). split; [exact Hp|].
  destruct (ParseCIDR_shape _ _ _ Hparse)
    as (i & n & x & _ & _ & Hip & [(_ & _ & Hx & _)|(_ & _ & _ & _ & Hm16)]).
  - exists ip, ipnet, x. split; [exact Hparse|]. split; [|auto].
    unfold expandCIDR. rewrite Hparse, Hm, (Size_cidrMask4 p Hp). reflexivity.
  - exfalso. rewrite Hm in Hm16.
    apply (f_equal (@List.length Z)) in Hm16.
    rewrite !cidrMaskLoop_length in Hm16. discriminate.
Qed.

Lemma pow2_pos (k : Z) : 0 <= k -> 0 < 2 ^ k.
Proof. intros H. apply Z.pow_pos_nonneg; lia. Qed.

(** The network word of an IPv4 block of prefix length [p]: a multiple of
    the block size, with the whole block below [2^32]. *)
Lemma network_word32 (x : list Z) (p : Z) :
  0 <= p <= 32 -> List.length x = 4%nat ->
  exists base,
    Uint32 (andBytes x (cidrMaskLoop 4 p)) = Some base
    /\ Z.ldiff base (2 ^ 32 - 2 ^ (32 - p)) = 0
    /\ Z.land base (Z.ones (32 - p)) = 0
    /\ 0 <= base /\ base + 2 ^ (32 - p) <= 2 ^ 32.
Proof.
  intros Hp Hx. destruct (maskWord32 p Hp) as (HM & _ & Hlow).
  destruct (Uint32_masked x _ _ Hx HM) as (base & Hb & Hsub).
  exists base. split; [exact Hb|]. split; [exact Hsub|].
  split; [exact (subset_low_zero _ _ _ Hsub Hlow)|].
  assert (Hpow : 0 < 2 ^ (32 - p)) by (apply pow2_pos; lia).
  assert (Hle : 2 ^ (32 - p) <= 2 ^ 32) by (apply Z.pow_le_mono_r; lia).
  destruct (subset_bounds base (2 ^ 32 - 2 ^ (32 - p))); [lia|exact Hsub|]. lia.
Qed.

(** The block of an IPv4 CIDR of prefix length 1 to 32: the goroutine of
    expandCIDR sends the [2^(32-p)] addresses from the network address
    on, each one more than the one before (so they are in strictly
    increasing order and distinct), and then closes the channel. *)
Theorem expandCIDR_v4_block (s : string) (p : Z) :
  classify s = V4 p -> 1 <= p ->
  exists ipnet base,
    expandCIDR s = inr (Expand4 ipnet)
    /\ Uint32 (netIP ipnet) = Some base
    /\ 0 <= base /\ base + 2 ^ (32 - p) <= 2 ^ 32
    /\ base mod 2 ^ (32 - p) = 0
    /\ runBytes (Expand4 ipnet) (S (Z.to_nat (2 ^ (32 - p))))
       = Some (map (fun j => PutUint32 (base + Z.of_nat j))
                 (seq 0 (Z.to_nat (2 ^ (32 - p)))), true).
Proof.
  intros Hc Hp1.
  destruct (expandCIDR_classify_v4 s p Hc)
    as (Hp & ip & ipnet & x & _ & Hexp & Hm & Hx & Hip).
  destruct (network_word32 x p Hp Hx) as (base & Hb & _ & Hlow & Hb0 & Hb1).
  destruct (maskWord32 p Hp) as (HM & Hcompl & _).
  assert (Hpow : 0 < 2 ^ (32 - p)) by (apply pow2_pos; lia).
  assert (Hlt : 2 ^ (32 - p) < 2 ^ 32) by (apply Z.pow_lt_mono_r; lia).
  exists ipnet, base. split; [exact Hexp|].
  rewrite Hip, Hm. split; [exact Hb|]. split; [exact Hb0|]. split; [exact Hb1|].
  split; [rewrite <- Z.land_ones by lia; exact Hlow|].
  unfold runBytes. rewrite Hip, Hm, Hb, HM.
  rewrite counterLoop_bounded by (rewrite Hcompl; lia).
  rewrite Hcompl.
  replace (Z.of_nat (S (Z.to_nat (2 ^ (32 - p)))) <=? 2 ^ (32 - p) - 1 + 1 - 0)
    with false by (symmetry; apply Z.leb_gt; lia).
  replace (2 ^ (32 - p) - 1 + 1 - 0) with (2 ^ (32 - p)) by lia.
  rewrite map_map. f_equal. f_equal. apply map_ext_in.
  intros j Hj. apply in_seq in Hj. f_equal.
  rewrite Z.add_0_l. apply (lxor_low base (32 - p)); [lia|exact Hlow|lia].
Qed.

Lemma expandCIDR_v4_block_witness :
  exists ipnet base,
    expandCIDR "192.168.1.13/30" = inr (Expand4 ipnet)
    /\ Uint32 (netIP ipnet) = Some base
    /\ 0 <= base /\ base + 2 ^ (32 - 30) <= 2 ^ 32
    /\ base mod 2 ^ (32 - 30) = 0
    /\ runBytes (Expand4 ipnet) (S (Z.to_nat (2 ^ (32 - 30))))
       = Some (map (fun j => PutUint32 (base + Z.of_nat j))
                 (seq 0 (Z.to_nat (2 ^ (32 - 30)))), true).
Proof.
  apply (expandCIDR_v4_block "192.168.1.13/30" 30); [reflexivity|lia].
Defined.

End BlockV4.

Section BlockV6.
Import Bytes Net NetMask Literal Expand.

Local Open Scope Z_scope.

Lemma expandCIDR_classify_v6 (s : string) (p : Z) :
  classify s = V6 p -> 64 <= p ->
  p <= 128
  /\ exists ip ipnet x,
       ParseCIDR s = Some (ip, ipnet)
       /\ expandCIDR s = inr (Expand6 ipnet)
       /\ netMask ipnet = cidrMaskLoop 16 p
       /\ List.length x = 16%nat
       /\ netIP ipnet = andBytes x (netMask ipnet).
Proof.
  intros Hc H64. pose proof (ParseCIDR_classify s) as H. rewrite Hc in H.
  destruct H as (Hp & ip & ipnet & Hparse & Hm). split; [lia|].
  destruct (ParseCIDR_shape _ _ _ Hparse)
    as (i & n & x & _ & _ & Hip & [(_ & _ & _ & Hm4)|(_ & _ & _ & Hx & _)]).
  - exfalso. rewrite Hm in Hm4.
    apply (f_equal (@List.length Z)) in Hm4.
    rewrite !cidrMaskLoop_length in Hm4. discriminate.
  - exists ip, ipnet, x. split; [exact Hparse|]. split; [|auto].
    unfold expandCIDR. rewrite Hparse, Hm, (Size_cidrMask16 p Hp).
    change (128 =? 128) with true. cbn [andb].
    replace (p <? 64) with false by (symmetry; apply Z.ltb_ge; lia).
    reflexivity.
Qed.

Lemma skipn_andBytes (n : nat) :
  forall x m, skipn n (andBytes x m) = andBytes (skipn n x) (skipn n m).
Proof.
  induction n as [|n IH]; intros x m; [reflexivity|].
  destruct x as [|a x]; destruct m as [|b m]; simpl; try reflexivity.
  - destruct (skipn n x); reflexivity.
  - apply IH.
Qed.

Lemma network_word64 (x : list Z) (p : Z) :
  64 <= p <= 128 -> List.length x = 16%nat ->
  exists base,
    Uint64 (skipn 8 (andBytes x (cidrMaskLoop 16 p))) = Some base
    /\ Z.land base (Z.ones (128 - p)) = 0
    /\ 0 <= base /\ base + 2 ^ (128 - p) <= 2 ^ 64.
Proof.
  intros Hp Hx. destruct (maskWord64 p Hp) as (HM & _ & Hlow).
  assert (Hx8 : List.length (skipn 8 x) = 8%nat)
    by (rewrite length_skipn, Hx; reflexivity).
  rewrite skipn_andBytes.
  destruct (Uint64_masked _ _ _ Hx8 HM) as (base & Hb & Hsub).
  exists base. split; [exact Hb|].
  split; [exact (subset_low_zero _ _ _ Hsub Hlow)|].
  assert (Hpow : 0 < 2 ^ (128 - p)) by (apply pow2_pos; lia).
  assert (Hle : 2 ^ (128 - p) <= 2 ^ 64) by (apply Z.pow_le_mono_r; lia).
  destruct (subset_bounds base (2 ^ 64 - 2 ^ (128 - p))); [lia|exact Hsub|]. lia.
Qed.

(** The block of an IPv6 CIDR of prefix length 65 to 128: the goroutine
    sends the [2^(128-p)] addresses that share the upper eight bytes of
    the network address, their lower halves counting up by one from the
    one of the network address, and then closes the channel. *)
Theorem expandCIDR_v6_block (s : string) (p : Z) :
  classify s = V6 p -> 65 <= p ->
  exists ipnet base,
    expandCIDR s = inr (Expand6 ipnet)
    /\ Uint64 (skipn 8 (netIP ipnet)) = Some base
    /\ 0 <= base /\ base + 2 ^ (128 - p) <= 2 ^ 64
    /\ base mod 2 ^ (128 - p) = 0
    /\ runBytes (Expand6 ipnet) (S (Z.to_nat (2 ^ (128 - p))))
       = Some (map (fun j => (firstn 8 (netIP ipnet)
                              ++ PutUint64 (base + Z.of_nat j))%list)
                 (seq 0 (Z.to_nat (2 ^ (128 - p)))), true).
Proof.
  intros Hc Hp65.
  destruct (expandCIDR_classify_v6 s p Hc)
    as (Hp & ip & ipnet & x & _ & Hexp & Hm & Hx & Hip); [lia|].
  assert (Hp' : 64 <= p <= 128) by lia.
  destruct (network_word64 x p Hp' Hx) as (base & Hb & Hlow & Hb0 & Hb1).
  destruct (maskWord64 p Hp') as (HM & Hcompl & _).
  assert (Hpow : 0 < 2 ^ (128 - p)) by (apply pow2_pos; lia).
  assert (Hlt : 2 ^ (128 - p) < 2 ^ 64) by (apply Z.pow_lt_mono_r; lia).
  assert (Hlen : List.length (netIP ipnet) = 16%nat).
  { rewrite Hip, Hm. rewrite andBytes_length; rewrite cidrMaskLoop_length;
      [reflexivity|exact Hx]. }
  assert (Hlenm : List.length (netMask ipnet) = 16%nat)
    by (rewrite Hm; apply cidrMaskLoop_length).
  exists ipnet, base. split; [exact Hexp|].
  assert (Hb' : Uint64 (skipn 8 (netIP ipnet)) = Some base)
    by (rewrite Hip, Hm; exact Hb).
  split; [exact Hb'|]. split; [exact Hb0|]. split; [exact Hb1|].
  split; [rewrite <- Z.land_ones by lia; exact Hlow|].
  unfold runBytes. rewrite Hlen, Hlenm. change (16 <? 8)%nat with false.
  cbn [orb]. rewrite Hb'. rewrite Hm, HM.
  rewrite counterLoop_bounded by (rewrite Hcompl; lia).
  rewrite Hcompl.
  replace (Z.of_nat (S (Z.to_nat (2 ^ (128 - p)))) <=? 2 ^ (128 - p) - 1 + 1 - 0)
    with false by (symmetry; apply Z.leb_gt; lia).
  replace (2 ^ (128 - p) - 1 + 1 - 0) with (2 ^ (128 - p)) by lia.
  rewrite map_map. f_equal. f_equal. apply map_ext_in.
  intros j Hj. apply in_seq in Hj. f_equal. f_equal.
  rewrite Z.add_0_l. apply (lxor_low base (128 - p)); [lia|exact Hlow|lia].
Qed.

Lemma expandCIDR_v6_block_witness :
  exists ipnet base,
    expandCIDR "0:f:2::14/125" = inr (Expand6 ipnet)
    /\ Uint64 (skipn 8 (netIP ipnet)) = Some base
    /\ 0 <= base /\ base + 2 ^ (128 - 125) <= 2 ^ 64
    /\ base mod 2 ^ (128 - 125) = 0
    /\ runBytes (Expand6 ipnet) (S (Z.to_nat (2 ^ (128 - 125))))
       = Some (map (fun j => (firstn 8 (netIP ipnet)
                              ++ PutUint64 (base + Z.of_nat j))%list)
                 (seq 0 (Z.to_nat (2 ^ (128 - 125)))), true).
Proof.
  apply (expandCIDR_v6_block "0:f:2::14/125" 125); [reflexivity|lia].
Defined.

End BlockV6.

Section BigEndian.
Import Bytes Net NetMask Literal Expand.

Local Open Scope Z_scope.

Lemma testbit_small (a n i : Z) :
  0 <= a < 2 ^ n -> 0 <= n <= i -> Z.testbit a i = false.
Proof.
  intros Ha Hi. rewrite <- (Z.mod_small a (2 ^ n)) by lia.
  apply Z.mod_pow2_bits_high. lia.
Qed.

(** A word below [2^n] and a word shifted left by [n] share no bit: their
    [lor] is their sum. *)
Lemma lor_shift_add (lo hi n : Z) :
  0 <= n -> 0 <= lo < 2 ^ n -> Z.lor lo (Z.shiftl hi n) = lo + hi * 2 ^ n.
Proof.
  intros Hn Hlo.
  assert (Hdisj : Z.land lo (Z.shiftl hi n) = 0).
  { apply Z.bits_inj'. intros i Hi. rewrite Z.land_spec, Z.bits_0.
    destruct (Z.lt_ge_cases i n) as [Hlt|Hge].
    - rewrite Z.shiftl_spec_low by lia. apply andb_false_r.
    - rewrite (testbit_small lo n i) by lia. reflexivity. }
  rewrite <- Z.lxor_lor by exact Hdisj.
  rewrite <- Z.add_nocarry_lxor by exact Hdisj.
  rewrite Z.shiftl_mul_pow2 by lia. reflexivity.
Qed.

Lemma Uint32_sum (a0 a1 a2 a3 : Z) :
  isByte a0 -> isByte a1 -> isByte a2 -> isByte a3 ->
  Uint32 [a0; a1; a2; a3]
  = Some (a3 + a2 * 2 ^ 8 + a1 * 2 ^ 16 + a0 * 2 ^ 24).
Proof.
  unfold isByte. intros H0 H1 H2 H3. unfold Uint32. f_equal.
  rewrite (lor_shift_add a3 a2 8) by lia.
  rewrite (lor_shift_add _ a1 16) by lia.
  rewrite (lor_shift_add _ a0 24) by lia. reflexivity.
Qed.

Lemma byteAt_div (v s : Z) : 0 <= s -> byteAt v s = (v / 2 ^ s) mod 2 ^ 8.
Proof.
  intros Hs. unfold byteAt. change 255 with (Z.ones 8).
  rewrite Z.land_ones by lia. rewrite Z.shiftr_div_pow2 by lia. reflexivity.
Qed.

Lemma byteAt_isByte (v s : Z) : 0 <= s -> isByte (byteAt v s).
Proof.
  intros Hs. rewrite byteAt_div by exact Hs. unfold isByte.
  pose proof (Z.mod_pos_bound (v / 2 ^ s) (2 ^ 8)). lia.
Qed.

(** binary.BigEndian: reading what was written gives the word back. *)
Lemma Uint32_PutUint32 (v : Z) :
  0 <= v < 2 ^ 32 -> Uint32 (PutUint32 v) = Some v.
Proof.
  intros Hv. unfold PutUint32.
  rewrite Uint32_sum by (apply byteAt_isByte; lia). f_equal.
  rewrite !byteAt_div by lia.
  change (2 ^ 0) with 1. change (2 ^ 8) with 256.
  change (2 ^ 16) with 65536. change (2 ^ 24) with 16777216.
  change (2 ^ 32) with 4294967296 in Hv.
  Z.div_mod_to_equations. lia.
Qed.

(** ... and writing the word read from four bytes gives the bytes back. *)
Lemma PutUint32_Uint32 (a0 a1 a2 a3 v : Z) :
  isByte a0 -> isByte a1 -> isByte a2 -> isByte a3 ->
  Uint32 [a0; a1; a2; a3] = Some v ->
  PutUint32 v = [a0; a1; a2; a3].
Proof.
  intros H0 H1 H2 H3 Hv. rewrite Uint32_sum in Hv by assumption.
  injection Hv as <-. unfold isByte in *. unfold PutUint32.
  rewrite !byteAt_div by lia.
  change (2 ^ 0) with 1. change (2 ^ 8) with 256.
  change (2 ^ 16) with 65536. change (2 ^ 24) with 16777216.
  repeat f_equal; Z.div_mod_to_equations; lia.
Qed.

Lemma byteAt_land (v m s : Z) :
  byteAt (Z.land v m) s = Z.land (byteAt v s) (byteAt m s).
Proof.
  unfold byteAt. rewrite Z.shiftr_land.
  apply Z.bits_inj'. intros i _. rewrite !Z.land_spec.
  destruct (Z.testbit (Z.shiftr v s) i), (Z.testbit (Z.shiftr m s) i),
    (Z.testbit 255 i); reflexivity.
Qed.

Lemma andBytes_PutUint32 (v m : Z) :
  andBytes (PutUint32 v) (PutUint32 m) = PutUint32 (Z.land v m).
Proof.
  unfold PutUint32. cbn [andBytes]. rewrite !byteAt_land. reflexivity.
Qed.

Lemma land_lxor_distr (a j m : Z) :
  Z.land (Z.lxor a j) m = Z.lxor (Z.land a m) (Z.land j m).
Proof.
  apply Z.bits_inj'. intros i _.
  rewrite Z.land_spec, !Z.lxor_spec, !Z.land_spec.
  destruct (Z.testbit a i), (Z.testbit j i), (Z.testbit m i); reflexivity.
Qed.

Lemma bytesEq_refl (l : list Z) : bytesEq l l = true.
Proof.
  unfold bytesEq. rewrite Nat.eqb_refl. simpl.
  induction l as [|a l IH]; simpl; [reflexivity|].
  rewrite Z.eqb_refl. exact IH.
Qed.

Lemma bytesEq_eq (a b : list Z) : bytesEq a b = true -> a = b.
Proof.
  unfold bytesEq. intros H. apply andb_true_iff in H. destruct H as [Hl H].
  apply Nat.eqb_eq in Hl. revert b Hl H.
  induction a as [|x a IH]; intros [|y b] Hl H; try discriminate;
    [reflexivity|].
  simpl in H. apply andb_true_iff in H. destruct H as [Hxy H].
  apply Z.eqb_eq in Hxy. simpl in Hl. injection Hl as Hl.
  rewrite Hxy, (IH b Hl H). reflexivity.
Qed.

(** The bytes of the mask of CIDRMask are those of its word. *)
Lemma maskBytes32 (p : Z) :
  0 <= p <= 32 -> PutUint32 (2 ^ 32 - 2 ^ (32 - p)) = cidrMaskLoop 4 p.
Proof.
  intros Hp. apply bytesEq_eq.
  pose (P := fun p => bytesEq (PutUint32 (2 ^ 32 - 2 ^ (32 - p)))
                        (cidrMaskLoop 4 p)).
  change (P p = true).
  apply (forall_upto P 32); [vm_compute; reflexivity|exact Hp].
Qed.

End BigEndian.

Section DottedQuad.
Import Bytes Net NetMask Literal Expand.

Lemma dtoiLoop_app (d rest : string) :
  allBytes isDigit d = true ->
  match rest with
  | EmptyString => True
  | String c _ => isDigit c = false
  end ->
  forall n i, dtoiLoop (d ++ rest) n i = dtoiLoop d n i.
Proof.
  intros Hd Hrest. induction d as [|c d IH]; intros n i.
  - simpl. destruct rest as [|c r]; [reflexivity|].
    simpl. rewrite Hrest. reflexivity.
  - simpl in Hd. apply andb_true_iff in Hd. destruct Hd as [Hc Hd].
    simpl. rewrite Hc.
    destruct (big <=? n * 10 + (byteVal c - byteVal "0"))%Z; [reflexivity|].
    apply IH. exact Hd.
Qed.

Lemma drop_app_exact (u t : string) : drop (String.length u) (u ++ t) = t.
Proof.
  induction u as [|c u IH]; simpl; [destruct t; reflexivity|exact IH].
Qed.

Lemma octet_reads_back (v : Z) : isByte v -> octetReadsBack v = true.
Proof.
  intros Hv. apply (forall_upto octetReadsBack 255);
    [vm_compute; reflexivity|exact Hv].
Qed.

(** One round of the loop of parseIPv4 on an octet printed by ubtoa. *)
Lemma parseIPv4Loop_octet (k i : nat) (v : Z) (tail : string) (p : list Z) :
  isByte v ->
  match tail with
  | EmptyString => True
  | String c _ => c = "."%char
  end ->
  parseIPv4Loop (S k) i
    ((if (0 <? i)%nat then "." else "") ++ ubtoa v ++ tail) p
  = parseIPv4Loop k (S i) tail (p ++ [v])%list.
Proof.
  intros Hv Htail. pose proof (octet_reads_back v Hv) as H.
  unfold octetReadsBack in H. cbv zeta in H.
  remember (ubtoa v) as u eqn:Eu. clear Eu.
  apply andb_true_iff in H. destruct H as [H Hlead].
  apply andb_true_iff in H. destruct H as [Hdig Hdtoi].
  destruct u as [|d u']; [discriminate Hlead|].
  assert (Hnd : match tail with
                | EmptyString => True
                | String c _ => isDigit c = false
                end)
    by (destruct tail; [exact I|subst; reflexivity]).
  assert (Hd : dtoi (String d u' ++ tail)
               = (v, String.length (String d u'), true)).
  { unfold dtoi. rewrite (dtoiLoop_app _ _ Hdig Hnd).
    unfold dtoi in Hdtoi.
    destruct (dtoiLoop (String d u') 0 0) as [[n c] ok].
    apply andb_true_iff in Hdtoi. destruct Hdtoi as [Hdtoi Hok].
    apply andb_true_iff in Hdtoi. destruct Hdtoi as [Hn Hc].
    apply Z.eqb_eq in Hn. apply Nat.eqb_eq in Hc. subst. reflexivity. }
  assert (Hstep :
    (let '(n, c, ok) := dtoi (String d u' ++ tail) in
     if negb ok || (255 <? n)%Z then None
     else
       let leadingZero :=
         match String d u' ++ tail with
         | String d0 _ => (1 <? c)%nat && Ascii.eqb d0 "0"
         | EmptyString => false
         end in
       if leadingZero then None
       else parseIPv4Loop k (S i) (drop c (String d u' ++ tail)) (p ++ [v])%list)
    = parseIPv4Loop k (S i) tail (p ++ [v])%list).
  { rewrite Hd. cbn [negb orb].
    replace (255 <? v)%Z with false
      by (symmetry; apply Z.ltb_ge; unfold isByte in Hv; lia).
    cbv zeta. change (String d u' ++ tail) with (String d (u' ++ tail)) at 1.
    cbv iota. apply negb_true_iff in Hlead. rewrite Hlead.
    rewrite drop_app_exact. reflexivity. }
  destruct i as [|i].
  - change ((if (0 <? 0)%nat then "." else "") ++ String d u' ++ tail)
      with (String d (u' ++ tail)).
    cbn [parseIPv4Loop]. change (0 <? 0)%nat with false. cbv iota.
    change (String d (u' ++ tail)) with (String d u' ++ tail).
    rewrite Hd in *. cbn [negb orb] in *.
    revert Hstep. cbv zeta. intros Hstep. exact Hstep.
  - change ((if (0 <? S i)%nat then "." else "") ++ String d u' ++ tail)
      with (String "." (String d u' ++ tail)).
    cbn [parseIPv4Loop]. change (0 <? S i)%nat with true. cbv iota.
    change (Ascii.eqb "." ".") with true. cbv iota.
    rewrite Hd in *. cbn [negb orb] in *.
    revert Hstep. cbv zeta. intros Hstep. exact Hstep.
Qed.

End DottedQuad.

Section DottedQuadParse.
Import Bytes Net NetMask Literal Expand.

Lemma isDigit_not_dot (c : ascii) : isDigit c = true -> Ascii.eqb c "." = false.
Proof.
  intros H. destruct (Ascii.eqb c ".") eqn:E; [|reflexivity].
  apply Ascii.eqb_eq in E. subst c. discriminate H.
Qed.

Lemma parseIPScan_digits (u t whole : string) :
  allBytes isDigit u = true ->
  parseIPScan (u ++ String "." t) whole = parseIPv4 whole.
Proof.
  induction u as [|c u IH]; intros H; [reflexivity|].
  simpl in H. apply andb_true_iff in H. destruct H as [Hc Hu].
  simpl. rewrite (isDigit_not_dot c Hc), (isDigit_not_colon c Hc).
  apply IH. exact Hu.
Qed.

Lemma parseIPv4_dotted (a b c d : Z) :
  isByte a -> isByte b -> isByte c -> isByte d ->
  parseIPv4 (dotted [a; b; c; d]) = Some (IPv4 a b c d).
Proof.
  intros Ha Hb Hc Hd. unfold parseIPv4, dotted, IPv4len. cbn [nth].
  rewrite <- (string_app_nil_r (ubtoa d)).
  assert (E : parseIPv4Loop 4 0
                (ubtoa a ++ "." ++ ubtoa b ++ "." ++ ubtoa c ++ "."
                 ++ ubtoa d ++ "") []
              = Some ("", [a; b; c; d])).
  { etransitivity;
      [exact (parseIPv4Loop_octet 3 0 a
                ("." ++ ubtoa b ++ "." ++ ubtoa c ++ "." ++ ubtoa d ++ "")
                [] Ha eq_refl)|].
    etransitivity;
      [exact (parseIPv4Loop_octet 2 1 b
                ("." ++ ubtoa c ++ "." ++ ubtoa d ++ "") _ Hb eq_refl)|].
    etransitivity;
      [exact (parseIPv4Loop_octet 1 2 c ("." ++ ubtoa d ++ "") _ Hc eq_refl)|].
    etransitivity; [exact (parseIPv4Loop_octet 0 3 d "" _ Hd I)|].
    reflexivity. }
  rewrite E. reflexivity.
Qed.

(** net.ParseIP reads back the dotted quad that IP.String prints. *)
Lemma ParseIP_dotted (a b c d : Z) :
  isByte a -> isByte b -> isByte c -> isByte d ->
  ParseIP (IPString [a; b; c; d]) = Some (IPv4 a b c d).
Proof.
  intros Ha Hb Hc Hd.
  change (IPString [a; b; c; d]) with (dotted [a; b; c; d]).
  unfold ParseIP. rewrite <- (parseIPv4_dotted a b c d Ha Hb Hc Hd).
  unfold dotted at 1. cbn [nth].
  pose proof (octet_reads_back a Ha) as H. unfold octetReadsBack in H.
  cbv zeta in H. apply andb_true_iff in H. destruct H as [H _].
  apply andb_true_iff in H. destruct H as [Hdig _].
  apply (parseIPScan_digits (ubtoa a) _ _ Hdig).
Qed.

End DottedQuadParse.

Section BlockV4Strings.
Import Bytes Net NetMask Literal Expand.

Local Open Scope Z_scope.

Lemma andBytes_idem (x m : list Z) :
  andBytes (andBytes x m) m = andBytes x m.
Proof.
  revert m. induction x as [|a x IH]; intros [|b m]; simpl; try reflexivity.
  rewrite IH, <- Z.land_assoc, Z.land_diag. reflexivity.
Qed.

Lemma Contains_IPv4 (n : IPNet) (a b c d : Z) :
  Contains n (IPv4 a b c d) = Contains n [a; b; c; d].
Proof. reflexivity. Qed.

Lemma land_isByte (x m : Z) : isByte m -> isByte (Z.land x m).
Proof.
  unfold isByte. intros Hm.
  destruct (subset_bounds (Z.land x m) m); [lia|apply ldiff_land_mask|]. lia.
Qed.

Lemma NoDup_map_on {A B : Type} (f : A -> B) (l : list A) :
  (forall x y, In x l -> In y l -> f x = f y -> x = y) ->
  NoDup l -> NoDup (map f l).
Proof.
  intros Hinj Hnd. induction Hnd as [|x l Hx Hnd IH]; simpl; [constructor|].
  constructor.
  - intros Hin. apply in_map_iff in Hin. destruct Hin as (y & Hy & Hyl).
    apply Hx. rewrite (Hinj x y); [exact Hyl|left; reflexivity|right; exact Hyl|].
    symmetry. exact Hy.
  - apply IH. intros a b Ha Hb. apply Hinj; right; assumption.
Qed.

(** The block of the network [x & mask] of prefix length [p]. *)
Lemma v4_block (x : list Z) (p : Z) :
  1 <= p <= 32 -> List.length x = 4%nat ->
  let ipnet := mkIPNet (andBytes x (cidrMaskLoop 4 p)) (cidrMaskLoop 4 p) in
  exists base,
    0 <= base /\ base + 2 ^ (32 - p) <= 2 ^ 32
    /\ runBytes (Expand4 ipnet) (S (Z.to_nat (2 ^ (32 - p))))
       = Some (map (fun j => PutUint32 (base + Z.of_nat j))
                 (seq 0 (Z.to_nat (2 ^ (32 - p)))), true)
    /\ forall j, 0 <= j < 2 ^ (32 - p) ->
         Contains ipnet (PutUint32 (base + j)) = true.
Proof.
  intros Hp1 Hx ipnet. assert (Hp : 0 <= p <= 32) by lia.
  destruct (network_word32 x p Hp Hx) as (base & Hb & Hsub & Hlow & Hb0 & Hb1).
  destruct (maskWord32 p Hp) as (HM & Hcompl & HMlow).
  assert (Hpow : 0 < 2 ^ (32 - p)) by (apply pow2_pos; lia).
  assert (Hlt : 2 ^ (32 - p) < 2 ^ 32) by (apply Z.pow_lt_mono_r; lia).
  exists base. split; [exact Hb0|]. split; [exact Hb1|]. split.
  - unfold runBytes, ipnet. cbn [netIP netMask]. rewrite Hb, HM.
    rewrite counterLoop_bounded by (rewrite Hcompl; lia).
    rewrite Hcompl.
    replace (Z.of_nat (S (Z.to_nat (2 ^ (32 - p)))) <=? 2 ^ (32 - p) - 1 + 1 - 0)
      with false by (symmetry; apply Z.leb_gt; lia).
    replace (2 ^ (32 - p) - 1 + 1 - 0) with (2 ^ (32 - p)) by lia.
    rewrite map_map. f_equal. f_equal. apply map_ext_in.
    intros j Hj. apply in_seq in Hj. f_equal.
    rewrite Z.add_0_l. apply (lxor_low base (32 - p)); [lia|exact Hlow|lia].
  - intros j Hj.
    (* the bytes of the network address and of the mask *)
    pose proof (maskBytes32 p Hp) as Hmb.
    destruct x as [|x0 [|x1 [|x2 [|x3 [|? ?]]]]]; try discriminate.
    assert (Hnet : PutUint32 base = andBytes [x0; x1; x2; x3] (cidrMaskLoop 4 p)).
    { revert Hb. rewrite <- Hmb. unfold PutUint32 at 1 2. cbn [andBytes].
      intros Hb. apply PutUint32_Uint32;
        try (apply land_isByte, byteAt_isByte; lia). exact Hb. }
    assert (Hand : andBytes (PutUint32 (base + j)) (cidrMaskLoop 4 p)
                   = andBytes [x0; x1; x2; x3] (cidrMaskLoop 4 p)).
    { rewrite <- Hmb at 1. rewrite andBytes_PutUint32, <- Hnet. f_equal.
      rewrite <- (lxor_low base (32 - p) j) by (lia || exact Hlow).
      rewrite land_lxor_distr, (subset_land _ _ Hsub).
      rewrite (land_low_counter _ (32 - p) j) by (lia || exact HMlow).
      apply Z.lxor_0_r. }
    unfold Contains, networkNumberAndMask, To4, ipnet. cbn [netIP netMask].
    rewrite andBytes_length
      by (rewrite cidrMaskLoop_length; reflexivity).
    rewrite cidrMaskLoop_length.
    change (List.length (PutUint32 (base + j))) with 4%nat.
    change (4 =? IPv4len)%nat with true. cbv iota.
    rewrite andBytes_length
      by (rewrite cidrMaskLoop_length; reflexivity).
    rewrite cidrMaskLoop_length.
    change (4 =? IPv4len)%nat with true. cbv iota.
    rewrite andBytes_length
      by (rewrite cidrMaskLoop_length; reflexivity).
    rewrite cidrMaskLoop_length. cbn [Nat.eqb andb].
    rewrite andBytes_idem, Hand. apply bytesEq_refl.
Qed.

(** What the test of the repository checks of an IPv4 block: for a
    well-formed IPv4 CIDR of prefix length 1 to 32 the channel of
    expandCIDR yields exactly [2^(32-p)] strings and is closed; the
    strings are pairwise distinct, and each of them is read back by
    net.ParseIP to an address that the network of the CIDR contains. *)
Theorem expandCIDR_v4_strings (s : string) (p : Z) :
  classify s = V4 p -> 1 <= p ->
  exists ipnet strings,
    expandCIDR s = inr (Expand4 ipnet)
    /\ run (Expand4 ipnet) (S (Z.to_nat (2 ^ (32 - p)))) = Some (strings, true)
    /\ Z.of_nat (List.length strings) = 2 ^ (32 - p)
    /\ NoDup strings
    /\ forall a, In a strings ->
         exists ip, ParseIP a = Some ip /\ Contains ipnet ip = true.
Proof.
  intros Hc Hp1.
  destruct (expandCIDR_classify_v4 s p Hc)
    as (Hp & ip & ipnet & x & _ & Hexp & Hm & Hx & Hip).
  destruct ipnet as [nip nm]. cbn [netIP netMask] in Hm, Hip. subst nm nip.
  destruct (v4_block x p (conj Hp1 (proj2 Hp)) Hx)
    as (base & Hb0 & Hb1 & Hrun & Hin).
  assert (Hpow : 0 < 2 ^ (32 - p)) by (apply pow2_pos; lia).
  assert (Hparse : forall v, ParseIP (IPString (PutUint32 v))
                             = Some (IPv4 (byteAt v 24) (byteAt v 16)
                                       (byteAt v 8) (byteAt v 0))).
  { intros v. unfold PutUint32. apply ParseIP_dotted; apply byteAt_isByte; lia. }
  eexists _, _. split; [exact Hexp|]. split.
  { unfold run. rewrite Hrun. rewrite map_map. reflexivity. }
  split; [rewrite length_map, length_seq; lia|]. split.
  - apply NoDup_map_on; [|apply seq_NoDup].
    intros j1 j2 H1 H2 Heq. apply in_seq in H1, H2.
    apply (f_equal ParseIP) in Heq. rewrite !Hparse in Heq.
    assert (Hput : PutUint32 (base + Z.of_nat j1) = PutUint32 (base + Z.of_nat j2)).
    { unfold PutUint32. unfold IPv4 in Heq. injection Heq as E0 E1 E2 E3.
      rewrite E0, E1, E2, E3. reflexivity. }
    apply (f_equal Uint32) in Hput.
    rewrite !Uint32_PutUint32 in Hput by lia. injection Hput as Hput. lia.
  - intros a Ha. apply in_map_iff in Ha. destruct Ha as (j & <- & Hj).
    apply in_seq in Hj. eexists. split; [apply Hparse|].
    rewrite Contains_IPv4. apply (Hin (Z.of_nat j)). lia.
Qed.

Lemma expandCIDR_v4_strings_witness :
  exists ipnet strings,
    expandCIDR "192.168.1.13/30" = inr (Expand4 ipnet)
    /\ run (Expand4 ipnet) (S (Z.to_nat (2 ^ (32 - 30)))) = Some (strings, true)
    /\ Z.of_nat (List.length strings) = 2 ^ (32 - 30)
    /\ NoDup strings
    /\ forall a, In a strings ->
         exists ip, ParseIP a = Some ip /\ Contains ipnet ip = true.
Proof.
  apply (expandCIDR_v4_strings "192.168.1.13/30" 30); [reflexivity|lia].
Defined.

End BlockV4Strings.

(** ** processInputItem: plain hosts and blank items *)

Section ItemsMore.
Import Bytes Net NetMask GoStrings Regexp Cero Literal Expand Pipeline.

Lemma trimLeftLoop_spaces (s : string) :
  allBytes isAsciiSpace s = true ->
  forall k, (String.length s <= k)%nat -> trimLeftLoop k s = "".
Proof.
  induction s as [|c s IH]; intros Hs k Hk.
  - destruct k; reflexivity.
  - simpl in Hs. apply andb_true_iff in Hs. destruct Hs as [Hc Hs].
    destruct k as [|k]; [simpl in Hk; lia|].
    cbn [trimLeftLoop]. unfold leadingSpace. rewrite Hc.
    assert (E : drop 1 (String c s) = s) by (destruct s; reflexivity).
    rewrite E. apply IH; [exact Hs|simpl in Hk; lia].
Qed.

(** A blank item (white space only, as an empty line of the input) sends
    nothing. *)
Theorem processInputItem_blank
    (defaultPorts : list string) (fuel : nat) (input : string) :
  allBytes isAsciiSpace input = true ->
  processInputItem defaultPorts fuel input = Returns [].
Proof.
  intros H. unfold processInputItem, TrimSpace.
  rewrite (trimLeftLoop_spaces input H) by lia. reflexivity.
Qed.

Lemma processInputItem_blank_witness :
  processInputItem ["443"] 0 "   " = Returns [].
Proof.
  apply (processInputItem_blank ["443"] 0 "   "). reflexivity.
Defined.

Lemma isCIDR_app (a b : string) : isCIDR (a ++ b) = isCIDR a || isCIDR b.
Proof. unfold isCIDR. apply containsByte_app. Qed.

(** A host name or IPv4 address without port gets one target for each
    default port, in the order of the list; with an explicit port it gets
    that port only, and the default ports are not used. *)
Theorem processInputItem_plain_host
    (defaultPorts : list string) (fuel : nat) (host port : string) :
  host <> "" ->
  containsByte ":" host = false -> containsByte "/" host = false ->
  containsByte LF host = false ->
  port <> "" -> allBytes isDigit port = true ->
  TrimSpace host = host ->
  TrimSpace (host ++ ":" ++ port) = host ++ ":" ++ port ->
  processInputItem defaultPorts fuel host
  = Returns (map (fun p => SendInput (host ++ ":" ++ p)) defaultPorts)
  /\ processInputItem defaultPorts fuel (host ++ ":" ++ port)
     = Returns [SendInput (host ++ ":" ++ port)].
Proof.
  intros Hne Hcolon Hslash Hlf Hp Hd Htrim Htrim2.
  assert (Hjoin : forall q, JoinHostPort host q = host ++ ":" ++ q)
    by (intros q; unfold JoinHostPort; rewrite Hcolon; reflexivity).
  split.
  - unfold processInputItem. rewrite Htrim.
    rewrite (nonempty_length host Hne).
    rewrite (splitHostPort_no_colon host Hcolon Hlf).
    unfold isCIDR. rewrite Hslash. cbn [String.length Nat.eqb].
    f_equal. apply map_ext. intros q. f_equal. apply Hjoin.
  - unfold processInputItem. rewrite Htrim2.
    assert (Hlen : (String.length (host ++ ":" ++ port) =? 0)%nat = false)
      by (apply nonempty_length; destruct host; [contradiction|discriminate]).
    rewrite Hlen.
    assert (Hsplit : splitHostPort (host ++ ":" ++ port) = Some (host, port)).
    { unfold splitHostPort.
      rewrite (portRegexp_with_port host port Hlf Hp Hd), Hcolon.
      cbn [andb]. rewrite (nonempty_length port Hp).
      unfold isCIDR. rewrite Hslash. reflexivity. }
    rewrite Hsplit. rewrite (nonempty_length port Hp).
    unfold isCIDR. rewrite Hslash. cbn [map]. rewrite Hjoin. reflexivity.
Qed.

Lemma processInputItem_plain_host_witness :
  processInputItem ["443"; "8443"] 0 "example.com"
  = Returns (map (fun p => SendInput ("example.com" ++ ":" ++ p)) ["443"; "8443"])
  /\ processInputItem ["443"; "8443"] 0 ("example.com" ++ ":" ++ "25")
     = Returns [SendInput ("example.com" ++ ":" ++ "25")].
Proof.
  apply (processInputItem_plain_host ["443"; "8443"] 0 "example.com" "25");
    try reflexivity; discriminate.
Defined.

Lemma indexByte_none (s : string) (c : ascii) :
  containsByte c s = false -> indexByte s c = None.
Proof.
  induction s as [|d s IH]; simpl; [reflexivity|].
  intros H. apply orb_false_iff in H. destruct H as [-> H].
  rewrite (IH H). reflexivity.
Qed.

(** The guard of processInputItem is needed: expandCIDR returns a channel
    only for texts that isCIDR accepts; for every other text it returns
    the parse error. *)
Theorem expandCIDR_needs_isCIDR (s : string) :
  isCIDR s = false -> expandCIDR s = inl (ParseError s).
Proof.
  unfold isCIDR, expandCIDR, ParseCIDR. intros H.
  rewrite (indexByte_none s "/" H). reflexivity.
Qed.

Lemma expandCIDR_needs_isCIDR_witness :
  expandCIDR "::1" = inl (ParseError "::1").
Proof.
  apply (expandCIDR_needs_isCIDR "::1"). reflexivity.
Defined.

End ItemsMore.

Section BigEndian64.
Import Bytes Net NetMask Literal Expand.

Local Open Scope Z_scope.

Lemma Uint64_sum (a0 a1 a2 a3 a4 a5 a6 a7 : Z) :
  isByte a0 -> isByte a1 -> isByte a2 -> isByte a3 ->
  isByte a4 -> isByte a5 -> isByte a6 -> isByte a7 ->
  Uint64 [a0; a1; a2; a3; a4; a5; a6; a7]
  = Some (a7 + a6 * 2 ^ 8 + a5 * 2 ^ 16 + a4 * 2 ^ 24 + a3 * 2 ^ 32
          + a2 * 2 ^ 40 + a1 * 2 ^ 48 + a0 * 2 ^ 56).
Proof.
  unfold isByte. intros H0 H1 H2 H3 H4 H5 H6 H7. unfold Uint64. f_equal.
  rewrite (lor_shift_add a7 a6 8) by lia.
  rewrite (lor_shift_add _ a5 16) by lia.
  rewrite (lor_shift_add _ a4 24) by lia.
  rewrite (lor_shift_add _ a3 32) by lia.
  rewrite (lor_shift_add _ a2 40) by lia.
  rewrite (lor_shift_add _ a1 48) by lia.
  rewrite (lor_shift_add _ a0 56) by lia. reflexivity.
Qed.

(** The byte at [s] of [lo + hi * 2^n]: below [n] it is the byte of [lo],
    at [n] the low byte of [hi]. *)
Lemma byteAt_low (lo hi n s : Z) :
  0 <= s -> s + 8 <= n -> byteAt (lo + hi * 2 ^ n) s = byteAt lo s.
Proof.
  intros Hs Hn. rewrite !byteAt_div by lia.
  replace (2 ^ n) with (2 ^ (n - s - 8) * 2 ^ 8 * 2 ^ s)
    by (rewrite <- !Z.pow_add_r by lia; f_equal; lia).
  rewrite !Z.mul_assoc, Z.div_add by (apply Z.pow_nonzero; lia).
  rewrite Z.mod_add by (apply Z.pow_nonzero; lia). reflexivity.
Qed.

Lemma byteAt_high (lo hi n : Z) :
  0 <= n -> 0 <= lo < 2 ^ n -> isByte hi -> byteAt (lo + hi * 2 ^ n) n = hi.
Proof.
  intros Hn Hlo Hhi. rewrite byteAt_div by lia.
  rewrite Z.div_add by (apply Z.pow_nonzero; lia).
  rewrite Z.div_small by lia. unfold isByte in Hhi.
  apply Z.mod_small. change (2 ^ 8) with 256. lia.
Qed.

Lemma byteAt_zero (a : Z) : isByte a -> byteAt a 0 = a.
Proof.
  intros Ha. rewrite byteAt_div by lia. change (2 ^ 0) with 1.
  rewrite Z.div_1_r. unfold isByte in Ha. apply Z.mod_small.
  change (2 ^ 8) with 256. lia.
Qed.

Lemma PutUint64_Uint64 (a0 a1 a2 a3 a4 a5 a6 a7 v : Z) :
  isByte a0 -> isByte a1 -> isByte a2 -> isByte a3 ->
  isByte a4 -> isByte a5 -> isByte a6 -> isByte a7 ->
  Uint64 [a0; a1; a2; a3; a4; a5; a6; a7] = Some v ->
  PutUint64 v = [a0; a1; a2; a3; a4; a5; a6; a7].
Proof.
  intros H0 H1 H2 H3 H4 H5 H6 H7 Hv.
  rewrite Uint64_sum in Hv by assumption.
  apply (f_equal (fun o => match o with Some z => z | None => 0 end)) in Hv.
  cbv beta iota in Hv. subst v.
  pose proof H0 as B0. pose proof H1 as B1. pose proof H2 as B2.
  pose proof H3 as B3. pose proof H4 as B4. pose proof H5 as B5.
  pose proof H6 as B6. pose proof H7 as B7. unfold isByte in B0, B1, B2, B3, B4, B5, B6, B7.
  unfold PutUint64.
  f_equal; [|f_equal; [|f_equal; [|f_equal; [|f_equal; [|f_equal; [|f_equal; [|f_equal]]]]]]].
  - apply byteAt_high; [lia| |exact H0]. lia.
  - rewrite byteAt_low by lia. apply byteAt_high; [lia| |exact H1]. lia.
  - rewrite !byteAt_low by lia. apply byteAt_high; [lia| |exact H2]. lia.
  - rewrite !byteAt_low by lia. apply byteAt_high; [lia| |exact H3]. lia.
  - rewrite !byteAt_low by lia. apply byteAt_high; [lia| |exact H4]. lia.
  - rewrite !byteAt_low by lia. apply byteAt_high; [lia| |exact H5]. lia.
  - rewrite !byteAt_low by lia. apply byteAt_high; [lia| |exact H6]. lia.
  - rewrite !byteAt_low by lia. apply byteAt_zero. exact H7.
Qed.

Lemma Uint64_PutUint64 (v : Z) :
  0 <= v < 2 ^ 64 -> Uint64 (PutUint64 v) = Some v.
Proof.
  intros Hv. unfold PutUint64.
  rewrite Uint64_sum by (apply byteAt_isByte; lia). f_equal.
  rewrite !byteAt_div by lia.
  change (2 ^ 0) with 1. change (2 ^ 8) with 256.
  change (2 ^ 16) with 65536. change (2 ^ 24) with 16777216.
  change (2 ^ 32) with 4294967296. change (2 ^ 40) with 1099511627776.
  change (2 ^ 48) with 281474976710656.
  change (2 ^ 56) with 72057594037927936.
  change (2 ^ 64) with 18446744073709551616 in Hv.
  Z.div_mod_to_equations. lia.
Qed.

Lemma andBytes_PutUint64 (v m : Z) :
  andBytes (PutUint64 v) (PutUint64 m) = PutUint64 (Z.land v m).
Proof.
  unfold PutUint64. cbn [andBytes]. rewrite !byteAt_land. reflexivity.
Qed.

Lemma maskBytes64 (p : Z) :
  64 <= p <= 128 ->
  cidrMaskLoop 16 p
  = (repeat 255 8 ++ PutUint64 (2 ^ 64 - 2 ^ (128 - p)))%list.
Proof.
  intros Hp. apply bytesEq_eq.
  pose (P := fun q => bytesEq (cidrMaskLoop 16 (64 + q))
                        (repeat 255 8
                         ++ PutUint64 (2 ^ 64 - 2 ^ (128 - (64 + q))))%list).
  assert (H : P (p - 64) = true)
    by (apply (forall_upto P 64); [vm_compute; reflexivity|lia]).
  unfold P in H. replace (64 + (p - 64)) with p in H by lia. exact H.
Qed.

End BigEndian64.

Section BlockV6Bytes.
Import Bytes Net NetMask Literal Expand.

Local Open Scope Z_scope.

Lemma andBytes_app (a1 a2 m1 m2 : list Z) :
  List.length a1 = List.length m1 ->
  andBytes (a1 ++ a2) (m1 ++ m2) = (andBytes a1 m1 ++ andBytes a2 m2)%list.
Proof.
  revert m1. induction a1 as [|x a1 IH]; intros [|y m1] H; try discriminate.
  - reflexivity.
  - simpl. rewrite IH; [reflexivity|]. simpl in H. lia.
Qed.

Lemma firstn_andBytes (n : nat) :
  forall x m, firstn n (andBytes x m) = andBytes (firstn n x) (firstn n m).
Proof.
  induction n as [|n IH]; intros x m; [reflexivity|].
  destruct x as [|a x]; destruct m as [|b m]; simpl; try reflexivity.
  rewrite IH. reflexivity.
Qed.

(** The block of an IPv6 CIDR of prefix length 65 to 128, as addresses:
    the goroutine of expandCIDR sends exactly [2^(128-p)] addresses of
    sixteen bytes and closes the channel; they are pairwise distinct, and
    each of them, under the mask of the CIDR, is the network address: it
    lies in the block. *)
Theorem expandCIDR_v6_contained (s : string) (p : Z) :
  classify s = V6 p -> 65 <= p ->
  exists ipnet addrs,
    expandCIDR s = inr (Expand6 ipnet)
    /\ runBytes (Expand6 ipnet) (S (Z.to_nat (2 ^ (128 - p))))
       = Some (addrs, true)
    /\ Z.of_nat (List.length addrs) = 2 ^ (128 - p)
    /\ NoDup addrs
    /\ forall b, In b addrs ->
         List.length b = 16%nat
         /\ andBytes b (netMask ipnet) = netIP ipnet.
Proof.
  intros Hc Hp65.
  destruct (expandCIDR_classify_v6 s p Hc)
    as (Hp & ip & ipnet & x & _ & Hexp & Hm & Hx & Hip); [lia|].
  assert (Hp' : 64 <= p <= 128) by lia.
  destruct ipnet as [nip nm]. cbn [netIP netMask] in Hm, Hip. subst nm nip.
  destruct (maskWord64 p Hp') as (HM & Hcompl & HMlow).
  assert (Hx8 : List.length (skipn 8 x) = 8%nat)
    by (rewrite length_skipn, Hx; reflexivity).
  pose proof (maskBytes64 p Hp') as Hmb.
  assert (Hmlo : skipn 8 (cidrMaskLoop 16 p)
                 = PutUint64 (2 ^ 64 - 2 ^ (128 - p)))
    by (rewrite Hmb; reflexivity).
  assert (Hmhi : firstn 8 (cidrMaskLoop 16 p) = repeat 255 8)
    by (rewrite Hmb; reflexivity).
  destruct (Uint64_masked _ _ _ Hx8 HM) as (base & Hb & Hsub).
  pose proof (subset_low_zero _ _ _ Hsub HMlow) as Hlow.
  assert (Hpow : 0 < 2 ^ (128 - p)) by (apply pow2_pos; lia).
  assert (Hlt : 2 ^ (128 - p) < 2 ^ 64) by (apply Z.pow_lt_mono_r; lia).
  assert (Hle : 2 ^ (128 - p) <= 2 ^ 64) by lia.
  destruct (subset_bounds base (2 ^ 64 - 2 ^ (128 - p))) as [Hb0 Hb1];
    [lia|exact Hsub|].
  set (net := andBytes x (cidrMaskLoop 16 p)) in *.
  assert (Hlen : List.length net = 16%nat).
  { unfold net. rewrite andBytes_length; rewrite cidrMaskLoop_length;
      [reflexivity|exact Hx]. }
  assert (Hlo : skipn 8 net = andBytes (skipn 8 x) (skipn 8 (cidrMaskLoop 16 p)))
    by (unfold net; apply skipn_andBytes).
  assert (Hrun : runBytes (Expand6 (mkIPNet net (cidrMaskLoop 16 p)))
                   (S (Z.to_nat (2 ^ (128 - p))))
                 = Some (map (fun j => (firstn 8 net
                                        ++ PutUint64 (base + Z.of_nat j))%list)
                           (seq 0 (Z.to_nat (2 ^ (128 - p)))), true)).
  { unfold runBytes. cbn [netIP netMask].
    rewrite Hlen, cidrMaskLoop_length. change (16 <? 8)%nat with false.
    cbn [orb]. rewrite Hlo, Hb, HM.
    rewrite counterLoop_bounded by (rewrite Hcompl; lia).
    rewrite Hcompl.
    replace (Z.of_nat (S (Z.to_nat (2 ^ (128 - p))))
             <=? 2 ^ (128 - p) - 1 + 1 - 0)
      with false by (symmetry; apply Z.leb_gt; lia).
    replace (2 ^ (128 - p) - 1 + 1 - 0) with (2 ^ (128 - p)) by lia.
    rewrite map_map. f_equal. f_equal. apply map_ext_in.
    intros j Hj. apply in_seq in Hj. f_equal. f_equal.
    rewrite Z.add_0_l. apply (lxor_low base (128 - p)); [lia|exact Hlow|lia]. }
  (* the lower half of the network address, as bytes *)
  assert (Hnetlo : PutUint64 base = skipn 8 net).
  { rewrite Hlo. revert Hb. rewrite Hmlo.
    destruct (skipn 8 x) as [|x0 [|x1 [|x2 [|x3 [|x4 [|x5 [|x6 [|x7 [|? ?]]]]]]]]];
      try discriminate.
    unfold PutUint64 at 1 2. cbn [andBytes]. intros Hb.
    apply PutUint64_Uint64; try (apply land_isByte, byteAt_isByte; lia).
    exact Hb. }
  assert (Hnethi : andBytes (firstn 8 net) (repeat 255 8) = firstn 8 net).
  { unfold net. rewrite firstn_andBytes, Hmhi. apply andBytes_idem. }
  eexists _, _. split; [exact Hexp|]. split; [exact Hrun|].
  split; [rewrite length_map, length_seq; lia|]. split.
  - apply NoDup_map_on; [|apply seq_NoDup].
    intros j1 j2 H1 H2 Heq. apply in_seq in H1, H2.
    apply app_inv_head in Heq. apply (f_equal Uint64) in Heq.
    rewrite !Uint64_PutUint64 in Heq by lia. injection Heq as Heq. lia.
  - intros b Hb'. apply in_map_iff in Hb'. destruct Hb' as (j & <- & Hj).
    apply in_seq in Hj. cbn [netIP netMask]. split.
    + rewrite length_app, length_firstn, Hlen. reflexivity.
    + rewrite Hmb at 1.
      rewrite andBytes_app
        by (rewrite length_firstn, Hlen; reflexivity).
      rewrite Hnethi, andBytes_PutUint64.
      rewrite <- (lxor_low base (128 - p) (Z.of_nat j)) by (lia || exact Hlow).
      rewrite land_lxor_distr, (subset_land _ _ Hsub).
      rewrite (land_low_counter _ (128 - p) (Z.of_nat j))
        by (lia || exact HMlow).
      rewrite Z.lxor_0_r, Hnetlo. apply firstn_skipn.
Qed.

Lemma expandCIDR_v6_contained_witness :
  exists ipnet addrs,
    expandCIDR "0:f:2::14/125" = inr (Expand6 ipnet)
    /\ runBytes (Expand6 ipnet) (S (Z.to_nat (2 ^ (128 - 125))))
       = Some (addrs, true)
    /\ Z.of_nat (List.length addrs) = 2 ^ (128 - 125)
    /\ NoDup addrs
    /\ forall b, In b addrs ->
         List.length b = 16%nat
         /\ andBytes b (netMask ipnet) = netIP ipnet.
Proof.
  apply (expandCIDR_v6_contained "0:f:2::14/125" 125); [reflexivity|lia].
Defined.

End BlockV6Bytes.

Section Labels.
Import Bytes Domain.

Lemma scanString_app_inr (l1 l2 : string) (st st' : scan) :
  scanString (l1 ++ l2) st = inr st' ->
  exists st1, scanString l1 st = inr st1 /\ scanString l2 st1 = inr st'.
Proof.
  rewrite scanString_app.
  destruct (scanString l1 st) as [b|st1]; [discriminate|].
  intros H. exists st1. split; [reflexivity|exact H].
Qed.

Lemma isDomainName_scan (s : string) :
  isDomainName s = Some true ->
  exists st, scanString s (mkScan "." false 0 0) = inr st /\ finalTest st = true.
Proof.
  rewrite isDomainName_eq. intros [= H].
  apply andb_true_iff in H. destruct H as [_ H].
  destruct (scanString s (mkScan "." false 0 0)) as [b|st] eqn:E.
  - subst b. apply scanString_early in E. discriminate.
  - exists st. split; [reflexivity|exact H].
Qed.

(** The edges of labels: in a name that isDomainName accepts no dot and no
    hyphen follows a dot, and no dot follows a hyphen (no label is empty,
    none begins or ends with a hyphen); the name begins with neither and
    does not end with a hyphen. *)
Theorem isDomainName_label_edges (s : string) :
  isDomainName s = Some true ->
  (forall pre a b post, s = pre ++ String a (String b post) ->
     (a = "."%char -> b <> "."%char /\ b <> "-"%char)
     /\ (a = "-"%char -> b <> "."%char))
  /\ (forall c rest, s = String c rest -> c <> "."%char /\ c <> "-"%char)
  /\ lastByte s <> Some "-"%char.
Proof.
  intros Hacc. destruct (isDomainName_scan s Hacc) as (st & Hscan & Hfin).
  split; [|split].
  - intros pre a b post ->.
    replace (pre ++ String a (String b post))
      with ((pre ++ String a "") ++ String b post) in Hscan
      by (rewrite string_app_assoc; reflexivity).
    destruct (scanString_app_inr _ _ _ _ Hscan) as (st1 & H1 & H2).
    destruct (scanString_inr _ _ _ H1) as (_ & _ & _ & Hlast & _).
    specialize (Hlast a (lastByte_app_one pre a)).
    cbn [scanString] in H2.
    destruct (scanByte st1 b) as [x|st2] eqn:Eb; [discriminate|].
    split.
    + intros ->. split; intros ->; rewrite <- Hlast in *;
        unfold scanByte in Eb; simpl in Eb; rewrite Hlast in Eb;
        discriminate Eb.
    + intros -> ->. unfold scanByte in Eb. simpl in Eb.
      rewrite Hlast in Eb. discriminate Eb.
  - intros c rest ->. cbn [scanString] in Hscan.
    destruct (scanByte (mkScan "." false 0 0) c) as [x|st2] eqn:Eb;
      [discriminate|].
    split; intros ->; discriminate Eb.
  - intros Hl. destruct (scanString_inr _ _ _ Hscan) as (_ & _ & _ & Hlast & _).
    specialize (Hlast _ Hl). unfold finalTest in Hfin.
    rewrite Hlast in Hfin. discriminate Hfin.
Qed.

Lemma isDomainName_label_edges_witness :
  lastByte "test-1.com" <> Some "-"%char.
Proof.
  apply (isDomainName_label_edges "test-1.com"). reflexivity.
Defined.

Lemma scanString_label (lab : string) :
  containsByte "." lab = false ->
  forall st st', scanString lab st = inr st' ->
    partlen st' = (partlen st + String.length lab)%nat.
Proof.
  intros Hdot. induction lab as [|c lab IH]; intros st st' H.
  - simpl in H. injection H as <-. simpl. lia.
  - simpl in Hdot. apply orb_false_iff in Hdot. destruct Hdot as [Hc Hdot].
    cbn [scanString] in H.
    destruct (scanByte st c) as [x|st1] eqn:Eb; [discriminate|].
    rewrite (IH Hdot _ _ H). simpl.
    assert (E : partlen st1 = S (partlen st)).
    { unfold scanByte in Eb. rewrite Ascii.eqb_sym in Hc.
      destruct (isLower c || isUpper c); [injection Eb as <-; reflexivity|].
      destruct (isDigit c); [injection Eb as <-; reflexivity|].
      destruct (Ascii.eqb c "-").
      - destruct (Ascii.eqb (last st) "."); [discriminate|].
        injection Eb as <-. reflexivity.
      - rewrite Ascii.eqb_sym in Hc. rewrite Hc in Eb. discriminate. }
    lia.
Qed.

Lemma scanString_too_long (l : string) :
  forall st, (63 < partlen st)%nat ->
    match scanString l st with
    | inl b => b = false
    | inr st' => (63 < partlen st')%nat
    end.
Proof.
  induction l as [|c l IH]; intros st H; [exact H|].
  cbn [scanString]. destruct (scanByte st c) as [x|st1] eqn:Eb.
  - exact (scanByte_early _ _ _ Eb).
  - apply IH. unfold scanByte in Eb.
    destruct (isLower c || isUpper c); [injection Eb as <-; simpl; lia|].
    destruct (isDigit c); [injection Eb as <-; simpl; lia|].
    destruct (Ascii.eqb c "-").
    + destruct (Ascii.eqb (last st) "."); [discriminate|].
      injection Eb as <-. simpl. lia.
    + destruct (Ascii.eqb c "."); [|discriminate].
      destruct (Ascii.eqb (last st) "." || Ascii.eqb (last st) "-");
        [discriminate|].
      apply Nat.ltb_lt in H. rewrite H in Eb. discriminate.
Qed.

(** No label of more than 63 bytes: a name with 64 bytes or more in a row
    without a dot is never accepted. *)
Theorem isDomainName_long_label (pre lab post : string) :
  containsByte "." lab = false ->
  (64 <= String.length lab)%nat ->
  isDomainName (pre ++ lab ++ post) <> Some true.
Proof.
  intros Hdot Hlen Hacc.
  destruct (isDomainName_scan _ Hacc) as (st & Hscan & Hfin).
  destruct (scanString_app_inr _ _ _ _ Hscan) as (st1 & _ & H2).
  destruct (scanString_app_inr _ _ _ _ H2) as (st2 & Hlab & Hpost).
  pose proof (scanString_label lab Hdot _ _ Hlab) as Hpart.
  assert (Hlong : (63 < partlen st2)%nat) by lia.
  pose proof (scanString_too_long post st2 Hlong) as Hend.
  rewrite Hpost in Hend. unfold finalTest in Hfin.
  apply Nat.ltb_lt in Hend. rewrite Hend, orb_true_r in Hfin.
  discriminate Hfin.
Qed.

Lemma isDomainName_long_label_witness :
  isDomainName ("www." ++ "aaaaaaaaaaaaaaaaaaaaaaaaaaaaaaaaaaaaaaaaaaaaaaaaaaaaaaaaaaaaaaaa" ++ ".com")
  <> Some true.
Proof.
  apply (isDomainName_long_label "www."
           "aaaaaaaaaaaaaaaaaaaaaaaaaaaaaaaaaaaaaaaaaaaaaaaaaaaaaaaaaaaaaaaa" ".com");
    [reflexivity|simpl; lia].
Defined.

End Labels.

Section ItemCIDR.
Import Bytes Net NetMask GoStrings Regexp Cero Literal Expand Pipeline.

Lemma classify_isCIDR (s : string) (p : Z) :
  classify s = V4 p -> isCIDR s = true /\ s <> "".
Proof.
  intros H. split.
  - unfold isCIDR. destruct (containsByte "/" s) eqn:E; [reflexivity|].
    unfold classify in H. rewrite (indexByte_none s "/" E) in H. discriminate.
  - intros ->. discriminate H.
Qed.

Lemma length_flat_map_const {A B : Type} (f : A -> list B) (k : nat) (l : list A) :
  (forall x, List.length (f x) = k) ->
  List.length (flat_map f l) = (List.length l * k)%nat.
Proof.
  intros H. induction l as [|x l IH]; simpl; [reflexivity|].
  rewrite length_app, H, IH. reflexivity.
Qed.

(** An IPv4 CIDR item without port: processInputItem sends, for each
    string that the channel of expandCIDR yields, in that order, one
    target per default port in the order of the list, [2^(32-p)] times
    the number of default ports in all, and returns. *)
Theorem processInputItem_v4_cidr
    (defaultPorts : list string) (input s : string) (p : Z) :
  TrimSpace input = s ->
  classify s = V4 p -> (1 <= p)%Z ->
  containsByte ":" s = false -> containsByte LF s = false ->
  exists ipnet strings,
    expandCIDR s = inr (Expand4 ipnet)
    /\ run (Expand4 ipnet) (S (Z.to_nat (2 ^ (32 - p)))) = Some (strings, true)
    /\ processInputItem defaultPorts (S (Z.to_nat (2 ^ (32 - p)))) input
       = Returns (flat_map
                    (fun ip => map (fun q => SendInput (JoinHostPort ip q))
                                 defaultPorts)
                    strings)
    /\ Z.of_nat (List.length strings) = (2 ^ (32 - p))%Z
    /\ List.length
         (flat_map
            (fun ip => map (fun q => SendInput (JoinHostPort ip q)) defaultPorts)
            strings)
       = (List.length strings * List.length defaultPorts)%nat.
Proof.
  intros Htrim Hc Hp1 Hcolon Hlf.
  destruct (classify_isCIDR s p Hc) as [Hcidr Hne].
  destruct (expandCIDR_classify_v4 s p Hc)
    as (Hp & ip & ipnet & x & _ & Hexp & Hm & Hx & Hip).
  destruct ipnet as [nip nm]. cbn [netIP netMask] in Hm, Hip. subst nm nip.
  destruct (v4_block x p (conj Hp1 (proj2 Hp)) Hx)
    as (base & Hb0 & Hb1 & Hrun & _).
  assert (Hpow : (0 < 2 ^ (32 - p))%Z) by (apply pow2_pos; lia).
  assert (Hrun' : run (Expand4 (mkIPNet (andBytes x (cidrMaskLoop 4 p))
                                  (cidrMaskLoop 4 p)))
                    (S (Z.to_nat (2 ^ (32 - p))))
                  = Some (map IPString
                            (map (fun j => PutUint32 (base + Z.of_nat j))
                               (seq 0 (Z.to_nat (2 ^ (32 - p))))), true))
    by (unfold run; rewrite Hrun; reflexivity).
  eexists _, _. split; [exact Hexp|]. split; [exact Hrun'|]. split; [|split].
  - unfold processInputItem. rewrite Htrim, (nonempty_length s Hne).
    rewrite (splitHostPort_no_colon s Hcolon Hlf), Hcidr, Hexp, Hrun'.
    reflexivity.
  - rewrite !length_map, length_seq. lia.
  - apply length_flat_map_const. intros a. apply length_map.
Qed.

Lemma processInputItem_v4_cidr_witness :
  exists ipnet strings,
    expandCIDR "10.0.0.0/30" = inr (Expand4 ipnet)
    /\ run (Expand4 ipnet) (S (Z.to_nat (2 ^ (32 - 30)))) = Some (strings, true)
    /\ processInputItem ["443"; "8443"] (S (Z.to_nat (2 ^ (32 - 30)))) " 10.0.0.0/30 "
       = Returns (flat_map
                    (fun ip => map (fun q => SendInput (JoinHostPort ip q))
                                 ["443"; "8443"])
                    strings)
    /\ Z.of_nat (List.length strings) = (2 ^ (32 - 30))%Z
    /\ List.length
         (flat_map
            (fun ip => map (fun q => SendInput (JoinHostPort ip q)) ["443"; "8443"])
            strings)
       = (List.length strings * List.length ["443"; "8443"])%nat.
Proof.
  apply (processInputItem_v4_cidr ["443"; "8443"] " 10.0.0.0/30 " "10.0.0.0/30" 30);
    [reflexivity|reflexivity|lia|reflexivity|reflexivity].
Defined.

End ItemCIDR.
